(** * VideoCanvas: timeline, audio scheduling, frame rendering, playback control

    A shallow embedding of the [VideoCanvas] React component
    (components/VideoCanvas.tsx) and of the asset types it reads (types.ts).

    The repository keeps several evolutionary snapshots of the component.
    [Module VideoCanvas] embeds the current one (the snapshot with per-scene
    transition styles, the hook bar and the narration stop times);
    [Module VideoCanvasPrev] embeds, from the preceding snapshot, the
    functions in which it differs and that are compared below
    ([getTimeline], [scheduleAudio] and the recorder's [onstop] handler).

    Numbers.  JavaScript numbers are modelled as exact rationals [Q]: seconds
    and milliseconds are rationals, [==] on numbers is [Qeq], there is no NaN,
    no infinity and no rounding.  Division by zero, which JavaScript answers
    with NaN or an infinity, is [0] in [Q]; no statement below depends on
    such a quotient. *)

From Stdlib Require Import QArith Qminmax Qround Qpower Lqa ZArith String.
From stdpp Require Import base option list gmap strings.

Local Open Scope Q_scope.

(** ** JavaScript helpers *)

(** [x < y] as a boolean. *)
Definition Qltb (x y : Q) : bool := negb (Qle_bool y x).

(** [x || y] on numbers: [x] unless it is falsy, that is zero. *)
Definition jsOr (x y : Q) : Q := if Qeq_bool x 0 then y else x.

(** [x % d] for a positive [d]: the remainder has the sign of [x]. *)
Definition jsRem (x d : Q) : Q :=
  let q := x / d in
  x - d * inject_Z (Z.quot (Qnum q) (Zpos (Qden q))).

(** [Array.prototype.findIndex]: the first index whose element satisfies
    [f], or [-1]. *)
Fixpoint findIndexFrom {A : Type} (f : A → bool) (i : Z) (l : list A) : Z :=
  match l with
  | [] => (-1)%Z
  | x :: l' => if f x then i else findIndexFrom f (i + 1)%Z l'
  end.

Definition findIndex {A : Type} (f : A → bool) (l : list A) : Z :=
  findIndexFrom f 0%Z l.

(** ** Data model (types.ts) *)

Inductive TransitionType := fade | slide | zoom | blur | dissolve.

Inductive AssetStatus := pending | loading | completed | error.

(** Modelled from the spec: the [transitionType] and [isHook] fields of
    [ScriptScene], which the component reads but which the types.ts of the
    repository does not declare yet: an optional transition style among
    fade, slide, zoom, blur and dissolve, and an optional boolean. *)
Record ScriptScene := {
  id : Z;
  visualDescription : string;
  narration : string;
  durationEstimate : Q;
  transitionType : option TransitionType;
  isHook : option bool
}.

(** The part of a decoded [AudioBuffer] the component reads. *)
Record AudioBuffer := { buf_label : string; buf_duration : Q }.

(** The part of an [HTMLImageElement] the component reads. *)
Record HTMLImageElement := {
  img_src : string;
  complete : bool;
  naturalWidth : Z
}.

Record GeneratedAsset := {
  sceneId : Z;
  imageUrl : option string;
  audioUrl : option string;
  audioBuffer : option AudioBuffer;
  imageElement : option HTMLImageElement;
  status : AssetStatus
}.

(** The properties of the component, without its two callbacks, which are
    events of the trace below. *)
Record Props := {
  scenes : list ScriptScene;
  assets : gmap Z GeneratedAsset;
  bgMusicBuffer : option AudioBuffer;
  width : Q;
  height : Q
}.

(** [{ ...scene, start, duration, end }] *)
Record TimelineEntry := {
  scene : ScriptScene;
  start : Q;
  duration : Q;
  end_ : Q
}.

(** The [scenes.map] of [getTimeline], with its mutable [cursor] passed
    along; [dur] is the duration a snapshot gives a scene. *)
Fixpoint timelineFrom (dur : ScriptScene → Q) (cursor : Q)
    (ss : list ScriptScene) : list TimelineEntry :=
  match ss with
  | [] => []
  | sc :: rest =>
      let duration := dur sc in
      let start := cursor in
      let cursor := cursor + duration in
      {| scene := sc; start := start; duration := duration; end_ := cursor |}
        :: timelineFrom dur cursor rest
  end.

(** [timeline[timeline.length - 1]?.end || 0] *)
Definition lastEndOr0 (tl : list TimelineEntry) : Q :=
  match last tl with
  | Some e => jsOr (end_ e) 0
  | None => 0
  end.

(** ** The host environment

    The browser objects the component drives are modelled by what the
    component does to them: the calls it makes are the events of a trace, and
    what it reads back (clocks, handles, encoder support) is an [Env]. *)

(** An [AudioBufferSourceNode] after [start] and, where the code calls it,
    [stop]: [node_when] and [node_offset] are the arguments of [start]
    (the offset is [0] when omitted), [node_stop] the argument of [stop],
    [node_gain] the gain between the node and the outputs. *)
Record SourceNode := {
  node_buffer : AudioBuffer;
  node_loop : bool;
  node_gain : Q;
  node_when : Q;
  node_offset : Q;
  node_stop : option Q
}.

(** Web Audio plays a node from [max when currentTime]: a [when] in the past,
    such as [0], means at once. *)
Definition beginsAt (currentTime : Q) (n : SourceNode) : Q :=
  Qmax (node_when n) currentTime.

Inductive FillStyle := Black | Vignette | HookBar.

Inductive Callback := PreRoll | PostRoll | RevokeUrl.

Inductive RecorderState := inactive | recording | paused.

Record MediaRecorder := {
  rec_state : RecorderState;
  rec_mimeType : option string
}.

Record Blob := { blob_size : Z; blob_type : option string }.

(** The calls made on the host and on the two callbacks of the component. *)
Inductive Event :=
  | Alert (msg : string)
  | ConsoleError (msg : string)
  | OnPlaybackEnd
  | OnProgress (time total : Q) (sceneIndex : Z)
  | FillRect (style : FillStyle) (alpha : Q) (filter : option Q) (x y w h : Q)
  | DrawImage (img : HTMLImageElement) (alpha : Q) (filter : option Q)
      (x y w h : Q)
  | NodeStop (n : SourceNode)
  | NodeDisconnect (n : SourceNode)
  | AudioResume
  | CancelAnimationFrame (handle : Z)
  | RequestAnimationFrame
  | SetTimeout (cb : Callback) (ms : Z)
  | RecorderStart (mimeType : option string)
  | RecorderStop
  | DownloadClick (stamp : Q) (ext : string) (blob : Blob).

(** What the host answers. *)
Record Env := {
  dateNow : Q;                      (* Date.now(), milliseconds *)
  currentTime : Q;                  (* ctx.currentTime, seconds *)
  audioSuspended : bool;            (* ctx.state === 'suspended' *)
  frameHandle : Z;                  (* result of requestAnimationFrame *)
  isTypeSupported : string → bool;  (* MediaRecorder.isTypeSupported *)
  recorderFails : bool;             (* new MediaRecorder(...) throws *)
  startFails : bool                 (* recorder.start() throws *)
}.

(** The drawing state of a 2D context that the component sets;
    [globalCompositeOperation] is only ever set to its default and is left
    out.  [saved] is the stack of [save] and [restore]. *)
Record Ctx2D := {
  fillStyle : FillStyle;
  globalAlpha : Q;
  filter : option Q;   (* [Some r] is blur(r px), [None] is none *)
  saved : list (FillStyle * Q * option Q)
}.

(** The refs of a component instance.  [canvasRef] is [None] while no canvas
    is mounted and [Some None] when [getContext('2d')] answers null. *)
Record Refs := {
  canvasRef : option (option Ctx2D);
  audioContextRef : bool;
  destinationRef : bool;
  mediaRecorderRef : option MediaRecorder;
  chunksRef : list Blob;
  requestRef : Z;
  startTimeRef : Q;
  pauseTimeRef : Q;
  isPlayingRef : bool;
  isRecordingRef : bool;
  activeSourcesRef : list SourceNode
}.

Definition set_canvas (c : Ctx2D) (s : Refs) : Refs :=
  {| canvasRef := Some (Some c); audioContextRef := audioContextRef s;
     destinationRef := destinationRef s; mediaRecorderRef := mediaRecorderRef s;
     chunksRef := chunksRef s; requestRef := requestRef s;
     startTimeRef := startTimeRef s; pauseTimeRef := pauseTimeRef s;
     isPlayingRef := isPlayingRef s; isRecordingRef := isRecordingRef s;
     activeSourcesRef := activeSourcesRef s |}.

Definition set_mediaRecorder (r : MediaRecorder) (s : Refs) : Refs :=
  {| canvasRef := canvasRef s; audioContextRef := audioContextRef s;
     destinationRef := destinationRef s; mediaRecorderRef := Some r;
     chunksRef := chunksRef s; requestRef := requestRef s;
     startTimeRef := startTimeRef s; pauseTimeRef := pauseTimeRef s;
     isPlayingRef := isPlayingRef s; isRecordingRef := isRecordingRef s;
     activeSourcesRef := activeSourcesRef s |}.

Definition set_chunks (l : list Blob) (s : Refs) : Refs :=
  {| canvasRef := canvasRef s; audioContextRef := audioContextRef s;
     destinationRef := destinationRef s; mediaRecorderRef := mediaRecorderRef s;
     chunksRef := l; requestRef := requestRef s;
     startTimeRef := startTimeRef s; pauseTimeRef := pauseTimeRef s;
     isPlayingRef := isPlayingRef s; isRecordingRef := isRecordingRef s;
     activeSourcesRef := activeSourcesRef s |}.

Definition set_request (h : Z) (s : Refs) : Refs :=
  {| canvasRef := canvasRef s; audioContextRef := audioContextRef s;
     destinationRef := destinationRef s; mediaRecorderRef := mediaRecorderRef s;
     chunksRef := chunksRef s; requestRef := h;
     startTimeRef := startTimeRef s; pauseTimeRef := pauseTimeRef s;
     isPlayingRef := isPlayingRef s; isRecordingRef := isRecordingRef s;
     activeSourcesRef := activeSourcesRef s |}.

Definition set_startTime (t : Q) (s : Refs) : Refs :=
  {| canvasRef := canvasRef s; audioContextRef := audioContextRef s;
     destinationRef := destinationRef s; mediaRecorderRef := mediaRecorderRef s;
     chunksRef := chunksRef s; requestRef := requestRef s;
     startTimeRef := t; pauseTimeRef := pauseTimeRef s;
     isPlayingRef := isPlayingRef s; isRecordingRef := isRecordingRef s;
     activeSourcesRef := activeSourcesRef s |}.

Definition set_pauseTime (t : Q) (s : Refs) : Refs :=
  {| canvasRef := canvasRef s; audioContextRef := audioContextRef s;
     destinationRef := destinationRef s; mediaRecorderRef := mediaRecorderRef s;
     chunksRef := chunksRef s; requestRef := requestRef s;
     startTimeRef := startTimeRef s; pauseTimeRef := t;
     isPlayingRef := isPlayingRef s; isRecordingRef := isRecordingRef s;
     activeSourcesRef := activeSourcesRef s |}.

Definition set_isPlaying (b : bool) (s : Refs) : Refs :=
  {| canvasRef := canvasRef s; audioContextRef := audioContextRef s;
     destinationRef := destinationRef s; mediaRecorderRef := mediaRecorderRef s;
     chunksRef := chunksRef s; requestRef := requestRef s;
     startTimeRef := startTimeRef s; pauseTimeRef := pauseTimeRef s;
     isPlayingRef := b; isRecordingRef := isRecordingRef s;
     activeSourcesRef := activeSourcesRef s |}.

Definition set_isRecording (b : bool) (s : Refs) : Refs :=
  {| canvasRef := canvasRef s; audioContextRef := audioContextRef s;
     destinationRef := destinationRef s; mediaRecorderRef := mediaRecorderRef s;
     chunksRef := chunksRef s; requestRef := requestRef s;
     startTimeRef := startTimeRef s; pauseTimeRef := pauseTimeRef s;
     isPlayingRef := isPlayingRef s; isRecordingRef := b;
     activeSourcesRef := activeSourcesRef s |}.

Definition set_activeSources (l : list SourceNode) (s : Refs) : Refs :=
  {| canvasRef := canvasRef s; audioContextRef := audioContextRef s;
     destinationRef := destinationRef s; mediaRecorderRef := mediaRecorderRef s;
     chunksRef := chunksRef s; requestRef := requestRef s;
     startTimeRef := startTimeRef s; pauseTimeRef := pauseTimeRef s;
     isPlayingRef := isPlayingRef s; isRecordingRef := isRecordingRef s;
     activeSourcesRef := l |}.

(** A 2D context as [getContext] first hands it out. *)
Definition defaultContext : Ctx2D :=
  {| fillStyle := Black; globalAlpha := 1; filter := None; saved := [] |}.

(** The refs after mounting: the audio context and its stream destination are
    created by the mount effect, the 2D context has its default state. *)
Definition mounted : Refs :=
  {| canvasRef := Some (Some defaultContext);
     audioContextRef := true; destinationRef := true;
     mediaRecorderRef := None; chunksRef := []; requestRef := 0%Z;
     startTimeRef := 0; pauseTimeRef := 0;
     isPlayingRef := false; isRecordingRef := false;
     activeSourcesRef := [] |}.

(** ** Handlers as state transformers

    A handler reads the host, updates the refs, emits events and may throw;
    [None] is an uncaught exception, with the effects up to it kept. *)
Definition M (A : Type) : Type := Env → Refs → option A * Refs * list Event.

Definition ret {A : Type} (a : A) : M A := λ _ s, (Some a, s, []).

(** A run that comes after the events [t]. *)
Definition after {A : Type} (t : list Event)
    (r : option A * Refs * list Event) : option A * Refs * list Event :=
  (r.1.1, r.1.2, t ++ r.2).

Definition bind {A B : Type} (m : M A) (f : A → M B) : M B :=
  λ env s,
    match m env s with
    | (Some a, s1, t1) => after t1 (f a env s1)
    | (None, s1, t1) => (None, s1, t1)
    end.

Notation "'do' x <- m ; k" := (bind m (λ x, k))
  (at level 10, x name, m at level 100, k at level 200).
Notation "m ;;; k" := (bind m (λ _, k))
  (at level 100, k at level 200, right associativity).

Definition get : M Refs := λ _ s, (Some s, s, []).
Definition ask : M Env := λ env s, (Some env, s, []).
Definition modify (f : Refs → Refs) : M unit := λ _ s, (Some tt, f s, []).
Definition emit (e : Event) : M unit := λ _ s, (Some tt, s, [e]).
Definition emitAll (t : list Event) : M unit := λ _ s, (Some tt, s, t).
Definition throw {A : Type} : M A := λ _ s, (None, s, []).

(** [try { m } catch { h }] *)
Definition tryCatch (m h : M unit) : M unit :=
  λ env s,
    match m env s with
    | (Some a, s1, t1) => (Some a, s1, t1)
    | (None, s1, t1) => after t1 (h env s1)
    end.

Definition when (b : bool) (m : M unit) : M unit := if b then m else ret tt.

Fixpoint forEach {A : Type} (l : list A) (f : A → M unit) : M unit :=
  match l with
  | [] => ret tt
  | x :: l' => f x;;; forEach l' f
  end.

(** The state, the events and the absence of an exception of a run. *)
Definition refsOf {A : Type} (r : option A * Refs * list Event) : Refs := r.1.2.
Definition traceOf {A : Type} (r : option A * Refs * list Event)
    : list Event := r.2.
Definition returns {A : Type} (r : option A * Refs * list Event) : bool :=
  bool_decide (is_Some r.1.1).

(** ** The current snapshot *)

Module VideoCanvas.

(** [const duration = scene.durationEstimate] *)
Definition sceneDuration (sc : ScriptScene) : Q := durationEstimate sc.

Definition getTimeline (p : Props) : list TimelineEntry :=
  timelineFrom sceneDuration 0 (scenes p).

Definition totalDuration (p : Props) : Q := lastEndOr0 (getTimeline p).

(** The test of [validateAssets] on one asset, negated:
    [asset && asset.imageElement && asset.imageElement.complete &&
     asset.imageElement.naturalWidth !== 0]. *)
Definition imageLoaded (a : option GeneratedAsset) : bool :=
  match a ≫= imageElement with
  | Some img => complete img && negb (naturalWidth img =? 0)%Z
  | None => false
  end.

Definition validateAssets (p : Props) : bool :=
  forallb (λ sc, imageLoaded (assets p !! id (scene sc))) (getTimeline p).

Definition mimeTypes : list string :=
  ["video/webm;codecs=vp9"; "video/webm;codecs=vp8"; "video/webm";
   "video/mp4"]%string.

Definition getSupportedMimeType (env : Env) : option string :=
  List.find (isTypeSupported env) mimeTypes.

Definition stopAudio : M unit :=
  do s <- get;
  emitAll (flat_map (λ n, [NodeStop n; NodeDisconnect n])
             (activeSourcesRef s));;;
  modify (set_activeSources []).

(** [activeSourcesRef.current.push(node)] *)
Definition pushSource (n : SourceNode) : M unit :=
  modify (λ s, set_activeSources (activeSourcesRef s ++ [n]) s).

(** The looping music node: gain 0.15, started at once from
    [startOffset % bgMusicBuffer.duration], never stopped. *)
Definition bgSource (startOffset : Q) (bg : AudioBuffer) : SourceNode :=
  {| node_buffer := bg; node_loop := true; node_gain := 0.15;
     node_when := 0; node_offset := jsRem startOffset (buf_duration bg);
     node_stop := None |}.

(** The body of [timeline.forEach] in [scheduleAudio]: the node created for
    [item], if any. *)
Definition narrationSource (p : Props) (now startOffset : Q)
    (item : TimelineEntry) : option SourceNode :=
  match assets p !! id (scene item) ≫= audioBuffer with
  | Some buf =>
      let delay := start item - startOffset in
      if Qle_bool 0 delay then
        Some {| node_buffer := buf; node_loop := false; node_gain := 1;
                node_when := now + delay; node_offset := 0;
                node_stop := Some (now + end_ item - startOffset) |}
      else if Qltb startOffset (end_ item) then
        let offset := startOffset - start item in
        Some {| node_buffer := buf; node_loop := false; node_gain := 1;
                node_when := 0; node_offset := offset;
                node_stop := Some (now + (end_ item - startOffset)) |}
      else None
  | None => None
  end.

Definition scheduleAudio (p : Props) (startOffset : Q) : M unit :=
  do s <- get;
  do env <- ask;
  if negb (audioContextRef s) || negb (destinationRef s) then ret tt
  else
    let timeline := getTimeline p in
    match bgMusicBuffer p with
    | Some bg => pushSource (bgSource startOffset bg)
    | None => ret tt
    end;;;
    forEach timeline (λ item,
      match narrationSource p (currentTime env) startOffset item with
      | Some n => pushSource n
      | None => ret tt
      end).

(** The nodes a pass of [scheduleAudio] pushes, in the order of the pushes. *)
Definition scheduled (p : Props) (now startOffset : Q) : list SourceNode :=
  match bgMusicBuffer p with
  | Some bg => [bgSource startOffset bg]
  | None => []
  end ++ omap (narrationSource p now startOffset) (getTimeline p).

(** *** The frame renderer *)

(** Assigning [globalAlpha] a value outside [0, 1] is ignored by a canvas. *)
Definition setAlpha (a : Q) (c : Ctx2D) : Ctx2D :=
  if Qle_bool 0 a && Qle_bool a 1 then
    {| fillStyle := fillStyle c; globalAlpha := a; filter := filter c;
       saved := saved c |}
  else c.

Definition setFillStyle (f : FillStyle) (c : Ctx2D) : Ctx2D :=
  {| fillStyle := f; globalAlpha := globalAlpha c; filter := filter c;
     saved := saved c |}.

Definition setFilter (f : option Q) (c : Ctx2D) : Ctx2D :=
  {| fillStyle := fillStyle c; globalAlpha := globalAlpha c; filter := f;
     saved := saved c |}.

Definition save (c : Ctx2D) : Ctx2D :=
  {| fillStyle := fillStyle c; globalAlpha := globalAlpha c;
     filter := filter c;
     saved := (fillStyle c, globalAlpha c, filter c) :: saved c |}.

Definition restore (c : Ctx2D) : Ctx2D :=
  match saved c with
  | (f, a, fl) :: st =>
      {| fillStyle := f; globalAlpha := a; filter := fl; saved := st |}
  | [] => c
  end.

Definition fillRect (c : Ctx2D) (x y w h : Q) : Event :=
  FillRect (fillStyle c) (globalAlpha c) (filter c) x y w h.

Definition drawScene (p : Props) (c : Ctx2D) (img : HTMLImageElement)
    (scale xOff yOff alpha : Q) : Ctx2D * list Event :=
  let c := setAlpha alpha c in
  let w := width p * scale in
  let h := height p * scale in
  let x := (width p - w) / 2 + xOff in
  let y := (height p - h) / 2 + yOff in
  (c, [DrawImage img (globalAlpha c) (filter c) x y w h]).

(** [asset?.imageElement && asset.imageElement.complete] *)
Definition readyImage (p : Props) (e : TimelineEntry)
    : option HTMLImageElement :=
  match assets p !! id (scene e) ≫= imageElement with
  | Some img => if complete img then Some img else None
  | None => None
  end.

Definition clamp (p : Props) (time : Q) : Q :=
  Qmin time (totalDuration p - 0.001).

(** [t => clampedTime >= t.start && clampedTime < t.end] *)
Definition covers (clampedTime : Q) (t : TimelineEntry) : bool :=
  Qle_bool (start t) clampedTime && Qltb clampedTime (end_ t).

(** The index [renderCanvas] settles on for a non-empty timeline. *)
Definition currentIndex (p : Props) (clampedTime : Q) : Z :=
  let timeline := getTimeline p in
  let currentIdx := findIndex (covers clampedTime) timeline in
  if (currentIdx =? -1)%Z then (Z.of_nat (length timeline) - 1)%Z
  else currentIdx.

Definition transDur : Q := 0.8.

(** The [switch] on the transition type, between [save] and [restore]. *)
Definition drawTransition (p : Props) (c : Ctx2D) (type : TransitionType)
    (img : HTMLImageElement) (tProgress : Q) : Ctx2D * list Event :=
  let c := save c in
  let '(c, evs) :=
    match type with
    | slide =>
        let offsetX := width p * (1 - tProgress) in
        drawScene p c img 1.0 offsetX 0 1
    | zoom =>
        let zoomScale := 0.8 + tProgress * 0.2 in
        drawScene p c img zoomScale 0 0 tProgress
    | blur =>
        let c := setFilter (Some ((1 - tProgress) * 20)) c in
        drawScene p c img 1.0 0 0 tProgress
    | dissolve => drawScene p c img 1.0 0 0 tProgress
    | fade => drawScene p c img 1.0 0 0 tProgress
    end in
  (restore c, evs).

(** The body of [renderCanvas] once it holds a 2D context; [None] is the
    TypeError of reading a field of an entry that [timeline[...]] does not
    have. *)
Definition paint (p : Props) (time : Q) (c : Ctx2D)
    : option (Ctx2D * list Event) :=
  let c := setFillStyle Black c in
  let ev0 := [fillRect c 0 0 (width p) (height p)] in
  let timeline := getTimeline p in
  if (length timeline =? 0)%nat then Some (c, ev0)
  else
    let clampedTime := clamp p time in
    let currentIdx := currentIndex p clampedTime in
    match timeline !! Z.to_nat currentIdx with
    | None => None
    | Some currentScene =>
        let progress :=
          (clampedTime - start currentScene) / duration currentScene in
        let '(c, ev1) :=
          match readyImage p currentScene with
          | Some img =>
              let baseScale := 1.0 + progress * 0.15 in
              drawScene p c img baseScale 0 0 1
          | None => (c, [])
          end in
        let trans :=
          if Qltb (end_ currentScene - clampedTime) transDur
             && (currentIdx <? Z.of_nat (length timeline) - 1)%Z
          then
            match timeline !! Z.to_nat (currentIdx + 1) with
            | None => None
            | Some nextScene =>
                match readyImage p nextScene with
                | Some nimg =>
                    let tProgress :=
                      1 - (end_ currentScene - clampedTime) / transDur in
                    let type :=
                      default fade (transitionType (scene currentScene)) in
                    Some (drawTransition p c type nimg tProgress)
                | None => Some (c, [])
                end
            end
          else Some (c, []) in
        match trans with
        | None => None
        | Some (c, ev2) =>
            let c := setFillStyle Vignette c in
            let ev3 := [fillRect c 0 0 (width p) (height p)] in
            let '(c, ev4) :=
              if default false (isHook (scene currentScene)) && Qltb time 5
              then
                let c := setFillStyle HookBar c in
                (c, [fillRect c 0 (height p - 10)
                       (width p * (1 - time / 5)) 10])
              else (c, []) in
            Some (c, ev0 ++ ev1 ++ ev2 ++ ev3 ++ ev4)
        end
    end.

Definition renderCanvas (p : Props) (time : Q) : M unit :=
  do s <- get;
  match canvasRef s with
  | None => ret tt
  | Some None => ret tt
  | Some (Some c) =>
      match paint p time c with
      | Some (c', evs) => emitAll evs;;; modify (set_canvas c')
      | None => throw
      end
  end.

(** *** The playback controller *)

Definition alert (msg : string) : M unit := emit (Alert msg).
Definition onPlaybackEnd : M unit := emit OnPlaybackEnd.

(** [if (requestRef.current) cancelAnimationFrame(requestRef.current)] *)
Definition cancelFrame : M unit :=
  do s <- get;
  when (negb (requestRef s =? 0)%Z)
    (emit (CancelAnimationFrame (requestRef s))).

(** [requestRef.current = requestAnimationFrame(drawFrame)] *)
Definition requestFrame : M unit :=
  do env <- ask;
  emit RequestAnimationFrame;;;
  modify (set_request (frameHandle env)).

(** [mediaRecorderRef.current?.state !== 'inactive'] *)
Definition recorderNotInactive (s : Refs) : bool :=
  match mediaRecorderRef s with
  | Some r => match rec_state r with inactive => false | _ => true end
  | None => true
  end.

Definition handleStop : M unit :=
  modify (set_isPlaying false);;;
  stopAudio;;;
  cancelFrame;;;
  do s <- get;
  if isRecordingRef s && recorderNotInactive s then
    match mediaRecorderRef s with
    | Some r =>
        emit RecorderStop;;;
        modify
          (set_mediaRecorder
             {| rec_state := inactive; rec_mimeType := rec_mimeType r |});;;
        modify (set_isRecording false)
    | None => throw
    end
  else ret tt.

(** [audioContextRef.current?.state === 'suspended'], then [resume()]. *)
Definition resumeIfSuspended : M unit :=
  do s <- get;
  do env <- ask;
  when (audioContextRef s && audioSuspended env) (emit AudioResume).

(** The callback of [setTimeout(..., 1000)] in [drawFrame]. *)
Definition postRoll : M unit := handleStop;;; onPlaybackEnd.

Definition drawFrame (p : Props) : M unit :=
  do s <- get;
  do env <- ask;
  if negb (isPlayingRef s) then ret tt
  else
    let elapsed := (dateNow env - startTimeRef s) / 1000 in
    let timeline := getTimeline p in
    let clampedTime := Qmin elapsed (totalDuration p - 0.001) in
    if Qle_bool (totalDuration p) elapsed then
      renderCanvas p (totalDuration p - 0.001);;;
      do s <- get;
      if isRecordingRef s then emit (SetTimeout PostRoll 1000)
      else handleStop;;; onPlaybackEnd
    else
      let currentIdx := findIndex (covers clampedTime) timeline in
      let currentIdx :=
        if (currentIdx =? -1)%Z && (0 <? length timeline)%nat
        then (Z.of_nat (length timeline) - 1)%Z else currentIdx in
      emit (OnProgress elapsed (totalDuration p) currentIdx);;;
      renderCanvas p elapsed;;;
      requestFrame.

Definition play (p : Props) : M unit :=
  do s <- get;
  do env <- ask;
  if isPlayingRef s then ret tt
  else
    resumeIfSuspended;;;
    modify (set_isPlaying true);;;
    modify (set_startTime (dateNow env - pauseTimeRef s * 1000));;;
    scheduleAudio p (pauseTimeRef s);;;
    requestFrame.

Definition pause : M unit :=
  modify (set_isPlaying false);;;
  stopAudio;;;
  cancelFrame;;;
  do s <- get;
  do env <- ask;
  modify (set_pauseTime ((dateNow env - startTimeRef s) / 1000)).

(** The callback of [setTimeout(..., 800)] in [record]. *)
Definition preRoll (p : Props) : M unit :=
  modify (set_isPlaying true);;;
  do env <- ask;
  modify (set_startTime (dateNow env));;;
  modify (set_pauseTime 0);;;
  scheduleAudio p 0;;;
  requestFrame.

(** [recorder.ondataavailable] *)
Definition ondataavailable (data : Blob) : M unit :=
  when (0 <? blob_size data)%Z
    (modify (λ s, set_chunks (chunksRef s ++ [data]) s)).

(** [new Blob(chunks, { type })] *)
Definition newBlob (chunks : list Blob) (type : option string) : Blob :=
  {| blob_size := foldr Z.add 0%Z (blob_size <$> chunks); blob_type := type |}.

(** [mimeType.includes(sub)] *)
Definition includes (sub s : string) : bool :=
  bool_decide (is_Some (String.index 0 sub s)).

(** [recorder.onstop], for the recorder made with [mimeType]. *)
Definition onstop (mimeType : option string) : M unit :=
  do s <- get;
  do env <- ask;
  let blob := newBlob (chunksRef s) mimeType in
  match mimeType with
  | Some mt =>
      emit (DownloadClick (dateNow env)
              (if includes "mp4" mt then "mp4" else "webm")%string blob)
  | None => throw
  end.

(** [record]; its [await] of [resume()] is taken to complete at once.
    Inside the [try], the constructor of the recorder can throw, before
    anything is stored, and so can [recorder.start()], after the recorder is
    stored and the recording flag raised; the [catch] calls [onPlaybackEnd]
    and leaves the refs as the [try] left them. *)
Definition record (p : Props) : M unit :=
  handleStop;;;
  if Qeq_bool (totalDuration p) 0 then
    alert "Timeline empty.";;; onPlaybackEnd
  else if negb (validateAssets p) then
    alert "Wait for all assets.";;; onPlaybackEnd
  else
    resumeIfSuspended;;;
    modify (set_chunks []);;;
    do s <- get;
    do env <- ask;
    (* canvas.captureStream(30), dest.stream.getAudioTracks() *)
    if negb (bool_decide (is_Some (canvasRef s))) || negb (destinationRef s)
    then throw
    else
      let mimeType := getSupportedMimeType env in
      tryCatch
        ((if recorderFails env then throw else ret tt);;;
         let recorder :=
           {| rec_state := inactive; rec_mimeType := mimeType |} in
         modify (set_mediaRecorder recorder);;;
         modify (set_isRecording true);;;
         (if startFails env then throw else ret tt);;;
         emit (RecorderStart mimeType);;;
         modify (set_mediaRecorder
                   {| rec_state := recording; rec_mimeType := mimeType |});;;
         renderCanvas p 0;;;
         emit (SetTimeout PreRoll 800))
        onPlaybackEnd.

End VideoCanvas.

(** ** The preceding snapshot *)

Module VideoCanvasPrev.

(** [asset?.audioBuffer?.duration || scene.durationEstimate] *)
Definition sceneDuration (p : Props) (sc : ScriptScene) : Q :=
  match assets p !! id sc ≫= audioBuffer with
  | Some b => jsOr (buf_duration b) (durationEstimate sc)
  | None => durationEstimate sc
  end.

Definition getTimeline (p : Props) : list TimelineEntry :=
  timelineFrom (sceneDuration p) 0 (scenes p).

Definition totalDuration (p : Props) : Q := lastEndOr0 (getTimeline p).

(** The body of [timeline.forEach] in [scheduleAudio]: no [stop] is
    scheduled in this snapshot. *)
Definition narrationSource (p : Props) (now startOffset : Q)
    (item : TimelineEntry) : option SourceNode :=
  match assets p !! id (scene item) ≫= audioBuffer with
  | Some buf =>
      let delay := start item - startOffset in
      if Qle_bool 0 delay then
        Some {| node_buffer := buf; node_loop := false; node_gain := 1;
                node_when := now + delay; node_offset := 0;
                node_stop := None |}
      else if Qltb startOffset (end_ item) then
        let offset := startOffset - start item in
        Some {| node_buffer := buf; node_loop := false; node_gain := 1;
                node_when := 0; node_offset := offset; node_stop := None |}
      else None
  | None => None
  end.

Definition scheduleAudio (p : Props) (startOffset : Q) : M unit :=
  do s <- get;
  do env <- ask;
  if negb (audioContextRef s) || negb (destinationRef s) then ret tt
  else
    let timeline := getTimeline p in
    match bgMusicBuffer p with
    | Some bg =>
        VideoCanvas.pushSource (VideoCanvas.bgSource startOffset bg)
    | None => ret tt
    end;;;
    forEach timeline (λ item,
      match narrationSource p (currentTime env) startOffset item with
      | Some n => VideoCanvas.pushSource n
      | None => ret tt
      end).

(** [recorder.onstop], for the recorder made with [mimeType], which
    [record] has checked to be defined. *)
Definition onstop (mimeType : string) : M unit :=
  do s <- get;
  do env <- ask;
  let blob := VideoCanvas.newBlob (chunksRef s) (Some mimeType) in
  if (blob_size blob =? 0)%Z then emit (ConsoleError "Empty recording")
  else
    let ext :=
      (if VideoCanvas.includes "mp4" mimeType then "mp4" else "webm")%string in
    emit (DownloadClick (dateNow env) ext blob);;;
    emit (SetTimeout RevokeUrl 100).

End VideoCanvasPrev.

(** ** The application (App.tsx) *)

Module App.

(** [const narrationDuration = audioBuffer.duration + 0.2] *)
Definition narrationDuration (audioBuffer : AudioBuffer) : Q :=
  buf_duration audioBuffer + 0.2.

(** The update of the scenes by [processScene] and [handleRegenerateAudio]
    once the narration of [sceneId] is decoded:
    [prev.scenes.map(s => s.id === sceneId
       ? { ...s, durationEstimate:
                   Math.max(s.durationEstimate, narrationDuration) }
       : s)]. *)
Definition widen (sceneId : Z) (audioBuffer : AudioBuffer)
    (ss : list ScriptScene) : list ScriptScene :=
  (λ s, if (id s =? sceneId)%Z
        then {| id := id s; visualDescription := visualDescription s;
                narration := narration s;
                durationEstimate :=
                  Qmax (durationEstimate s) (narrationDuration audioBuffer);
                transitionType := transitionType s; isHook := isHook s |}
        else s) <$> ss.

(** The props of [<VideoCanvas scenes={state.scenes} ... />] once the state
    holds the scenes [ss]. *)
Definition withScenes (ss : list ScriptScene) (p : Props) : Props :=
  {| scenes := ss; assets := assets p; bgMusicBuffer := bgMusicBuffer p;
     width := width p; height := height p |}.

End App.

(** ** The service (geminiService.ts) *)

Module GeminiService.

(** What a rejected call throws, as far as [withRetry] reads it: the
    message, the text [JSON.stringify] gives and the numeric status, if any.
    The thrown value is taken to be an object. *)
Record ApiError := {
  err_message : string;
  err_json : string;
  err_status : option Z
}.

Inductive Outcome (T : Type) :=
  | Resolved (v : T)
  | Rejected (e : ApiError).
Arguments Resolved {T} v.
Arguments Rejected {T} e.

Definition isTransientError (e : ApiError) : bool :=
  let errorStr := (err_message e ++ err_json e)%string in
  VideoCanvas.includes "429" errorStr
  || VideoCanvas.includes "quota" errorStr
  || VideoCanvas.includes "RESOURCE_EXHAUSTED" errorStr
  || VideoCanvas.includes "500" errorStr
  || VideoCanvas.includes "502" errorStr
  || VideoCanvas.includes "503" errorStr
  || VideoCanvas.includes "504" errorStr
  || VideoCanvas.includes "INTERNAL" errorStr
  || match err_status e with
     | Some st => (500 <=? st)%Z && (st <=? 504)%Z
     | None => false
     end
  || match err_status e with
     | Some st => (st =? 429)%Z
     | None => false
     end.

(** [withRetry(operation, retries, delayMs)].  The operation is given by
    the outcome of each of its calls, numbered from [attempt]; every call
    site passes a natural number of retries.  The result is the outcome and
    the delays waited for, in order. *)
Fixpoint withRetry {T : Type} (operation : nat → Outcome T) (attempt : nat)
    (retries : nat) (delayMs : Q) : Outcome T * list Q :=
  match operation attempt with
  | Resolved v => (Resolved v, [])
  | Rejected e =>
      match retries with
      | S retries' =>
          if isTransientError e then
            let r := withRetry operation (S attempt) retries'
                       (delayMs * 1.5) in
            (r.1, delayMs :: r.2)
          else (Rejected e, [])
      | O => (Rejected e, [])
      end
  end.

(** A decoded buffer: one channel of samples at [sampleRate] Hz. *)
Record PcmBuffer := { channelData : list Q; sampleRate : Z }.

(** [AudioBuffer.duration] *)
Definition duration (b : PcmBuffer) : Q :=
  inject_Z (Z.of_nat (length (channelData b))) / inject_Z (sampleRate b).

(** An element of an [Int16Array] over the bytes [lo], [hi], low byte
    first. *)
Definition int16 (lo hi : Byte.byte) : Z :=
  let u := (Z.of_N (Byte.to_N lo) + 256 * Z.of_N (Byte.to_N hi))%Z in
  if (u <? 32768)%Z then u else (u - 65536)%Z.

(** [decodeAudioData], from the bytes [atob] gives.  [createBuffer] throws
    on a length of zero. *)
Definition decodeAudioData (bytes : list Byte.byte) : option PcmBuffer :=
  let len := length bytes in
  let sampleRate := 24000%Z in
  let dataLen := if (len mod 2 =? 0)%nat then len else (len - 1)%nat in
  let dataInt16 :=
    (λ i, int16 (nth (2 * i) bytes Byte.x00)
                (nth (2 * i + 1) bytes Byte.x00))
      <$> seq 0 (dataLen / 2) in
  if (length dataInt16 =? 0)%nat then None
  else
    Some {| channelData := (λ x, inject_Z x / 32768.0) <$> dataInt16;
            sampleRate := sampleRate |}.

End GeminiService.

(** ** Notions of the statements *)

(** Two nodes that sound alike, each seen from its own reading of the audio
    clock: same buffer, loop flag, gain and sample offset, and the same
    distances from the clock to the beginning and to the stop. *)
Definition sameRelative (now1 now2 : Q) (n m : SourceNode) : Prop :=
  node_buffer n = node_buffer m ∧ node_loop n = node_loop m ∧
  node_gain n = node_gain m ∧ node_offset n = node_offset m ∧
  beginsAt now1 n - now1 == beginsAt now2 m - now2 ∧
  match node_stop n, node_stop m with
  | Some a, Some b => a - now1 == b - now2
  | None, None => True
  | _, _ => False
  end.

Definition isOnPlaybackEnd (e : Event) : bool :=
  match e with OnPlaybackEnd => true | _ => false end.


(** The events that put pixels on the canvas. *)
Definition isPaint (e : Event) : bool :=
  match e with
  | FillRect _ _ _ _ _ _ _ | DrawImage _ _ _ _ _ _ _ => true
  | _ => false
  end.

Definition isDrawImage (e : Event) : bool :=
  match e with DrawImage _ _ _ _ _ _ _ => true | _ => false end.

(** The events that keep the frame loop or a timer going. *)
Definition isReschedule (e : Event) : bool :=
  match e with RequestAnimationFrame | SetTimeout _ _ => true | _ => false end.

Definition isRecorderStart (e : Event) : bool :=
  match e with RecorderStart _ => true | _ => false end.

Definition isAlert (e : Event) : bool :=
  match e with Alert _ => true | _ => false end.

Definition isDownloadClick (e : Event) : bool :=
  match e with DownloadClick _ _ _ => true | _ => false end.

(** The nodes a pass of [scheduleAudio] pushes from the refs [s]: none
    without an audio context or without its stream destination. *)
Definition pushedBy (p : Props) (env : Env) (s : Refs) (t0 : Q)
    : list SourceNode :=
  if audioContextRef s && destinationRef s
  then VideoCanvas.scheduled p (currentTime env) t0 else [].

(** The events of [stopAudio] and of [cancelFrame] from the refs [s]. *)
Definition stopEvents (s : Refs) : list Event :=
  flat_map (λ n, [NodeStop n; NodeDisconnect n]) (activeSourcesRef s)
  ++ (if (requestRef s =? 0)%Z then []
      else [CancelAnimationFrame (requestRef s)]).


(** The image draws of the current scene in a frame painted on the context
    [c] at clamped time [t]. *)
Definition baseLayer (p : Props) (c : Ctx2D) (t : Q) (cur : TimelineEntry)
    : list Event :=
  match VideoCanvas.readyImage p cur with
  | Some img =>
      (VideoCanvas.drawScene p (VideoCanvas.setFillStyle Black c) img
         (1.0 + (t - start cur) / duration cur * 0.15) 0 0 1).2
  | None => []
  end.

(** How the spec describes the look of each transition style at progress
    [q]: fade and dissolve draw the next image at opacity [q]; slide draws
    it at full opacity, offset horizontally by [width * (1 - q)]; zoom draws
    it at opacity [q], centred and scaled by [0.8 + 0.2 * q]; blur draws it
    at opacity [q] with a blur radius that shrinks linearly to zero, from
    20 pixels in the source. *)
Definition transitionLooks (p : Props) (c : Ctx2D) (style : TransitionType)
    (q alpha : Q) (flt : option Q) (x y w h : Q) : Prop :=
  match style with
  | fade | dissolve =>
      alpha = q ∧ flt = filter c ∧
      x == 0 ∧ y == 0 ∧ w == width p ∧ h == height p
  | slide =>
      alpha = 1 ∧ flt = filter c ∧
      x == width p * (1 - q) ∧ y == 0 ∧ w == width p ∧ h == height p
  | zoom =>
      alpha = q ∧ flt = filter c ∧
      w == width p * (0.8 + 0.2 * q) ∧ h == height p * (0.8 + 0.2 * q) ∧
      x == (width p - w) / 2 ∧ y == (height p - h) / 2
  | blur =>
      alpha = q ∧ flt = Some ((1 - q) * 20) ∧
      x == 0 ∧ y == 0 ∧ w == width p ∧ h == height p
  end.

(** The recording flag is up only over a stored recorder, active or not:
    a [recorder.start()] that throws leaves the flag up over an inactive
    one. *)
Definition recorderStored (s : Refs) : Prop :=
  isRecordingRef s = true → is_Some (mediaRecorderRef s).

(** The recording flag as [handleStop] leaves it: up only when it was up
    over an inactive recorder, which [handleStop] does not touch. *)
Definition flagAfterStop (s : Refs) : bool :=
  isRecordingRef s && negb (VideoCanvas.recorderNotInactive s).

(** A handler that leaves the recording flag and the recorder alone. *)
Definition keepsRecorder {A : Type} (m : M A) : Prop :=
  ∀ env s,
    isRecordingRef (refsOf (m env s)) = isRecordingRef s ∧
    mediaRecorderRef (refsOf (m env s)) = mediaRecorderRef s.

(** A handler that preserves an invariant of the refs, throwing or not. *)
Definition preserving {A : Type} (I : Refs → Prop) (m : M A) : Prop :=
  ∀ env s, I s → I (refsOf (m env s)).

(** The entry points of a mounted component: the four methods of its
    handle, the frame callback, the two timers it sets and the two events of
    a recorder, the latter for the MIME type the recorder was made with. *)
Inductive Call :=
  | CallPlay
  | CallPause
  | CallRecord
  | CallStopRecording
  | FrameCallback
  | TimerFired (cb : Callback)
  | DataAvailable (data : Blob)
  | RecorderStopped (mimeType : option string).

Definition handler (p : Props) (c : Call) : M unit :=
  match c with
  | CallPlay => VideoCanvas.play p
  | CallPause => VideoCanvas.pause
  | CallRecord => VideoCanvas.record p
  | CallStopRecording => VideoCanvas.handleStop
  | FrameCallback => VideoCanvas.drawFrame p
  | TimerFired PreRoll => VideoCanvas.preRoll p
  | TimerFired PostRoll => VideoCanvas.postRoll
  | TimerFired RevokeUrl => ret tt
  | DataAvailable data => VideoCanvas.ondataavailable data
  | RecorderStopped mimeType => VideoCanvas.onstop mimeType
  end.

(** The refs a mounted component can be in: any sequence of entries, each
    with the props and the answers of the host of its moment. *)
Inductive reachable : Refs → Prop :=
  | reachable_mounted : reachable mounted
  | reachable_call (p : Props) (c : Call) (env : Env) (s : Refs) :
      reachable s → reachable (refsOf (handler p c env s)).

(** A call on the component, with the props and the answers of the host
    of its moment. *)
Record Moment := { at_props : Props; at_call : Call; at_env : Env }.

(** The refs after the calls [ms], in order, from [s]. *)
Definition runCalls (ms : list Moment) (s : Refs) : Refs :=
  foldl (λ s m, refsOf (handler (at_props m) (at_call m) (at_env m) s)) s ms.

Definition isRecordCall (c : Call) : bool :=
  match c with CallRecord => true | _ => false end.

(** The blob of a call, when the call is a data event whose blob holds
    data. *)
Definition dataOf (c : Call) : option Blob :=
  match c with
  | DataAvailable d => if (0 <? blob_size d)%Z then Some d else None
  | _ => None
  end.

Definition isFillRect (e : Event) : bool :=
  match e with FillRect _ _ _ _ _ _ _ => true | _ => false end.

(** The opacity left in the context once the image of [cur] is drawn, or
    not: [drawScene] sets it to 1. *)
Definition frameAlpha (p : Props) (c : Ctx2D) (cur : TimelineEntry) : Q :=
  match VideoCanvas.readyImage p cur with
  | Some _ => 1
  | None => globalAlpha c
  end.

(** The rectangles that close a frame: the vignette over the whole canvas
    and, for a hook scene in its first five seconds, the bar along the
    bottom edge. *)
Definition overlay (p : Props) (time : Q) (c : Ctx2D) (cur : TimelineEntry)
    : list Event :=
  FillRect Vignette (frameAlpha p c cur) (filter c) 0 0 (width p) (height p)
  :: (if default false (isHook (scene cur)) && Qltb time 5
      then [FillRect HookBar (frameAlpha p c cur) (filter c)
              0 (height p - 10) (width p * (1 - time / 5)) 10]
      else []).

(** A 2D context in the drawing state the component relies on: opaque,
    unfiltered, nothing saved. *)
Definition cleanContext (c : Ctx2D) : Prop :=
  globalAlpha c = 1 ∧ filter c = None ∧ saved c = [].

(** The canvas is mounted, has a 2D context, and that context is clean. *)
Definition canvasReady (s : Refs) : Prop :=
  ∃ c, canvasRef s = Some (Some c) ∧ cleanContext c.

(** A rectangle, if it is one, is filled opaque and unfiltered. *)
Definition opaqueFill (e : Event) : Prop :=
  match e with
  | FillRect _ a f _ _ _ _ => a = 1 ∧ f = None
  | _ => True
  end.

Definition isNodeStop (e : Event) : bool :=
  match e with NodeStop _ => true | _ => false end.

Definition isRecorderStop (e : Event) : bool :=
  match e with RecorderStop => true | _ => false end.

(** The events of the stop routine. *)
Definition isStopping (e : Event) : bool :=
  match e with
  | NodeStop _ | NodeDisconnect _ | CancelAnimationFrame _ | RecorderStop =>
      true
  | _ => false
  end.

(** The audio context and its stream destination exist. *)
Definition audioReady (s : Refs) : Prop :=
  audioContextRef s = true ∧ destinationRef s = true.

(** The sum of the durations a snapshot gives to the scenes [ss]. *)
Definition sumDurations (dur : ScriptScene → Q) (ss : list ScriptScene) : Q :=
  foldr (λ sc acc, dur sc + acc) 0 ss.

(** A controller that is not playing holds no active node. *)
Definition idleSilent (s : Refs) : Prop :=
  isPlayingRef s = false → activeSourcesRef s = [].

(** The events [stopAudio] emits for the nodes [ns]. *)
Definition stopsOf (ns : list SourceNode) : list Event :=
  flat_map (λ n, [NodeStop n; NodeDisconnect n]) ns.

(** ** Sample inputs *)

Definition sampleScene (i : Z) (d : Q) (t : option TransitionType)
    : ScriptScene :=
  {| id := i; visualDescription := ""; narration := "";
     durationEstimate := d; transitionType := t; isHook := None |}.

Definition sampleImage (src : string) : HTMLImageElement :=
  {| img_src := src; complete := true; naturalWidth := 720 |}.

Definition sampleAsset (i : Z) (img : option HTMLImageElement)
    (buf : option AudioBuffer) (st : AssetStatus) : GeneratedAsset :=
  {| sceneId := i; imageUrl := None; audioUrl := None; audioBuffer := buf;
     imageElement := img; status := st |}.

(** Three scenes of 4, 3 and 5 seconds.  The first asset has a narration
    shorter than its scene, the second has none, the third has a decoded
    image but the status [error] that a failed narration request leaves. *)
Definition storyboard : Props :=
  {| scenes := [sampleScene 1 4 None; sampleScene 2 3 (Some slide);
                sampleScene 3 5 (Some zoom)];
     assets :=
       <[1%Z := sampleAsset 1 (Some (sampleImage "a"))
                  (Some {| buf_label := "n1"; buf_duration := 3.5 |})
                  completed]>
       (<[2%Z := sampleAsset 2 (Some (sampleImage "b")) None completed]>
       (<[3%Z := sampleAsset 3 (Some (sampleImage "c"))
                   (Some {| buf_label := "n3"; buf_duration := 9 |})
                   error]> ∅));
     bgMusicBuffer := Some {| buf_label := "bg"; buf_duration := 60 |};
     width := 720; height := 1280 |}.

(** The same scenes while the second image is still loading and the third
    asset has not been requested. *)
Definition unfinished : Props :=
  {| scenes := scenes storyboard;
     assets :=
       <[1%Z := sampleAsset 1 (Some (sampleImage "a")) None completed]>
       (<[2%Z := sampleAsset 2 None None loading]> ∅);
     bgMusicBuffer := None; width := 720; height := 1280 |}.

Definition secondEntry : TimelineEntry :=
  {| scene := sampleScene 2 3 (Some slide); start := 0 + 4; duration := 3;
     end_ := 0 + 4 + 3 |}.

Definition thirdEntry : TimelineEntry :=
  {| scene := sampleScene 3 5 (Some zoom); start := 0 + 4 + 3; duration := 5;
     end_ := 0 + 4 + 3 + 5 |}.

Definition sampleEnv (ms : Q) (audioClock : Q) : Env :=
  {| dateNow := ms; currentTime := audioClock; audioSuspended := false;
     frameHandle := 7; isTypeSupported := λ _, true;
     recorderFails := false; startFails := false |}.

(** A host whose [recorder.start()] throws. *)
Definition startFailing (ms : Q) (audioClock : Q) : Env :=
  {| dateNow := ms; currentTime := audioClock; audioSuspended := false;
     frameHandle := 7; isTypeSupported := λ _, true;
     recorderFails := false; startFails := true |}.


(** The refs right after an accepted [record] of [storyboard]: the
    recorder runs, the pre-roll timer is pending. *)
Definition armed : Refs :=
  refsOf (VideoCanvas.record storyboard (sampleEnv 0 0) mounted).

(** The refs that a [record] of [storyboard] leaves when
    [recorder.start()] throws. *)
Definition startFailed : Refs :=
  refsOf (VideoCanvas.record storyboard (startFailing 0 0) mounted).

(** The refs of an export of [storyboard] under way: [record] at 0 ms, the
    pre-roll timer at 800 ms. *)
Definition exporting : Refs :=
  refsOf (VideoCanvas.preRoll storyboard (sampleEnv 800 0.8)
            (refsOf (VideoCanvas.record storyboard (sampleEnv 0 0) mounted))).

(** The third scene of [storyboard], widened to its narration of 9 s. *)
Definition widenedStoryboard : Props :=
  App.withScenes
    (App.widen 3 {| buf_label := "n3"; buf_duration := 9 |}
       (scenes storyboard)) storyboard.

Definition widenedEntry : TimelineEntry :=
  {| scene :=
       {| id := 3; visualDescription := ""; narration := "";
          durationEstimate := Qmax 5 (9 + 0.2);
          transitionType := Some zoom; isHook := None |};
     start := 0 + 4 + 3; duration := Qmax 5 (9 + 0.2);
     end_ := 0 + 4 + 3 + Qmax 5 (9 + 0.2) |}.

(** ** Facts on the helpers *)

Lemma Qltb_lt (x y : Q) : Qltb x y = true ↔ x < y.
Proof.
  unfold Qltb. rewrite negb_true_iff.
  split.
  - intros H. apply Qnot_le_lt. intros Hle.
    apply Qle_bool_iff in Hle. congruence.
  - intros H. destruct (Qle_bool y x) eqn:E; [|done].
    apply Qle_bool_iff in E. lra.
Qed.

Lemma Qltb_ge (x y : Q) : Qltb x y = false ↔ y <= x.
Proof.
  unfold Qltb. rewrite negb_false_iff. apply Qle_bool_iff.
Qed.

Lemma Qle_bool_gt (x y : Q) : Qle_bool x y = false ↔ y < x.
Proof.
  rewrite <- (Qltb_lt y x). unfold Qltb.
  destruct (Qle_bool x y); simpl; split; congruence.
Qed.

Lemma jsOr_0_r (x : Q) : jsOr x 0 == x.
Proof.
  unfold jsOr. destruct (Qeq_bool x 0) eqn:E; [|reflexivity].
  apply Qeq_bool_iff in E. symmetry. exact E.
Qed.

(** ** Facts on [timelineFrom], shared by the snapshots *)

Section Timeline.
Variable dur : ScriptScene → Q.

Lemma timelineFrom_length c ss :
  length (timelineFrom dur c ss) = length ss.
Proof.
  revert c. induction ss as [|sc ss IH]; intros c; simpl; [done|].
  by rewrite IH.
Qed.

Lemma timelineFrom_head c ss e :
  head (timelineFrom dur c ss) = Some e → start e = c.
Proof. destruct ss; simpl; [done|]. by intros [= <-]. Qed.

Lemma timelineFrom_end c ss :
  Forall (λ e, end_ e = start e + duration e) (timelineFrom dur c ss).
Proof.
  revert c. induction ss as [|sc ss IH]; intros c; simpl; constructor; auto.
Qed.

Lemma timelineFrom_adjacent c ss (i : nat) a b :
  timelineFrom dur c ss !! i = Some a →
  timelineFrom dur c ss !! S i = Some b →
  end_ a = start b.
Proof.
  revert c i. induction ss as [|sc ss IH]; intros c i; simpl; [done|].
  destruct i as [|i]; simpl.
  - intros [= <-] Hb. simpl.
    symmetry. apply (timelineFrom_head _ ss). by rewrite head_lookup.
  - apply IH.
Qed.

Lemma timelineFrom_scene c ss (i : nat) e :
  timelineFrom dur c ss !! i = Some e →
  ∃ sc, ss !! i = Some sc ∧ scene e = sc ∧ duration e = dur sc.
Proof.
  revert c i. induction ss as [|sc ss IH]; intros c i; simpl; [done|].
  destruct i as [|i]; simpl.
  - intros [= <-]. by exists sc.
  - apply IH.
Qed.

Lemma timelineFrom_lookup c ss (i : nat) sc :
  ss !! i = Some sc →
  ∃ e, timelineFrom dur c ss !! i = Some e ∧ scene e = sc.
Proof.
  revert c i. induction ss as [|sc' ss IH]; intros c i; simpl; [done|].
  destruct i as [|i]; simpl.
  - intros [= <-]. eauto.
  - apply IH.
Qed.
End Timeline.


Lemma timelineFrom_pairs (dur : ScriptScene → Q) c ss :
  let tl := timelineFrom dur c ss in
  Forall (λ ab, end_ ab.1 = start ab.2) (zip tl (tail tl)).
Proof.
  revert c. induction ss as [|sc ss IH]; intros c; simpl; [constructor|].
  specialize (IH (c + dur sc)).
  destruct ss as [|sc' ss]; simpl in *; [constructor|].
  constructor; [reflexivity | exact IH].
Qed.

Lemma timelineFrom_first (dur : ScriptScene → Q) c ss :
  Forall (λ e, start e = c) (take 1 (timelineFrom dur c ss)).
Proof. destruct ss; simpl; repeat constructor. Qed.

Lemma lastEndOr0_spec (tl : list TimelineEntry) :
  lastEndOr0 tl == default 0 (end_ <$> last tl).
Proof.
  unfold lastEndOr0. destruct (last tl); simpl; [apply jsOr_0_r | reflexivity].
Qed.

(** ** The timeline *)

(** C1.  Whatever the scenes and the asset map, the timeline of
    [getTimeline] has one entry per scene, its first entry starts at 0, the
    end of every entry is the start of the next one, every end is start plus
    duration, and [totalDuration] is the end of the last entry, or 0 when
    there is no scene. *)
Theorem timeline_contiguous (p : Props) :
  let tl := VideoCanvas.getTimeline p in
  length tl = length (scenes p) ∧
  Forall (λ e, start e = 0) (take 1 tl) ∧
  Forall (λ ab, end_ ab.1 = start ab.2) (zip tl (tail tl)) ∧
  Forall (λ e, end_ e = start e + duration e) tl ∧
  VideoCanvas.totalDuration p == default 0 (end_ <$> last tl).
Proof.
  unfold VideoCanvas.totalDuration, VideoCanvas.getTimeline. simpl.
  split; [apply timelineFrom_length|].
  split; [apply timelineFrom_first|].
  split; [apply timelineFrom_pairs|].
  split; [apply timelineFrom_end | apply lastEndOr0_spec].
Qed.

(** The same holds of the preceding snapshot, whose durations read the asset
    map. *)
Lemma prev_timeline_contiguous (p : Props) :
  let tl := VideoCanvasPrev.getTimeline p in
  length tl = length (scenes p) ∧
  Forall (λ e, start e = 0) (take 1 tl) ∧
  Forall (λ ab, end_ ab.1 = start ab.2) (zip tl (tail tl)) ∧
  Forall (λ e, end_ e = start e + duration e) tl ∧
  VideoCanvasPrev.totalDuration p == default 0 (end_ <$> last tl).
Proof.
  unfold VideoCanvasPrev.totalDuration, VideoCanvasPrev.getTimeline. simpl.
  split; [apply timelineFrom_length|].
  split; [apply timelineFrom_first|].
  split; [apply timelineFrom_pairs|].
  split; [apply timelineFrom_end | apply lastEndOr0_spec].
Qed.

(** The index form of contiguity. *)
Lemma timeline_adjacent (p : Props) (i : nat) (a b : TimelineEntry) :
  VideoCanvas.getTimeline p !! i = Some a →
  VideoCanvas.getTimeline p !! S i = Some b →
  end_ a = start b.
Proof. apply timelineFrom_adjacent. Qed.

Example storyboard_timeline :
  (λ e, (start e, duration e, end_ e)) <$> VideoCanvas.getTimeline storyboard
  = [(0, 4, 0 + 4); (0 + 4, 3, 0 + 4 + 3); (0 + 4 + 3, 5, 0 + 4 + 3 + 5)].
Proof. reflexivity. Qed.

Example storyboard_total : VideoCanvas.totalDuration storyboard = 0 + 4 + 3 + 5.
Proof. reflexivity. Qed.

(** C5, as stated, fails: the first scene of [storyboard] has a decoded
    narration of 3.5 seconds, and its entry lasts the 4 seconds of the
    estimate. *)
Lemma duration_is_not_buffer_duration :
  ∃ e b,
    VideoCanvas.getTimeline storyboard !! 0%nat = Some e ∧
    assets storyboard !! id (scene e) ≫= audioBuffer = Some b ∧
    ¬ duration e == buf_duration b.
Proof.
  eexists _, _. split; [reflexivity|]. split; [reflexivity|].
  simpl. intros H. discriminate H.
Qed.

(** C5, amended.  The duration of every entry is the [durationEstimate] of
    its scene, whether or not the asset map holds a decoded narration for
    it. *)
Theorem entry_duration_is_estimate (p : Props) (i : nat) (e : TimelineEntry) :
  VideoCanvas.getTimeline p !! i = Some e →
  ∃ sc, scenes p !! i = Some sc ∧ scene e = sc ∧
        duration e = durationEstimate sc.
Proof. apply timelineFrom_scene. Qed.

Lemma entry_duration_is_estimate_witness :
  ∃ sc, scenes storyboard !! 1%nat = Some sc ∧ scene secondEntry = sc ∧
        duration secondEntry = durationEstimate sc.
Proof.
  apply (entry_duration_is_estimate storyboard 1). reflexivity.
Defined.

(** In the preceding snapshot the duration is the length of the decoded
    narration when there is one of non-zero length, and the estimate
    otherwise. *)
Lemma prev_entry_duration (p : Props) (i : nat) (e : TimelineEntry) :
  VideoCanvasPrev.getTimeline p !! i = Some e →
  ∃ sc, scenes p !! i = Some sc ∧ scene e = sc ∧
        duration e =
          match assets p !! id sc ≫= audioBuffer with
          | Some b =>
              if Qeq_bool (buf_duration b) 0 then durationEstimate sc
              else buf_duration b
          | None => durationEstimate sc
          end.
Proof.
  intros H. apply timelineFrom_scene in H as (sc & ? & ? & ->).
  exists sc. repeat split; try done.
Qed.

(** ** Running the handlers *)

Lemma after_nil {A : Type} (r : option A * Refs * list Event) :
  after [] r = r.
Proof. by destruct r as [[? ?] ?]. Qed.

Lemma after_after {A : Type} (t1 t2 : list Event)
    (r : option A * Refs * list Event) :
  after t1 (after t2 r) = after (t1 ++ t2) r.
Proof. unfold after. simpl. by rewrite app_assoc. Qed.

Lemma refsOf_after {A : Type} (t : list Event)
    (r : option A * Refs * list Event) :
  refsOf (after t r) = refsOf r.
Proof. reflexivity. Qed.

Lemma traceOf_after {A : Type} (t : list Event)
    (r : option A * Refs * list Event) :
  traceOf (after t r) = t ++ traceOf r.
Proof. reflexivity. Qed.

Lemma returns_after {A : Type} (t : list Event)
    (r : option A * Refs * list Event) :
  returns (after t r) = returns r.
Proof. reflexivity. Qed.

Section Bind.
Context {A : Type} (f : unit → M A) (env : Env) (s : Refs).

Lemma bind_get (g : Refs → M A) : bind get g env s = g s env s.
Proof. unfold bind, get. apply after_nil. Qed.

Lemma bind_ask (g : Env → M A) : bind ask g env s = g env env s.
Proof. unfold bind, ask. apply after_nil. Qed.

Lemma bind_ret {B : Type} (b : B) (g : B → M A) :
  bind (ret b) g env s = g b env s.
Proof. unfold bind, ret. apply after_nil. Qed.

Lemma bind_modify (h : Refs → Refs) :
  bind (modify h) f env s = f tt env (h s).
Proof. unfold bind, modify. apply after_nil. Qed.

Lemma bind_emit (e : Event) :
  bind (emit e) f env s = after [e] (f tt env s).
Proof. reflexivity. Qed.

Lemma bind_emitAll (t : list Event) :
  bind (emitAll t) f env s = after t (f tt env s).
Proof. reflexivity. Qed.

Lemma bind_throw {B : Type} (g : B → M A) :
  bind throw g env s = (None, s, []).
Proof. reflexivity. Qed.

Lemma bind_returned {B : Type} (m : M B) (g : B → M A) b s1 t1 :
  m env s = (Some b, s1, t1) → bind m g env s = after t1 (g b env s1).
Proof. intros H. unfold bind. by rewrite H. Qed.
End Bind.

(** Run the primitive steps at the head of a handler. *)
Ltac step :=
  first
    [ rewrite bind_get | rewrite bind_ask | rewrite bind_ret
    | rewrite bind_modify | rewrite bind_emit | rewrite bind_emitAll
    | rewrite bind_throw ];
  cbv beta.

Lemma forEach_push {A : Type} (f : A → option SourceNode) (l : list A) env s :
  forEach l (λ x, match f x with
                  | Some n => VideoCanvas.pushSource n
                  | None => ret tt
                  end) env s
  = (Some tt, set_activeSources (activeSourcesRef s ++ omap f l) s, []).
Proof.
  revert s. induction l as [|x l IH]; intros s; simpl.
  - destruct s; unfold ret, set_activeSources; simpl. by rewrite app_nil_r.
  - destruct (f x) as [n|].
    + unfold VideoCanvas.pushSource. step. rewrite IH.
      destruct s; unfold set_activeSources; simpl. by rewrite <- app_assoc.
    + step. apply IH.
Qed.

Lemma scheduleAudio_run (p : Props) (t0 : Q) env s :
  audioContextRef s = true → destinationRef s = true →
  VideoCanvas.scheduleAudio p t0 env s
  = (Some tt,
     set_activeSources
       (activeSourcesRef s ++ VideoCanvas.scheduled p (currentTime env) t0) s,
     []).
Proof.
  intros Ha Hd. unfold VideoCanvas.scheduleAudio, VideoCanvas.scheduled.
  do 2 step. rewrite Ha, Hd. cbn [negb orb].
  destruct (bgMusicBuffer p) as [bg|].
  - unfold VideoCanvas.pushSource at 1. step. rewrite forEach_push.
    destruct s; unfold set_activeSources; simpl. by rewrite <- app_assoc.
  - step. rewrite forEach_push. done.
Qed.

Lemma scheduleAudio_not_ready (p : Props) (t0 : Q) env s :
  audioContextRef s = false ∨ destinationRef s = false →
  VideoCanvas.scheduleAudio p t0 env s = (Some tt, s, []).
Proof.
  intros H. unfold VideoCanvas.scheduleAudio. do 2 step.
  destruct H as [-> | ->]; simpl; [done|].
  by rewrite orb_true_r.
Qed.

(** ** Audio scheduling *)

Lemma beginsAt_future (now delay : Q) (n : SourceNode) :
  0 <= delay → node_when n = now + delay → beginsAt now n == now + delay.
Proof.
  intros Hd Hw. unfold beginsAt. rewrite Hw. apply Q.max_l. lra.
Qed.

Lemma beginsAt_at_once (now : Q) (n : SourceNode) :
  0 <= now → node_when n = 0 → beginsAt now n == now.
Proof.
  intros Hn Hw. unfold beginsAt. rewrite Hw. apply Q.max_r. exact Hn.
Qed.

Lemma scheduled_narration (p : Props) (now t0 : Q) (item : TimelineEntry)
    (n : SourceNode) :
  item ∈ VideoCanvas.getTimeline p →
  VideoCanvas.narrationSource p now t0 item = Some n →
  n ∈ VideoCanvas.scheduled p now t0.
Proof.
  intros Hin Hn. unfold VideoCanvas.scheduled.
  apply elem_of_app. right. apply list_elem_of_omap. eauto.
Qed.

(** C2.  A narration node that [scheduleAudio] creates for a timeline entry
    at offset [t0] is stopped [end - max start t0] seconds after it begins,
    whatever the length of its buffer. *)
Theorem narration_stop_pinned (p : Props) (env : Env) (s : Refs) (t0 : Q)
    (item : TimelineEntry) (n : SourceNode) :
  0 <= currentTime env →
  audioContextRef s = true → destinationRef s = true →
  item ∈ VideoCanvas.getTimeline p →
  VideoCanvas.narrationSource p (currentTime env) t0 item = Some n →
  n ∈ activeSourcesRef (refsOf (VideoCanvas.scheduleAudio p t0 env s)) ∧
  ∃ stop, node_stop n = Some stop ∧
          stop - beginsAt (currentTime env) n
          == end_ item - Qmax (start item) t0.
Proof.
  intros Hnow Ha Hd Hin Hn. split.
  - rewrite scheduleAudio_run by done. unfold refsOf. simpl.
    apply elem_of_app. right. by eapply scheduled_narration.
  - unfold VideoCanvas.narrationSource in Hn.
    destruct (assets p !! id (scene item) ≫= audioBuffer) as [buf|]; [|done].
    destruct (Qle_bool 0 (start item - t0)) eqn:Hdelay.
    + apply Qle_bool_iff in Hdelay. injection Hn as <-. simpl.
      eexists. split; [reflexivity|].
      rewrite (beginsAt_future (currentTime env) (start item - t0)) by done.
      rewrite Q.max_l by lra. ring.
    + apply Qle_bool_gt in Hdelay.
      destruct (Qltb t0 (end_ item)); [|done].
      injection Hn as <-. simpl.
      eexists. split; [reflexivity|].
      rewrite beginsAt_at_once by done.
      rewrite Q.max_r by lra. ring.
Qed.

Lemma narration_stop_pinned_witness :
  let n := {| node_buffer := {| buf_label := "n3"; buf_duration := 9 |};
              node_loop := false; node_gain := 1; node_when := 0;
              node_offset := 8 - (0 + 4 + 3);
              node_stop := Some (12 + (0 + 4 + 3 + 5 - 8)) |} in
  n ∈ activeSourcesRef
        (refsOf (VideoCanvas.scheduleAudio storyboard 8 (sampleEnv 0 12)
                   mounted)) ∧
  ∃ stop, node_stop n = Some stop ∧
          stop - beginsAt 12 n == end_ thirdEntry - Qmax (start thirdEntry) 8.
Proof.
  apply (narration_stop_pinned storyboard (sampleEnv 0 12) mounted 8
           thirdEntry).
  - simpl. lra.
  - reflexivity.
  - reflexivity.
  - apply list_elem_of_lookup. exists 2%nat. reflexivity.
  - reflexivity.
Defined.

(** The preceding snapshot schedules no stop at all. *)
Lemma prev_narration_never_stopped (p : Props) (now t0 : Q)
    (item : TimelineEntry) (n : SourceNode) :
  VideoCanvasPrev.narrationSource p now t0 item = Some n → node_stop n = None.
Proof.
  unfold VideoCanvasPrev.narrationSource.
  destruct (assets p !! id (scene item) ≫= audioBuffer); [|done].
  destruct (Qle_bool 0 (start item - t0)); [by intros [= <-]|].
  destruct (Qltb t0 (end_ item)); [by intros [= <-]|done].
Qed.

(** C3, as stated, fails: the second entry of [storyboard] starts after
    offset 0 and has no decoded narration, and no node is scheduled to begin
    at its start. *)
Lemma entry_without_narration_not_scheduled :
  ∃ item,
    VideoCanvas.getTimeline storyboard !! 1%nat = Some item ∧
    0 <= start item ∧
    ¬ ∃ n, n ∈ activeSourcesRef
                 (refsOf (VideoCanvas.scheduleAudio storyboard 0
                            (sampleEnv 0 12) mounted)) ∧
           node_when n == 12 + (start item - 0).
Proof.
  eexists. split; [reflexivity|]. split; [simpl; lra|].
  intros (n & Hin & Hw). vm_compute in Hin.
  apply list_elem_of_In in Hin. simpl in Hin.
  destruct Hin as [<- | [<- | [<- | []]]]; vm_compute in Hw; discriminate Hw.
Qed.

(** C3, amended.  With the audio context and its destination in place, a
    pass of [scheduleAudio] at offset [t0] pushes the music node, if any,
    and then at most one narration node per timeline entry, in timeline
    order.  An entry whose asset holds no decoded narration gets none.  An
    entry that holds one gets a node beginning at [now + (start - t0)] from
    sample offset 0 when [start >= t0], a node beginning at once from sample
    offset [t0 - start] when [start < t0 < end], and none when [start < t0]
    and [end <= t0]. *)
Theorem narration_schedule (p : Props) (env : Env) (s : Refs) (t0 : Q) :
  0 <= currentTime env →
  audioContextRef s = true → destinationRef s = true →
  let now := currentTime env in
  activeSourcesRef (refsOf (VideoCanvas.scheduleAudio p t0 env s))
  = activeSourcesRef s
    ++ match bgMusicBuffer p with
       | Some bg => [VideoCanvas.bgSource t0 bg]
       | None => []
       end
    ++ omap (VideoCanvas.narrationSource p now t0) (VideoCanvas.getTimeline p)
  ∧ ∀ item,
      match assets p !! id (scene item) ≫= audioBuffer with
      | None => VideoCanvas.narrationSource p now t0 item = None
      | Some buf =>
          (t0 <= start item →
           ∃ n, VideoCanvas.narrationSource p now t0 item = Some n ∧
                node_buffer n = buf ∧ node_offset n = 0 ∧
                beginsAt now n == now + (start item - t0)) ∧
          (start item < t0 → t0 < end_ item →
           ∃ n, VideoCanvas.narrationSource p now t0 item = Some n ∧
                node_buffer n = buf ∧ node_offset n = t0 - start item ∧
                node_when n = 0 ∧ beginsAt now n == now) ∧
          (start item < t0 → end_ item <= t0 →
           VideoCanvas.narrationSource p now t0 item = None)
      end.
Proof.
  intros Hnow Ha Hd now. split.
  - rewrite scheduleAudio_run by done. reflexivity.
  - intros item. unfold VideoCanvas.narrationSource.
    destruct (assets p !! id (scene item) ≫= audioBuffer) as [buf|]; [|done].
    split; [|split].
    + intros Hle.
      assert (Qle_bool 0 (start item - t0) = true) as ->
        by (apply Qle_bool_iff; lra).
      eexists. split; [reflexivity|]. simpl. repeat split.
      apply (beginsAt_future _ (start item - t0)); [lra | reflexivity].
    + intros Hlt Hend.
      assert (Qle_bool 0 (start item - t0) = false) as ->
        by (apply Qle_bool_gt; lra).
      assert (Qltb t0 (end_ item) = true) as -> by (by apply Qltb_lt).
      eexists. split; [reflexivity|]. simpl. repeat split.
      by apply beginsAt_at_once.
    + intros Hlt Hend.
      assert (Qle_bool 0 (start item - t0) = false) as ->
        by (apply Qle_bool_gt; lra).
      assert (Qltb t0 (end_ item) = false) as -> by (by apply Qltb_ge).
      reflexivity.
Qed.

(** ** Pause and play *)

Lemma stopAudio_run (env : Env) (s : Refs) :
  VideoCanvas.stopAudio env s
  = (Some tt, set_activeSources [] s,
     flat_map (λ n, [NodeStop n; NodeDisconnect n]) (activeSourcesRef s)).
Proof.
  unfold VideoCanvas.stopAudio. step. step.
  unfold modify, after. simpl. by rewrite app_nil_r.
Qed.

Lemma cancelFrame_run (env : Env) (s : Refs) :
  VideoCanvas.cancelFrame env s
  = (Some tt, s,
     if (requestRef s =? 0)%Z then []
     else [CancelAnimationFrame (requestRef s)]).
Proof.
  unfold VideoCanvas.cancelFrame. step.
  by destruct (requestRef s =? 0)%Z.
Qed.

Lemma requestFrame_run (env : Env) (s : Refs) :
  VideoCanvas.requestFrame env s
  = (Some tt, set_request (frameHandle env) s, [RequestAnimationFrame]).
Proof. unfold VideoCanvas.requestFrame. do 2 step. reflexivity. Qed.

Lemma resumeIfSuspended_run (env : Env) (s : Refs) :
  VideoCanvas.resumeIfSuspended env s
  = (Some tt, s,
     if audioContextRef s && audioSuspended env then [AudioResume] else []).
Proof.
  unfold VideoCanvas.resumeIfSuspended. do 2 step.
  by destruct (audioContextRef s && audioSuspended env).
Qed.

Lemma pause_run (env : Env) (s : Refs) :
  VideoCanvas.pause env s
  = (Some tt,
     set_pauseTime ((dateNow env - startTimeRef s) / 1000)
       (set_activeSources [] (set_isPlaying false s)),
     flat_map (λ n, [NodeStop n; NodeDisconnect n]) (activeSourcesRef s)
     ++ (if (requestRef s =? 0)%Z then []
         else [CancelAnimationFrame (requestRef s)])).
Proof.
  unfold VideoCanvas.pause. step.
  rewrite (bind_returned _ _ _ _ _ _ _ (stopAudio_run _ _)).
  rewrite (bind_returned _ _ _ _ _ _ _ (cancelFrame_run _ _)).
  do 2 step. unfold modify, after. simpl. by rewrite app_nil_r.
Qed.

Lemma play_run (p : Props) (env : Env) (s : Refs) :
  isPlayingRef s = false →
  audioContextRef s = true → destinationRef s = true →
  VideoCanvas.play p env s
  = (Some tt,
     set_request (frameHandle env)
       (set_activeSources
          (activeSourcesRef s
           ++ VideoCanvas.scheduled p (currentTime env) (pauseTimeRef s))
          (set_startTime (dateNow env - pauseTimeRef s * 1000)
             (set_isPlaying true s))),
     (if audioSuspended env then [AudioResume] else [])
     ++ [RequestAnimationFrame]).
Proof.
  intros Hp Ha Hd. unfold VideoCanvas.play. do 2 step. rewrite Hp.
  rewrite (bind_returned _ _ _ _ _ _ _ (resumeIfSuspended_run _ _)).
  do 2 step.
  rewrite (bind_returned _ _ _ _ _ _ _
             (scheduleAudio_run p _ env
                (set_startTime _ (set_isPlaying true s)) Ha Hd)).
  rewrite requestFrame_run, Ha. unfold after. simpl.
  reflexivity.
Qed.

Lemma play_while_playing (p : Props) (env : Env) (s : Refs) :
  isPlayingRef s = true → VideoCanvas.play p env s = (Some tt, s, []).
Proof.
  intros Hp. unfold VideoCanvas.play. do 2 step. by rewrite Hp.
Qed.

Lemma scheduleAudio_any (p : Props) (t0 : Q) env s :
  VideoCanvas.scheduleAudio p t0 env s
  = (Some tt, set_activeSources (activeSourcesRef s ++ pushedBy p env s t0) s,
     []).
Proof.
  unfold pushedBy.
  destruct (audioContextRef s) eqn:Ha, (destinationRef s) eqn:Hd; simpl;
    try (by apply scheduleAudio_run);
    rewrite scheduleAudio_not_ready by auto;
    destruct s; unfold set_activeSources; simpl; by rewrite app_nil_r.
Qed.

Lemma play_run_any (p : Props) (env : Env) (s : Refs) :
  isPlayingRef s = false →
  VideoCanvas.play p env s
  = (Some tt,
     set_request (frameHandle env)
       (set_activeSources
          (activeSourcesRef s ++ pushedBy p env s (pauseTimeRef s))
          (set_startTime (dateNow env - pauseTimeRef s * 1000)
             (set_isPlaying true s))),
     (if audioContextRef s && audioSuspended env then [AudioResume] else [])
     ++ [RequestAnimationFrame]).
Proof.
  intros Hp. unfold VideoCanvas.play. do 2 step. rewrite Hp.
  rewrite (bind_returned _ _ _ _ _ _ _ (resumeIfSuspended_run _ _)).
  do 2 step.
  rewrite (bind_returned _ _ _ _ _ _ _ (scheduleAudio_any p _ env _)).
  rewrite requestFrame_run. unfold after. simpl.
  reflexivity.
Qed.

Lemma handleStop_run (env : Env) (s : Refs) :
  VideoCanvas.handleStop env s
  = let s1 := set_activeSources [] (set_isPlaying false s) in
    if isRecordingRef s && VideoCanvas.recorderNotInactive s then
      match mediaRecorderRef s with
      | Some r =>
          (Some tt,
           set_isRecording false
             (set_mediaRecorder
                {| rec_state := inactive; rec_mimeType := rec_mimeType r |}
                s1),
           stopEvents s ++ [RecorderStop])
      | None => (None, s1, stopEvents s)
      end
    else (Some tt, s1, stopEvents s).
Proof.
  unfold VideoCanvas.handleStop, stopEvents. step.
  rewrite (bind_returned _ _ _ _ _ _ _ (stopAudio_run _ _)).
  rewrite (bind_returned _ _ _ _ _ _ _ (cancelFrame_run _ _)).
  step. unfold VideoCanvas.recorderNotInactive. simpl.
  destruct (isRecordingRef s); simpl.
  - destruct (mediaRecorderRef s) as [r|]; simpl.
    + destruct (rec_state r); simpl;
        unfold after, ret; simpl; by rewrite ?app_nil_r, ?app_assoc.
    + unfold after; simpl. by rewrite !app_nil_r.
  - unfold after, ret; simpl. by rewrite !app_nil_r.
Qed.


Lemma filter_all_false {A : Type} (f : A → bool) (l : list A) :
  Forall (λ x, f x = false) l → List.filter f l = [].
Proof.
  induction 1 as [|x l Hx _ IH]; simpl; [done|]. by rewrite Hx.
Qed.

Lemma stopEvents_filter (f : Event → bool) (s : Refs) :
  (∀ n, f (NodeStop n) = false) → (∀ n, f (NodeDisconnect n) = false) →
  (∀ h, f (CancelAnimationFrame h) = false) →
  List.filter f (stopEvents s) = [].
Proof.
  intros H1 H2 H3. apply filter_all_false. unfold stopEvents.
  apply Forall_app. split.
  - induction (activeSourcesRef s); simpl; repeat constructor; auto.
  - destruct (requestRef s =? 0)%Z; repeat constructor; auto.
Qed.

Lemma narrationSource_shift (p : Props) (now1 now2 t0 : Q)
    (item : TimelineEntry) :
  0 <= now1 → 0 <= now2 →
  option_Forall2 (sameRelative now1 now2)
    (VideoCanvas.narrationSource p now1 t0 item)
    (VideoCanvas.narrationSource p now2 t0 item).
Proof.
  intros H1 H2. unfold VideoCanvas.narrationSource.
  destruct (assets p !! id (scene item) ≫= audioBuffer) as [buf|];
    [|constructor].
  destruct (Qle_bool 0 (start item - t0)) eqn:Hdelay.
  - apply Qle_bool_iff in Hdelay. constructor.
    unfold sameRelative, beginsAt. simpl. repeat split; try done.
    + rewrite !Q.max_l by lra. ring.
    + ring.
  - destruct (Qltb t0 (end_ item)); constructor.
    unfold sameRelative, beginsAt. simpl. repeat split; try done.
    + rewrite !Q.max_r by lra. ring.
    + ring.
Qed.

Lemma scheduled_shift (p : Props) (now1 now2 t0 : Q) :
  0 <= now1 → 0 <= now2 →
  Forall2 (sameRelative now1 now2)
    (VideoCanvas.scheduled p now1 t0) (VideoCanvas.scheduled p now2 t0).
Proof.
  intros H1 H2. unfold VideoCanvas.scheduled. apply Forall2_app.
  - destruct (bgMusicBuffer p); constructor; [|constructor].
    unfold sameRelative, beginsAt. simpl. repeat split; try done.
    rewrite !Q.max_r by lra. ring.
  - induction (VideoCanvas.getTimeline p) as [|item tl IH]; simpl;
      [constructor|].
    destruct (narrationSource_shift p now1 now2 t0 item H1 H2);
      [constructor; assumption | exact IH].
Qed.

(** C7.  Pausing at elapsed time [e] and calling [play] again schedules
    exactly the nodes, leaves exactly the clock origin and makes exactly the
    calls of a [play] on a freshly mounted controller whose paused offset is
    [e]: the nodes of a scheduling pass at offset [e].  Read against another
    value of the audio clock, the pass creates the same nodes at the same
    distances from the clock. *)
Theorem resume_schedules_like_fresh_play (p : Props) (env1 env2 env3 : Env)
    (s : Refs) :
  audioContextRef s = true → destinationRef s = true →
  0 <= currentTime env2 → 0 <= currentTime env3 →
  let e := (dateNow env1 - startTimeRef s) / 1000 in
  let resumed := VideoCanvas.play p env2 (refsOf (VideoCanvas.pause env1 s)) in
  let fresh := VideoCanvas.play p env2 (set_pauseTime e mounted) in
  pauseTimeRef (refsOf (VideoCanvas.pause env1 s)) = e ∧
  activeSourcesRef (refsOf resumed) = activeSourcesRef (refsOf fresh) ∧
  activeSourcesRef (refsOf resumed)
  = VideoCanvas.scheduled p (currentTime env2) e ∧
  startTimeRef (refsOf resumed) = startTimeRef (refsOf fresh) ∧
  traceOf resumed = traceOf fresh ∧
  Forall2 (sameRelative (currentTime env2) (currentTime env3))
    (activeSourcesRef (refsOf resumed))
    (activeSourcesRef
       (refsOf (VideoCanvas.play p env3 (set_pauseTime e mounted)))).
Proof.
  intros Ha Hd H2 H3. cbv zeta. rewrite pause_run.
  set (e := (dateNow env1 - startTimeRef s) / 1000).
  change (refsOf (Some (), ?r, ?t)) with r.
  rewrite (play_run p env2
             (set_pauseTime e (set_activeSources [] (set_isPlaying false s)))
             eq_refl Ha Hd).
  rewrite (play_run p env2 (set_pauseTime e mounted) eq_refl eq_refl eq_refl).
  rewrite (play_run p env3 (set_pauseTime e mounted) eq_refl eq_refl eq_refl).
  unfold refsOf, traceOf. simpl.
  repeat split; try reflexivity.
  by apply scheduled_shift.
Qed.

Lemma resume_schedules_like_fresh_play_witness :
  let playing :=
    refsOf (VideoCanvas.play storyboard (sampleEnv 1000 0) mounted) in
  let e := (6200 - startTimeRef playing) / 1000 in
  let paused := VideoCanvas.pause (sampleEnv 6200 5.2) playing in
  let resumed :=
    VideoCanvas.play storyboard (sampleEnv 9000 12) (refsOf paused) in
  let fresh :=
    VideoCanvas.play storyboard (sampleEnv 9000 12)
      (set_pauseTime e mounted) in
  (length (activeSourcesRef playing) = 3%nat ∧
   length (traceOf paused) = 7%nat ∧ e == 5.2) ∧
  pauseTimeRef (refsOf paused) = e ∧
  activeSourcesRef (refsOf resumed) = activeSourcesRef (refsOf fresh) ∧
  activeSourcesRef (refsOf resumed) = VideoCanvas.scheduled storyboard 12 e ∧
  startTimeRef (refsOf resumed) = startTimeRef (refsOf fresh) ∧
  traceOf resumed = traceOf fresh ∧
  Forall2 (sameRelative 12 40)
    (activeSourcesRef (refsOf resumed))
    (activeSourcesRef
       (refsOf (VideoCanvas.play storyboard (sampleEnv 9000 40)
                  (set_pauseTime e mounted)))).
Proof.
  split; [by repeat split|].
  apply (resume_schedules_like_fresh_play storyboard
           (sampleEnv 6200 5.2) (sampleEnv 9000 12) (sampleEnv 9000 40)
           (refsOf (VideoCanvas.play storyboard (sampleEnv 1000 0) mounted)));
    simpl; (reflexivity || lra).
Defined.



(** ** Playing an empty timeline *)

Lemma empty_timeline (p : Props) :
  scenes p = [] →
  VideoCanvas.getTimeline p = [] ∧ VideoCanvas.totalDuration p = 0.
Proof.
  intros H. unfold VideoCanvas.totalDuration, VideoCanvas.getTimeline.
  by rewrite H.
Qed.





(** ** The recording flag and the recorder *)

Lemma keeps_ret {A : Type} (a : A) : keepsRecorder (ret a).
Proof. by intros env s. Qed.

Lemma keeps_get : keepsRecorder get.
Proof. by intros env s. Qed.

Lemma keeps_ask : keepsRecorder ask.
Proof. by intros env s. Qed.

Lemma keeps_emit (e : Event) : keepsRecorder (emit e).
Proof. by intros env s. Qed.

Lemma keeps_emitAll (t : list Event) : keepsRecorder (emitAll t).
Proof. by intros env s. Qed.

Lemma keeps_throw {A : Type} : keepsRecorder (@throw A).
Proof. by intros env s. Qed.

Lemma keeps_modify (f : Refs → Refs) :
  (∀ s, isRecordingRef (f s) = isRecordingRef s
        ∧ mediaRecorderRef (f s) = mediaRecorderRef s) →
  keepsRecorder (modify f).
Proof. intros H env s. apply H. Qed.

Lemma keeps_bind {A B : Type} (m : M A) (f : A → M B) :
  keepsRecorder m → (∀ a, keepsRecorder (f a)) → keepsRecorder (bind m f).
Proof.
  intros Hm Hf env s. specialize (Hm env s). unfold bind.
  destruct (m env s) as [[[a|] s1] t1]; unfold refsOf in *; simpl in *;
    [|exact Hm].
  destruct (Hf a env s1) as [H1 H2]. unfold refsOf in *.
  destruct Hm as [Hm1 Hm2]. split; congruence.
Qed.

Lemma keeps_forEach {A : Type} (l : list A) (f : A → M unit) :
  (∀ x, keepsRecorder (f x)) → keepsRecorder (forEach l f).
Proof.
  intros Hf. induction l as [|x l IH]; simpl.
  - apply keeps_ret.
  - apply keeps_bind; [apply Hf | intros _; exact IH].
Qed.

Lemma preserving_bind {A B : Type} (I : Refs → Prop) (m : M A)
    (f : A → M B) :
  preserving I m → (∀ a, preserving I (f a)) → preserving I (bind m f).
Proof.
  intros Hm Hf env s Hs. specialize (Hm env s Hs). unfold bind.
  destruct (m env s) as [[[a|] s1] t1]; unfold refsOf in *; simpl in *;
    [|exact Hm].
  apply (Hf a env s1 Hm).
Qed.

Lemma keeps_stored {A : Type} (m : M A) :
  keepsRecorder m → preserving recorderStored m.
Proof.
  intros Hm env s Hs. destruct (Hm env s) as [H1 H2].
  unfold recorderStored. rewrite H1, H2. exact Hs.
Qed.

(** Discharge [keepsRecorder] along the structure of a handler. *)
Ltac keeps :=
  repeat first
    [ apply keeps_ret | apply keeps_get | apply keeps_ask | apply keeps_emit
    | apply keeps_emitAll | apply keeps_throw
    | apply keeps_modify; intros ?; split; reflexivity
    | apply keeps_forEach; intros ?
    | apply keeps_bind; [|intros ?]
    | match goal with
      | |- keepsRecorder (when ?b _) => destruct b; unfold when
      | |- keepsRecorder (if ?b then _ else _) => destruct b
      | |- keepsRecorder (match ?x with _ => _ end) => destruct x
      end ].

Lemma keeps_stopAudio : keepsRecorder VideoCanvas.stopAudio.
Proof. unfold VideoCanvas.stopAudio. keeps. Qed.

Lemma keeps_cancelFrame : keepsRecorder VideoCanvas.cancelFrame.
Proof. unfold VideoCanvas.cancelFrame. keeps. Qed.

Lemma keeps_requestFrame : keepsRecorder VideoCanvas.requestFrame.
Proof. unfold VideoCanvas.requestFrame. keeps. Qed.

Lemma keeps_resumeIfSuspended : keepsRecorder VideoCanvas.resumeIfSuspended.
Proof. unfold VideoCanvas.resumeIfSuspended. keeps. Qed.

Lemma keeps_scheduleAudio (p : Props) (t0 : Q) :
  keepsRecorder (VideoCanvas.scheduleAudio p t0).
Proof. unfold VideoCanvas.scheduleAudio, VideoCanvas.pushSource. keeps. Qed.

Lemma keeps_renderCanvas (p : Props) (time : Q) :
  keepsRecorder (VideoCanvas.renderCanvas p time).
Proof. unfold VideoCanvas.renderCanvas. keeps. Qed.

Lemma keeps_play (p : Props) : keepsRecorder (VideoCanvas.play p).
Proof.
  unfold VideoCanvas.play. keeps.
Qed.

Lemma keeps_pause : keepsRecorder VideoCanvas.pause.
Proof.
  unfold VideoCanvas.pause. keeps.
Qed.

Lemma keeps_preRoll (p : Props) : keepsRecorder (VideoCanvas.preRoll p).
Proof.
  unfold VideoCanvas.preRoll. keeps.
Qed.

Lemma keeps_ondataavailable (data : Blob) :
  keepsRecorder (VideoCanvas.ondataavailable data).
Proof. unfold VideoCanvas.ondataavailable. keeps. Qed.

Lemma keeps_onstop (mimeType : option string) :
  keepsRecorder (VideoCanvas.onstop mimeType).
Proof. unfold VideoCanvas.onstop. keeps. Qed.

(** [handleStop] from refs whose flag is up only over a stored recorder:
    it returns, and stops the recorder and lowers the flag exactly when the
    flag was up over a recorder that is not inactive. *)
Lemma handleStop_stored (env : Env) (s : Refs) :
  recorderStored s →
  ∃ s1 t1,
    VideoCanvas.handleStop env s = (Some tt, s1, t1) ∧
    isPlayingRef s1 = false ∧ activeSourcesRef s1 = [] ∧
    isRecordingRef s1 = flagAfterStop s ∧
    recorderStored s1 ∧
    canvasRef s1 = canvasRef s ∧ audioContextRef s1 = audioContextRef s ∧
    destinationRef s1 = destinationRef s ∧ chunksRef s1 = chunksRef s ∧
    t1 = stopEvents s
         ++ (if isRecordingRef s && VideoCanvas.recorderNotInactive s
             then [RecorderStop] else []).
Proof.
  intros Hst. rewrite handleStop_run. cbv zeta. unfold flagAfterStop.
  destruct (isRecordingRef s) eqn:Hrec.
  - destruct (Hst Hrec) as [r Hr].
    unfold recorderStored, VideoCanvas.recorderNotInactive. rewrite Hr.
    destruct (rec_state r) eqn:Hstate; simpl;
      eexists _, _; (split; [reflexivity|]); simpl;
      rewrite ?app_nil_r; repeat split; try done; by eexists.
  - simpl. eexists _, _. split; [reflexivity|]. simpl.
    rewrite app_nil_r. by repeat split.
Qed.

Lemma stopEvents_stopping (s : Refs) :
  Forall (λ e, isStopping e = true) (stopEvents s).
Proof.
  unfold stopEvents. apply Forall_app. split.
  - induction (activeSourcesRef s); simpl; repeat constructor; auto.
  - destruct (requestRef s =? 0)%Z; repeat constructor.
Qed.

Lemma handleStop_preserves_stored :
  preserving recorderStored VideoCanvas.handleStop.
Proof.
  intros env s Hs.
  destruct (handleStop_stored env s Hs) as (s1 & t1 & -> & _ & _ & _ & H & _).
  exact H.
Qed.

Lemma postRoll_preserves_stored :
  preserving recorderStored VideoCanvas.postRoll.
Proof.
  unfold VideoCanvas.postRoll. apply preserving_bind.
  - apply handleStop_preserves_stored.
  - intros _. apply keeps_stored. apply keeps_emit.
Qed.

Lemma drawFrame_preserves_stored (p : Props) :
  preserving recorderStored (VideoCanvas.drawFrame p).
Proof.
  unfold VideoCanvas.drawFrame.
  apply preserving_bind; [apply keeps_stored, keeps_get | intros s].
  apply preserving_bind; [apply keeps_stored, keeps_ask | intros env].
  destruct (negb (isPlayingRef s)); [apply keeps_stored, keeps_ret|].
  destruct (Qle_bool _ _).
  - apply preserving_bind;
      [apply keeps_stored, keeps_renderCanvas | intros _].
    apply preserving_bind; [apply keeps_stored, keeps_get | intros s'].
    destruct (isRecordingRef s'); [apply keeps_stored, keeps_emit|].
    apply postRoll_preserves_stored.
  - apply keeps_stored. keeps.
Qed.

Lemma record_preserves_stored (p : Props) :
  preserving recorderStored (VideoCanvas.record p).
Proof.
  unfold VideoCanvas.record.
  apply preserving_bind; [apply handleStop_preserves_stored | intros _].
  destruct (Qeq_bool _ 0);
    [apply keeps_stored; unfold VideoCanvas.alert, VideoCanvas.onPlaybackEnd;
     keeps|].
  destruct (negb _);
    [apply keeps_stored; unfold VideoCanvas.alert, VideoCanvas.onPlaybackEnd;
     keeps|].
  apply preserving_bind;
    [apply keeps_stored, keeps_resumeIfSuspended | intros _].
  apply preserving_bind; [apply keeps_stored; keeps | intros _].
  apply preserving_bind; [apply keeps_stored, keeps_get | intros s0].
  apply preserving_bind; [apply keeps_stored, keeps_ask | intros env0].
  destruct (_ || _); [apply keeps_stored, keeps_throw|].
  intros env s Hs. unfold tryCatch.
  destruct (recorderFails env0).
  - rewrite bind_throw. unfold VideoCanvas.onPlaybackEnd, emit, after, refsOf.
    simpl. exact Hs.
  - step. cbv zeta. do 2 step.
    destruct (startFails env0).
    + rewrite bind_throw.
      unfold VideoCanvas.onPlaybackEnd, emit, after, refsOf. simpl.
      intros _. by eexists.
    + do 3 step.
      set (s3 := set_mediaRecorder _ (set_isRecording true _)).
      pose proof (keeps_bind _ _ (keeps_renderCanvas p 0)
                    (λ _, keeps_emit (SetTimeout PreRoll 800)) env s3)
        as [H1 H2].
      unfold after.
      destruct ((VideoCanvas.renderCanvas p 0;;; emit _) env s3)
        as [[[[]|] s4] t4]; unfold refsOf in *; simpl in *;
        intros _; rewrite H2; by eexists.
Qed.

(** In every state the handlers can reach from the mounted component the
    recording flag is up only over a stored recorder. *)
Lemma reachable_stored (s : Refs) : reachable s → recorderStored s.
Proof.
  induction 1 as [|p c env s _ IH].
  - intros H. discriminate H.
  - revert env s IH. change (preserving recorderStored (handler p c)).
    destruct c as [| | | | |[| |]| |]; simpl.
    + apply keeps_stored, keeps_play.
    + apply keeps_stored, keeps_pause.
    + apply record_preserves_stored.
    + apply handleStop_preserves_stored.
    + apply drawFrame_preserves_stored.
    + apply keeps_stored, keeps_preRoll.
    + apply postRoll_preserves_stored.
    + apply keeps_stored, keeps_ret.
    + apply keeps_stored, keeps_ondataavailable.
    + apply keeps_stored, keeps_onstop.
Qed.

(** ** Refusing to record *)

Lemma validateAssets_false (p : Props) (sc : ScriptScene) :
  sc ∈ scenes p → VideoCanvas.imageLoaded (assets p !! id sc) = false →
  VideoCanvas.validateAssets p = false.
Proof.
  intros Hin Himg. apply list_elem_of_lookup in Hin as [i Hi].
  destruct (timelineFrom_lookup VideoCanvas.sceneDuration 0 _ _ _ Hi)
    as (e & He & Hsc).
  unfold VideoCanvas.validateAssets.
  apply not_true_iff_false. intros Hall.
  rewrite forallb_forall in Hall.
  specialize (Hall e). rewrite Hsc, Himg in Hall.
  assert (In e (VideoCanvas.getTimeline p)) as Hine.
  { apply list_elem_of_In, list_elem_of_lookup. by exists i. }
  specialize (Hall Hine). discriminate Hall.
Qed.

Lemma record_refused_run (p : Props) (env : Env) (s s1 : Refs)
    (t1 : list Event) :
  VideoCanvas.handleStop env s = (Some tt, s1, t1) →
  Qeq_bool (VideoCanvas.totalDuration p) 0 = true
  ∨ VideoCanvas.validateAssets p = false →
  ∃ msg, VideoCanvas.record p env s
         = (Some tt, s1, t1 ++ [Alert msg; OnPlaybackEnd]).
Proof.
  intros Hstop Hbad. unfold VideoCanvas.record.
  rewrite (bind_returned _ _ _ _ _ _ _ Hstop).
  unfold VideoCanvas.alert, VideoCanvas.onPlaybackEnd.
  destruct (Qeq_bool (VideoCanvas.totalDuration p) 0) eqn:Htot.
  - eexists. step. unfold emit, after. simpl. reflexivity.
  - destruct Hbad as [? | ->]; [done|]. cbn [negb].
    eexists. step. unfold emit, after. simpl. reflexivity.
Qed.

(** C6, as stated, fails: the third asset of [storyboard] has the status
    [error] and a decoded image; [record] raises no alert, starts the
    recorder and leaves the recording flag up. *)
Lemma record_ignores_status :
  (∃ sc a, scenes storyboard !! 2%nat = Some sc ∧
           assets storyboard !! id sc = Some a ∧ status a = error) ∧
  let r := VideoCanvas.record storyboard (sampleEnv 0 0) mounted in
  List.filter isAlert (traceOf r) = [] ∧
  List.filter isRecorderStart (traceOf r)
  = [RecorderStart (Some "video/webm;codecs=vp9"%string)] ∧
  isRecordingRef (refsOf r) = true.
Proof.
  split.
  - eexists _, _. split; [reflexivity|]. split; reflexivity.
  - vm_compute. repeat split.
Qed.

(** C6, amended.  In every state the handlers reach, [record] over a
    timeline without scenes, or with a scene whose asset is missing or has
    no image element that is complete and of non-zero natural width, returns
    after the stop routine with one alert and one [onPlaybackEnd]: it starts
    no recorder, asks for no frame and no timer, and leaves the controller
    not playing.  The recording flag is down afterwards, except when it was
    up over an inactive recorder, the state a [recorder.start()] that threw
    leaves behind: the stop routine does not lower it then.  The status of
    the assets is not read. *)
Theorem record_refused (p : Props) (env : Env) (s : Refs) :
  reachable s →
  scenes p = []
  ∨ (∃ sc, sc ∈ scenes p ∧
           VideoCanvas.imageLoaded (assets p !! id sc) = false) →
  let r := VideoCanvas.record p env s in
  returns r = true ∧
  (∃ msg, traceOf r
          = traceOf (VideoCanvas.handleStop env s)
            ++ [Alert msg; OnPlaybackEnd]) ∧
  List.filter isRecorderStart (traceOf r) = [] ∧
  List.filter isReschedule (traceOf r) = [] ∧
  List.filter isRecorderStop (traceOf r)
  = (if isRecordingRef s && VideoCanvas.recorderNotInactive s
     then [RecorderStop] else []) ∧
  isPlayingRef (refsOf r) = false ∧ activeSourcesRef (refsOf r) = [] ∧
  (isRecordingRef (refsOf r) = true ↔
   isRecordingRef s = true ∧
   ∃ rec, mediaRecorderRef s = Some rec ∧ rec_state rec = inactive).
Proof.
  intros Hreach Hbad. cbv zeta.
  pose proof (reachable_stored s Hreach) as Hst.
  destruct (handleStop_stored env s Hst)
    as (s1 & t1 & Hstop & Hplay & Hsrc & Hrec & _ & _ & _ & _ & _ & Ht1).
  assert (Qeq_bool (VideoCanvas.totalDuration p) 0 = true
          ∨ VideoCanvas.validateAssets p = false) as Hbad'.
  { destruct Hbad as [Hnil | (sc & Hin & Himg)].
    - left. destruct (empty_timeline p Hnil) as [_ ->]. reflexivity.
    - right. by eapply validateAssets_false. }
  destruct (record_refused_run p env s s1 t1 Hstop Hbad') as [msg Hrun].
  rewrite Hrun, Hstop. unfold returns, traceOf, refsOf. cbn [fst snd].
  split; [reflexivity|]. split; [by exists msg|].
  rewrite Ht1, !List.filter_app.
  rewrite !stopEvents_filter by done.
  split; [by destruct (_ && _)|]. split; [by destruct (_ && _)|].
  split; [by destruct (_ && _)|]. split; [exact Hplay|].
  split; [exact Hsrc|].
  rewrite Hrec. unfold flagAfterStop, VideoCanvas.recorderNotInactive.
  destruct (isRecordingRef s) eqn:Hflag; simpl.
  - destruct (Hst Hflag) as [rec Hr]. rewrite Hr.
    destruct (rec_state rec) eqn:Hstate; simpl; split;
      try done; try (intros _; split; [done|]; by exists rec);
      intros (_ & rec' & [= <-] & Hin); congruence.
  - split; [done|]. by intros [? _].
Qed.

Lemma record_refused_witness :
  let r := VideoCanvas.record unfinished (sampleEnv 300 0.3) armed in
  returns r = true ∧
  (∃ msg, traceOf r
          = traceOf (VideoCanvas.handleStop (sampleEnv 300 0.3) armed)
            ++ [Alert msg; OnPlaybackEnd]) ∧
  List.filter isRecorderStart (traceOf r) = [] ∧
  List.filter isReschedule (traceOf r) = [] ∧
  List.filter isRecorderStop (traceOf r) = [RecorderStop] ∧
  isPlayingRef (refsOf r) = false ∧ activeSourcesRef (refsOf r) = [] ∧
  (isRecordingRef (refsOf r) = true ↔
   isRecordingRef armed = true ∧
   ∃ rec, mediaRecorderRef armed = Some rec ∧ rec_state rec = inactive).
Proof.
  apply (record_refused unfinished (sampleEnv 300 0.3) armed).
  - apply (reachable_call storyboard CallRecord), reachable_mounted.
  - right. exists (sampleScene 2 3 (Some slide)). split.
    + apply list_elem_of_lookup. exists 1%nat. reflexivity.
    + reflexivity.
Defined.

(** The exception of C6, amended, is met: when [recorder.start()] throws,
    [record] has already stored the recorder and raised the flag, and its
    [catch] only calls [onPlaybackEnd]; a later [record] on unfinished
    assets is refused as above and does not lower the flag. *)
Example refused_record_after_failed_start :
  isRecordingRef startFailed = true ∧
  (rec_state <$> mediaRecorderRef startFailed) = Some inactive ∧
  let r := VideoCanvas.record unfinished (sampleEnv 300 0.3) startFailed in
  List.filter isAlert (traceOf r) = [Alert "Wait for all assets."] ∧
  List.filter isRecorderStop (traceOf r) = [] ∧
  isRecordingRef (refsOf r) = true.
Proof. vm_compute. by repeat split. Qed.

(** ** The frame renderer *)

Lemma findIndexFrom_spec {A : Type} (f : A → bool) (k : Z) (l : list A) :
  (findIndexFrom f k l = (-1)%Z ∧ Forall (λ x, f x = false) l)
  ∨ (∃ (j : nat) x, findIndexFrom f k l = (k + Z.of_nat j)%Z ∧
                     l !! j = Some x ∧ f x = true).
Proof.
  revert k. induction l as [|x l IH]; intros k; simpl.
  - left. split; [reflexivity | constructor].
  - destruct (f x) eqn:Hx.
    + right. exists 0%nat, x. repeat split; [lia | done].
    + destruct (IH (k + 1)%Z) as [[Hnone Hall] | (j & y & Hj & Hy & Hfy)].
      * left. split; [exact Hnone | by constructor].
      * right. exists (S j), y. repeat split; [lia | done | done].
Qed.

Lemma currentIndex_covers (p : Props) (t : Q) (i : nat)
    (cur nxt : TimelineEntry) :
  VideoCanvas.getTimeline p !! i = Some cur →
  VideoCanvas.getTimeline p !! S i = Some nxt →
  VideoCanvas.currentIndex p t = Z.of_nat i →
  VideoCanvas.covers t cur = true.
Proof.
  intros Hcur Hnxt. unfold VideoCanvas.currentIndex, findIndex.
  apply lookup_lt_Some in Hnxt.
  destruct (findIndexFrom_spec (VideoCanvas.covers t) 0
              (VideoCanvas.getTimeline p))
    as [[-> _] | (j & x & -> & Hx & Hfx)].
  - simpl. lia.
  - destruct (0 + Z.of_nat j =? -1)%Z eqn:E; [lia|].
    intros Hj. assert (j = i) as -> by lia. congruence.
Qed.

Lemma currentIndex_range (p : Props) (t : Q) :
  VideoCanvas.getTimeline p ≠ [] →
  (0 <= VideoCanvas.currentIndex p t
   < Z.of_nat (length (VideoCanvas.getTimeline p)))%Z.
Proof.
  intros Hne. unfold VideoCanvas.currentIndex, findIndex.
  assert (0 < length (VideoCanvas.getTimeline p))%nat
    by (destruct (VideoCanvas.getTimeline p); [done | simpl; lia]).
  destruct (findIndexFrom_spec (VideoCanvas.covers t) 0
              (VideoCanvas.getTimeline p))
    as [[-> _] | (j & x & -> & Hx & Hfx)].
  - simpl. lia.
  - apply lookup_lt_Some in Hx.
    destruct (0 + Z.of_nat j =? -1)%Z eqn:E; lia.
Qed.

Lemma drawScene_trace (p : Props) (c : Ctx2D) (img : HTMLImageElement)
    (scale xOff yOff alpha : Q) :
  0 <= alpha → alpha <= 1 →
  VideoCanvas.drawScene p c img scale xOff yOff alpha
  = (VideoCanvas.setAlpha alpha c,
     [DrawImage img alpha (filter c)
        ((width p - width p * scale) / 2 + xOff)
        ((height p - height p * scale) / 2 + yOff)
        (width p * scale) (height p * scale)]).
Proof.
  intros H0 H1. unfold VideoCanvas.drawScene, VideoCanvas.setAlpha.
  apply Qle_bool_iff in H0, H1. by rewrite H0, H1.
Qed.

Lemma drawTransition_looks (p : Props) (c : Ctx2D) (style : TransitionType)
    (img : HTMLImageElement) (q : Q) :
  0 < q → q < 1 →
  ∃ alpha flt x y w h,
    (VideoCanvas.drawTransition p c style img q).2
    = [DrawImage img alpha flt x y w h] ∧
    transitionLooks p c style q alpha flt x y w h.
Proof.
  intros H0 H1. unfold VideoCanvas.drawTransition.
  destruct style; cbv beta iota zeta; rewrite drawScene_trace by lra;
    cbn [snd]; eexists _, _, _, _, _, _; (split; [reflexivity|]);
    simpl; repeat split; field.
Qed.

Lemma transitionLooks_filter (p : Props) (c c1 : Ctx2D)
    (style : TransitionType) (q alpha : Q) (flt : option Q) (x y w h : Q) :
  filter c1 = filter c →
  transitionLooks p c1 style q alpha flt x y w h →
  transitionLooks p c style q alpha flt x y w h.
Proof. intros E. unfold transitionLooks. by rewrite E. Qed.

Lemma progress_in_window (e t : Q) :
  t < e → e - t < VideoCanvas.transDur →
  0 < 1 - (e - t) / VideoCanvas.transDur
  ∧ 1 - (e - t) / VideoCanvas.transDur < 1.
Proof.
  unfold VideoCanvas.transDur. intros H1 H2.
  assert ((e - t) / 0.8 == (e - t) * (10 # 8)) as -> by field.
  split; lra.
Qed.

(** C4, amended.  Let [cur] be the entry [renderCanvas] settles on at
    clamped time [t], at index [i].  The frame is painted without a throw.
    When the timeline has an entry after [cur], the image of that entry is
    ready and [end - t] is below the 0.8 s window, the frame draws, after the
    image of [cur], the next image exactly once, in the transition style of
    [cur] itself, the scene being left (fade when it has none), at progress
    [q = 1 - (end - t) / 0.8], which lies strictly between 0 and 1.  In every
    other case no image is drawn but that of [cur]. *)
Theorem next_image_composited (p : Props) (time : Q) (c : Ctx2D) (i : nat)
    (cur : TimelineEntry) :
  let t := VideoCanvas.clamp p time in
  let q := 1 - (end_ cur - t) / VideoCanvas.transDur in
  VideoCanvas.getTimeline p !! i = Some cur →
  VideoCanvas.currentIndex p t = Z.of_nat i →
  ∃ c' evs,
    VideoCanvas.paint p time c = Some (c', evs) ∧
    match VideoCanvas.getTimeline p !! S i
          ≫= VideoCanvas.readyImage p with
    | Some nimg =>
        if Qltb (end_ cur - t) VideoCanvas.transDur then
          0 < q ∧ q < 1 ∧
          ∃ alpha flt x y w h,
            List.filter isDrawImage evs
            = baseLayer p c t cur ++ [DrawImage nimg alpha flt x y w h] ∧
            transitionLooks p c
              (default fade (transitionType (scene cur))) q alpha flt x y w h
        else List.filter isDrawImage evs = baseLayer p c t cur
    | None => List.filter isDrawImage evs = baseLayer p c t cur
    end.
Proof.
  intros t q Hcur Hidx. unfold VideoCanvas.paint.
  assert ((length (VideoCanvas.getTimeline p) =? 0)%nat = false) as ->.
  { apply Nat.eqb_neq. apply lookup_lt_Some in Hcur. lia. }
  fold t. rewrite Hidx, Nat2Z.id, Hcur.
  replace (Z.to_nat (Z.of_nat i + 1)) with (S i) by lia.
  unfold baseLayer.
  set (c0 := VideoCanvas.setFillStyle Black c).
  set (base := match VideoCanvas.readyImage p cur with
               | Some img => VideoCanvas.drawScene p c0 img _ 0 0 1
               | None => (c0, [])
               end).
  assert (List.filter isDrawImage base.2
          = match VideoCanvas.readyImage p cur with
            | Some img =>
                (VideoCanvas.drawScene p c0 img
                   (1.0 + (t - start cur) / duration cur * 0.15) 0 0 1).2
            | None => []
            end ∧ filter base.1 = filter c) as [Hbase Hflt].
  { subst base. destruct (VideoCanvas.readyImage p cur); [|done].
    split; [reflexivity|].
    unfold VideoCanvas.drawScene, VideoCanvas.setAlpha. simpl.
    reflexivity. }
  destruct base as [c1 ev1]. cbn [fst snd] in Hbase, Hflt.
  destruct (VideoCanvas.getTimeline p !! S i) as [nxt|] eqn:Hnxt;
    cbn [mbind option_bind].
  - assert ((Z.of_nat i <? Z.of_nat (length (VideoCanvas.getTimeline p)) - 1)%Z
            = true) as ->.
    { apply Z.ltb_lt. apply lookup_lt_Some in Hnxt. lia. }
    rewrite andb_true_r.
    destruct (VideoCanvas.readyImage p nxt) as [nimg|] eqn:Himg.
    + destruct (Qltb (end_ cur - t) VideoCanvas.transDur) eqn:Hwin.
      * apply Qltb_lt in Hwin.
        pose proof (currentIndex_covers p t i cur nxt Hcur Hnxt Hidx) as Hcov.
        unfold VideoCanvas.covers in Hcov.
        apply andb_true_iff in Hcov as [_ Hend]. apply Qltb_lt in Hend.
        destruct (progress_in_window _ _ Hend Hwin) as [Hq0 Hq1].
        fold q in Hq0, Hq1.
        destruct (drawTransition_looks p c1
                    (default fade (transitionType (scene cur))) nimg q
                    Hq0 Hq1)
          as (alpha & flt & x & y & w & h & Hev & Hlooks).
        apply (transitionLooks_filter p c c1) in Hlooks; [|exact Hflt].
        fold q.
        destruct (VideoCanvas.drawTransition p c1
                    (default fade (transitionType (scene cur))) nimg q)
          as [c2 ev2].
        cbn [snd] in Hev. subst ev2.
        destruct (default false (isHook (scene cur)) && Qltb time 5);
          eexists _, _; (split; [reflexivity|]);
          (split; [exact Hq0|]); (split; [exact Hq1|]);
          exists alpha, flt, x, y, w, h;
          (split; [|exact Hlooks]);
          rewrite !List.filter_app, Hbase; cbn [List.filter isDrawImage app];
          by rewrite ?app_nil_r.
      * destruct (default false (isHook (scene cur)) && Qltb time 5);
          eexists _, _; (split; [reflexivity|]);
          rewrite !List.filter_app, Hbase; cbn [List.filter isDrawImage app];
          by rewrite ?app_nil_r.
    + destruct (Qltb (end_ cur - t) VideoCanvas.transDur);
        destruct (default false (isHook (scene cur)) && Qltb time 5);
        eexists _, _; (split; [reflexivity|]);
        rewrite !List.filter_app, Hbase; cbn [List.filter isDrawImage app];
        by rewrite ?app_nil_r.
  - assert ((Z.of_nat i <? Z.of_nat (length (VideoCanvas.getTimeline p)) - 1)%Z
            = false) as ->.
    { apply Z.ltb_ge. apply lookup_ge_None in Hnxt. lia. }
    rewrite andb_false_r.
    destruct (default false (isHook (scene cur)) && Qltb time 5);
      eexists _, _; (split; [reflexivity|]);
      rewrite !List.filter_app, Hbase; cbn [List.filter isDrawImage app];
      by rewrite ?app_nil_r.
Qed.

Lemma next_image_composited_witness :
  let t := VideoCanvas.clamp storyboard 6.5 in
  let q := 1 - (end_ secondEntry - t) / VideoCanvas.transDur in
  ∃ c' evs,
    VideoCanvas.paint storyboard 6.5 defaultContext = Some (c', evs) ∧
    match VideoCanvas.getTimeline storyboard !! 2%nat
          ≫= VideoCanvas.readyImage storyboard with
    | Some nimg =>
        if Qltb (end_ secondEntry - t) VideoCanvas.transDur then
          0 < q ∧ q < 1 ∧
          ∃ alpha flt x y w h,
            List.filter isDrawImage evs
            = baseLayer storyboard defaultContext t secondEntry
              ++ [DrawImage nimg alpha flt x y w h] ∧
            transitionLooks storyboard defaultContext
              (default fade (transitionType (scene secondEntry)))
              q alpha flt x y w h
        else List.filter isDrawImage evs
             = baseLayer storyboard defaultContext t secondEntry
    | None => List.filter isDrawImage evs
              = baseLayer storyboard defaultContext t secondEntry
    end.
Proof.
  apply (next_image_composited storyboard 6.5 defaultContext 1 secondEntry).
  - reflexivity.
  - reflexivity.
Defined.

(** C4, as stated, fails: at 6.5 s of [storyboard] the second scene, whose
    style is slide, is 0.5 s from its end and the third scene, whose style
    is zoom, is next.  The third image is drawn, and no draw of it has the
    look of a zoom at progress 0.375: it slides in at full opacity. *)
Lemma transition_style_not_of_next_scene :
  ∃ nxt nimg c' evs,
    VideoCanvas.getTimeline storyboard !! 1%nat = Some secondEntry ∧
    VideoCanvas.currentIndex storyboard (VideoCanvas.clamp storyboard 6.5)
    = 1%Z ∧
    VideoCanvas.getTimeline storyboard !! 2%nat = Some nxt ∧
    transitionType (scene nxt) = Some zoom ∧
    VideoCanvas.readyImage storyboard nxt = Some nimg ∧
    VideoCanvas.paint storyboard 6.5 defaultContext = Some (c', evs) ∧
    (∃ x y w h, DrawImage nimg 1 None x y w h ∈ evs) ∧
    ¬ ∃ alpha flt x y w h,
        DrawImage nimg alpha flt x y w h ∈ evs ∧
        transitionLooks storyboard defaultContext zoom
          (1 - (end_ secondEntry - VideoCanvas.clamp storyboard 6.5)
               / VideoCanvas.transDur)
          alpha flt x y w h.
Proof.
  eexists _, _, _, _.
  split; [reflexivity|]. split; [reflexivity|]. split; [reflexivity|].
  split; [reflexivity|]. split; [reflexivity|].
  split; [vm_compute; reflexivity|]. split.
  - eexists _, _, _, _. apply list_elem_of_In. simpl. right. right. left.
    reflexivity.
  - intros (alpha & flt & x & y & w & h & Hin & Hlooks).
    destruct Hlooks as [Halpha _].
    apply list_elem_of_In in Hin. simpl in Hin.
    destruct Hin as [Hin | [Hin | [Hin | [Hin | []]]]];
      try discriminate Hin.
    injection Hin as <- <- <- <- <- <-.
    vm_compute in Halpha. discriminate Halpha.
Qed.

(** ** Finalizing a recording *)

Lemma onstop_always_downloads (env : Env) (s : Refs) (mt : string) :
  VideoCanvas.onstop (Some mt) env s
  = (Some tt, s,
     [DownloadClick (dateNow env)
        (if VideoCanvas.includes "mp4" mt then "mp4" else "webm")%string
        (VideoCanvas.newBlob (chunksRef s) (Some mt))]).
Proof. unfold VideoCanvas.onstop. do 2 step. reflexivity. Qed.

(** The preceding snapshot offers the download exactly when the blob is not
    empty. *)
Lemma prev_onstop_checks_size (env : Env) (s : Refs) (mt : string) :
  List.filter isDownloadClick (traceOf (VideoCanvasPrev.onstop mt env s))
  = if (blob_size (VideoCanvas.newBlob (chunksRef s) (Some mt)) =? 0)%Z
    then []
    else [DownloadClick (dateNow env)
            (if VideoCanvas.includes "mp4" mt then "mp4" else "webm")%string
            (VideoCanvas.newBlob (chunksRef s) (Some mt))].
Proof.
  unfold VideoCanvasPrev.onstop. do 2 step.
  destruct (blob_size _ =? 0)%Z; [reflexivity|].
  step. reflexivity.
Qed.

Lemma ondataavailable_drops_empty (env : Env) (s : Refs) (data : Blob) :
  blob_size data = 0%Z →
  VideoCanvas.ondataavailable data env s = (Some tt, s, []).
Proof. intros H. unfold VideoCanvas.ondataavailable. by rewrite H. Qed.

(** C8.  A recording of [storyboard] is started and stopped before the
    encoder has produced a byte: the only data event carries an empty blob,
    which [ondataavailable] drops, so the assembled blob has size 0.  The
    [onstop] handler of the current snapshot clicks the download link for
    that blob all the same, where the specification wants a failure and no
    download;
    the handler of the preceding snapshot logs an error and returns. *)
Theorem empty_recording_is_downloaded :
  let env := sampleEnv 0 0 in
  let mt := "video/webm;codecs=vp9"%string in
  let recording := refsOf (VideoCanvas.record storyboard env mounted) in
  let stopped := refsOf (VideoCanvas.handleStop env recording) in
  let flushed :=
    refsOf (VideoCanvas.ondataavailable
              {| blob_size := 0; blob_type := Some mt |} env stopped) in
  (rec_mimeType <$> mediaRecorderRef recording) = Some (Some mt) ∧
  chunksRef flushed = [] ∧
  traceOf (VideoCanvas.onstop (Some mt) env flushed)
  = [DownloadClick 0 "webm" {| blob_size := 0; blob_type := Some mt |}] ∧
  traceOf (VideoCanvasPrev.onstop mt env flushed)
  = [ConsoleError "Empty recording"].
Proof. vm_compute. repeat split. Qed.

Lemma narration_schedule_witness :
  activeSourcesRef
    (refsOf (VideoCanvas.scheduleAudio storyboard 8 (sampleEnv 0 12) mounted))
  = activeSourcesRef mounted
    ++ match bgMusicBuffer storyboard with
       | Some bg => [VideoCanvas.bgSource 8 bg]
       | None => []
       end
    ++ omap (VideoCanvas.narrationSource storyboard 12 8)
         (VideoCanvas.getTimeline storyboard).
Proof.
  refine (proj1 (narration_schedule storyboard (sampleEnv 0 12) mounted 8
                   _ _ _)).
  - simpl. lra.
  - reflexivity.
  - reflexivity.
Defined.

(** ** The renderer never throws *)

Lemma paint_total (p : Props) (time : Q) (c : Ctx2D) :
  is_Some (VideoCanvas.paint p time c).
Proof.
  unfold VideoCanvas.paint.
  destruct (length (VideoCanvas.getTimeline p) =? 0)%nat eqn:Hlen; [eauto|].
  apply Nat.eqb_neq in Hlen.
  assert (VideoCanvas.getTimeline p ≠ []) as Hne
    by (destruct (VideoCanvas.getTimeline p); simpl in *; congruence).
  pose proof (currentIndex_range p (VideoCanvas.clamp p time) Hne) as Hrange.
  set (idx := VideoCanvas.currentIndex p (VideoCanvas.clamp p time)) in *.
  destruct (VideoCanvas.getTimeline p !! Z.to_nat idx) as [cur|] eqn:Hcur;
    [|apply lookup_ge_None in Hcur; lia].
  destruct (match VideoCanvas.readyImage p cur with
            | Some img => _
            | None => _
            end) as [c1 ev1].
  destruct (Qltb _ VideoCanvas.transDur
            && (idx <? Z.of_nat (length (VideoCanvas.getTimeline p)) - 1)%Z)
    eqn:Hwin.
  - apply andb_true_iff in Hwin as [_ Hlt]. apply Z.ltb_lt in Hlt.
    destruct (VideoCanvas.getTimeline p !! Z.to_nat (idx + 1)) as [nxt|]
      eqn:Hnxt; [|apply lookup_ge_None in Hnxt; lia].
    destruct (VideoCanvas.readyImage p nxt);
      [destruct (VideoCanvas.drawTransition _ _ _ _ _)|];
      destruct (default false _ && _); eauto.
  - destruct (default false _ && _); eauto.
Qed.

Lemma renderCanvas_returns (p : Props) (time : Q) (env : Env) (s : Refs) :
  returns (VideoCanvas.renderCanvas p time env s) = true.
Proof.
  unfold VideoCanvas.renderCanvas. step.
  destruct (canvasRef s) as [[c|]|]; try reflexivity.
  destruct (paint_total p time c) as [[c' evs] ->]. step. reflexivity.
Qed.

(** ** The timeline as prefix sums *)

Lemma timelineFrom_prefix (dur : ScriptScene → Q) (c : Q)
    (ss : list ScriptScene) (i : nat) (e : TimelineEntry) :
  timelineFrom dur c ss !! i = Some e →
  start e == c + sumDurations dur (take i ss) ∧
  end_ e == c + sumDurations dur (take (S i) ss).
Proof.
  revert c i. induction ss as [|sc ss IH]; intros c i; simpl; [done|].
  destruct i as [|i]; simpl.
  - intros [= <-]. simpl. unfold sumDurations. simpl. split; ring.
  - intros H. destruct (IH _ _ H) as [H1 H2]. rewrite H1, H2.
    unfold sumDurations. simpl. split; ring.
Qed.

Lemma lastEnd_sum (dur : ScriptScene → Q) (c : Q) (ss : list ScriptScene) :
  default c (end_ <$> last (timelineFrom dur c ss))
  == c + sumDurations dur ss.
Proof.
  revert c. induction ss as [|sc ss IH]; intros c.
  - unfold sumDurations. simpl. ring.
  - change (timelineFrom dur c (sc :: ss))
      with ({| scene := sc; start := c; duration := dur sc;
               end_ := c + dur sc |} :: timelineFrom dur (c + dur sc) ss).
    specialize (IH (c + dur sc)).
    destruct (timelineFrom dur (c + dur sc) ss) as [|e tl] eqn:E.
    + destruct ss; [|discriminate E]. unfold sumDurations. simpl. ring.
    + rewrite last_cons. destruct (last (e :: tl)) as [l|] eqn:El.
      * simpl in *. rewrite IH. unfold sumDurations. simpl. ring.
      * by rewrite last_None in El.
Qed.

Lemma totalDuration_sum (p : Props) :
  VideoCanvas.totalDuration p
  == sumDurations durationEstimate (scenes p).
Proof.
  unfold VideoCanvas.totalDuration. rewrite lastEndOr0_spec.
  unfold VideoCanvas.getTimeline.
  rewrite (lastEnd_sum VideoCanvas.sceneDuration 0 (scenes p)).
  rewrite Qplus_0_l. reflexivity.
Qed.

(** X1.  The entry of the timeline at index [i] starts at the sum of the
    duration estimates of the [i] scenes before it and ends at that sum plus
    its own estimate; [totalDuration] is the sum of all the estimates. *)
Theorem timeline_prefix_sums (p : Props) (i : nat) (e : TimelineEntry) :
  VideoCanvas.getTimeline p !! i = Some e →
  start e == sumDurations durationEstimate (take i (scenes p)) ∧
  end_ e == sumDurations durationEstimate (take (S i) (scenes p)) ∧
  VideoCanvas.totalDuration p == sumDurations durationEstimate (scenes p).
Proof.
  intros H.
  destruct (timelineFrom_prefix VideoCanvas.sceneDuration 0 _ _ _ H)
    as [H1 H2].
  split; [|split].
  - rewrite H1, Qplus_0_l. reflexivity.
  - rewrite H2, Qplus_0_l. reflexivity.
  - apply totalDuration_sum.
Qed.

Lemma timeline_prefix_sums_witness :
  start thirdEntry == sumDurations durationEstimate (take 2 (scenes storyboard))
  ∧ end_ thirdEntry
    == sumDurations durationEstimate (take 3 (scenes storyboard))
  ∧ VideoCanvas.totalDuration storyboard
    == sumDurations durationEstimate (scenes storyboard).
Proof.
  apply (timeline_prefix_sums storyboard 2 thirdEntry). reflexivity.
Defined.

(** ** Order of the entries *)

Lemma timelineFrom_start_ge (dur : ScriptScene → Q) (c : Q)
    (ss : list ScriptScene) (j : nat) (b : TimelineEntry) :
  Forall (λ sc, 0 <= dur sc) ss →
  timelineFrom dur c ss !! j = Some b → c <= start b.
Proof.
  intros Hpos. revert c j.
  induction Hpos as [|sc ss Hsc _ IH]; intros c j; simpl; [done|].
  destruct j as [|j]; simpl.
  - intros [= <-]. simpl. lra.
  - intros H. apply IH in H. lra.
Qed.

Lemma timelineFrom_ordered (dur : ScriptScene → Q) (c : Q)
    (ss : list ScriptScene) (i j : nat) (a b : TimelineEntry) :
  Forall (λ sc, 0 <= dur sc) ss → (i < j)%nat →
  timelineFrom dur c ss !! i = Some a →
  timelineFrom dur c ss !! j = Some b →
  start a <= end_ a ∧ end_ a <= start b.
Proof.
  intros Hpos. revert c i j.
  induction Hpos as [|sc ss Hsc Hss IH]; intros c i j Hij; simpl; [done|].
  destruct j as [|j]; [lia|]. destruct i as [|i]; simpl.
  - intros [= <-] Hb. simpl. split; [lra|].
    by eapply timelineFrom_start_ge.
  - apply IH. lia.
Qed.

(** X2.  When no duration estimate is negative, the entries of the timeline
    are in order and do not overlap: an entry ends no earlier than it starts
    and no later than any entry after it starts. *)
Theorem timeline_ordered (p : Props) (i j : nat) (a b : TimelineEntry) :
  Forall (λ sc, 0 <= durationEstimate sc) (scenes p) → (i < j)%nat →
  VideoCanvas.getTimeline p !! i = Some a →
  VideoCanvas.getTimeline p !! j = Some b →
  start a <= end_ a ∧ end_ a <= start b.
Proof. apply timelineFrom_ordered. Qed.

Lemma timeline_ordered_witness :
  start secondEntry <= end_ secondEntry ∧ end_ secondEntry <= start thirdEntry.
Proof.
  apply (timeline_ordered storyboard 1 2 secondEntry thirdEntry).
  - repeat constructor; simpl; lra.
  - lia.
  - reflexivity.
  - reflexivity.
Defined.

(** ** Locating the active entry *)

Lemma covers_iff (t : Q) (e : TimelineEntry) :
  VideoCanvas.covers t e = true ↔ start e <= t ∧ t < end_ e.
Proof.
  unfold VideoCanvas.covers. rewrite andb_true_iff, Qle_bool_iff, Qltb_lt.
  reflexivity.
Qed.

Lemma uncovered_past_the_end (dur : ScriptScene → Q) (c t : Q)
    (ss : list ScriptScene) :
  Forall (λ e, VideoCanvas.covers t e = false) (timelineFrom dur c ss) →
  c <= t → c + sumDurations dur ss <= t.
Proof.
  revert c. induction ss as [|sc ss IH]; intros c Hno Hc; simpl.
  - unfold sumDurations. simpl. lra.
  - simpl in Hno. apply Forall_cons in Hno as [Hhead Htail].
    assert (c + dur sc <= t) as Hnext.
    { destruct (Qlt_le_dec t (c + dur sc)) as [Hlt|Hle]; [|exact Hle].
      assert (VideoCanvas.covers t
                {| scene := sc; start := c; duration := dur sc;
                   end_ := c + dur sc |} = true) as Hcov
        by (apply covers_iff; simpl; split; assumption).
      congruence. }
    specialize (IH _ Htail Hnext). unfold sumDurations in *. simpl. lra.
Qed.

Lemma currentIndex_found (p : Props) (t : Q) :
  0 <= t → t < VideoCanvas.totalDuration p →
  ∃ (i : nat) e,
    VideoCanvas.currentIndex p t = Z.of_nat i ∧
    VideoCanvas.getTimeline p !! i = Some e ∧
    VideoCanvas.covers t e = true.
Proof.
  intros H0 Htot. unfold VideoCanvas.currentIndex, findIndex.
  destruct (findIndexFrom_spec (VideoCanvas.covers t) 0
              (VideoCanvas.getTimeline p))
    as [[_ Hall] | (j & x & -> & Hx & Hfx)].
  - apply uncovered_past_the_end in Hall; [|exact H0].
    rewrite totalDuration_sum in Htot.
    unfold VideoCanvas.sceneDuration in Hall.
    change (λ sc, durationEstimate sc) with durationEstimate in Hall. lra.
  - exists j, x. split; [|done].
    destruct (0 + Z.of_nat j =? -1)%Z eqn:E; lia.
Qed.

(** X3.  When no duration estimate is negative and the clamped time is not
    negative, [renderCanvas] settles on an entry whose interval holds the
    clamped time, [start <= t < end], without its fall-back to the last
    entry, and no other entry of the timeline holds that time. *)
Theorem active_entry_located (p : Props) (time : Q) :
  Forall (λ sc, 0 <= durationEstimate sc) (scenes p) →
  0 <= VideoCanvas.clamp p time →
  let t := VideoCanvas.clamp p time in
  ∃ (i : nat) e,
    VideoCanvas.currentIndex p t = Z.of_nat i ∧
    VideoCanvas.getTimeline p !! i = Some e ∧
    start e <= t ∧ t < end_ e ∧
    ∀ (j : nat) e',
      VideoCanvas.getTimeline p !! j = Some e' →
      VideoCanvas.covers t e' = true → j = i.
Proof.
  intros Hpos H0 t.
  assert (t < VideoCanvas.totalDuration p) as Htot.
  { subst t. unfold VideoCanvas.clamp.
    pose proof (Q.le_min_r time (VideoCanvas.totalDuration p - 0.001)).
    lra. }
  destruct (currentIndex_found p t H0 Htot) as (i & e & Hi & He & Hcov).
  exists i, e. apply covers_iff in Hcov as [Hs Hend].
  repeat split; try assumption.
  intros j e' He' Hcov'. apply covers_iff in Hcov' as [Hs' Hend'].
  destruct (Nat.lt_trichotomy j i) as [Hlt | [-> | Hgt]]; [|done|].
  - destruct (timelineFrom_ordered _ _ _ _ _ _ _ Hpos Hlt He' He). lra.
  - destruct (timelineFrom_ordered _ _ _ _ _ _ _ Hpos Hgt He He'). lra.
Qed.

Lemma active_entry_located_witness :
  let t := VideoCanvas.clamp storyboard 6.5 in
  ∃ (i : nat) e,
    VideoCanvas.currentIndex storyboard t = Z.of_nat i ∧
    VideoCanvas.getTimeline storyboard !! i = Some e ∧
    start e <= t ∧ t < end_ e ∧
    ∀ (j : nat) e',
      VideoCanvas.getTimeline storyboard !! j = Some e' →
      VideoCanvas.covers t e' = true → j = i.
Proof.
  apply (active_entry_located storyboard 6.5).
  - repeat constructor; simpl; lra.
  - vm_compute. discriminate.
Defined.

(** ** The layers of a frame *)

Lemma drawTransition_ctx (p : Props) (c : Ctx2D) (style : TransitionType)
    (img : HTMLImageElement) (q : Q) :
  let r := VideoCanvas.drawTransition p c style img q in
  fillStyle r.1 = fillStyle c ∧ globalAlpha r.1 = globalAlpha c ∧
  filter r.1 = filter c ∧ saved r.1 = saved c ∧
  ∃ a f x y w h, r.2 = [DrawImage img a f x y w h].
Proof.
  unfold VideoCanvas.drawTransition, VideoCanvas.drawScene,
    VideoCanvas.setAlpha, VideoCanvas.setFilter, VideoCanvas.save,
    VideoCanvas.restore.
  destruct style; simpl;
    try destruct (Qle_bool 0 q && Qle_bool q 1); simpl;
    repeat split; eauto 10.
Qed.

Lemma paint_shape (p : Props) (time : Q) (c : Ctx2D) (i : nat)
    (cur : TimelineEntry) :
  let t := VideoCanvas.clamp p time in
  VideoCanvas.getTimeline p !! i = Some cur →
  VideoCanvas.currentIndex p t = Z.of_nat i →
  ∃ c' trans,
    VideoCanvas.paint p time c
    = Some (c',
            FillRect Black (globalAlpha c) (filter c) 0 0 (width p) (height p)
            :: baseLayer p c t cur ++ trans ++ overlay p time c cur) ∧
    Forall (λ e, isDrawImage e = true) trans ∧ (length trans <= 1)%nat ∧
    globalAlpha c' = frameAlpha p c cur ∧ filter c' = filter c ∧
    saved c' = saved c.
Proof.
  intros t Hcur Hidx. unfold VideoCanvas.paint.
  assert ((length (VideoCanvas.getTimeline p) =? 0)%nat = false) as ->.
  { apply Nat.eqb_neq. apply lookup_lt_Some in Hcur. lia. }
  fold t. rewrite Hidx, Nat2Z.id, Hcur.
  replace (Z.to_nat (Z.of_nat i + 1)) with (S i) by lia.
  unfold baseLayer, overlay, frameAlpha, VideoCanvas.fillRect.
  set (c0 := VideoCanvas.setFillStyle Black c).
  assert (∃ c1 ev1,
            match VideoCanvas.readyImage p cur with
            | Some img =>
                VideoCanvas.drawScene p c0 img
                  (1.0 + (t - start cur) / duration cur * 0.15) 0 0 1
            | None => (c0, [])
            end = (c1, ev1) ∧
            ev1 = match VideoCanvas.readyImage p cur with
                  | Some img =>
                      (VideoCanvas.drawScene p c0 img
                         (1.0 + (t - start cur) / duration cur * 0.15)
                         0 0 1).2
                  | None => []
                  end ∧
            globalAlpha c1 = match VideoCanvas.readyImage p cur with
                             | Some _ => 1
                             | None => globalAlpha c
                             end ∧
            filter c1 = filter c ∧ saved c1 = saved c)
    as (c1 & ev1 & -> & -> & Ha1 & Hf1 & Hs1).
  { destruct (VideoCanvas.readyImage p cur); eexists _, _;
      (split; [reflexivity|]); repeat split. }
  assert (∃ c2 trans,
            (if Qltb (end_ cur - t) VideoCanvas.transDur
                && (Z.of_nat i
                    <? Z.of_nat (length (VideoCanvas.getTimeline p)) - 1)%Z
             then
               match VideoCanvas.getTimeline p !! S i with
               | Some nextScene =>
                   match VideoCanvas.readyImage p nextScene with
                   | Some nimg =>
                       Some (VideoCanvas.drawTransition p c1
                               (default fade
                                  (transitionType (scene cur)))
                               nimg
                               (1 - (end_ cur - t) / VideoCanvas.transDur))
                   | None => Some (c1, [])
                   end
               | None => None
               end
             else Some (c1, [])) = Some (c2, trans) ∧
            Forall (λ e, isDrawImage e = true) trans ∧
            (length trans <= 1)%nat ∧
            globalAlpha c2 = globalAlpha c1 ∧ filter c2 = filter c1 ∧
            saved c2 = saved c1)
    as (c2 & trans & -> & Htr & Hlen & Ha2 & Hf2 & Hs2).
  { destruct (Qltb _ _ && _) eqn:Hwin;
      [|eexists _, _; split; [reflexivity|]; repeat split; auto].
    apply andb_true_iff in Hwin as [_ Hlt]. apply Z.ltb_lt in Hlt.
    destruct (VideoCanvas.getTimeline p !! S i) as [nxt|] eqn:Hnxt;
      [|apply lookup_ge_None in Hnxt; lia].
    destruct (VideoCanvas.readyImage p nxt) as [nimg|];
      [|eexists _, _; split; [reflexivity|]; repeat split; auto].
    pose proof (drawTransition_ctx p c1
                  (default fade (transitionType (scene cur))) nimg
                  (1 - (end_ cur - t) / VideoCanvas.transDur)) as Hctx.
    cbv zeta in Hctx.
    destruct (VideoCanvas.drawTransition _ _ _ _ _) as [c2 ev2].
    destruct Hctx as (_ & Ha & Hf & Hs & a & f & x & y & w & h & Hev).
    simpl in *. subst ev2.
    eexists _, _. split; [reflexivity|]. repeat split; auto. }
  destruct (default false (isHook (scene cur)) && Qltb time 5);
    eexists _, trans;
    (split;
     [simpl; rewrite ?Ha2, ?Hf2, ?Ha1, ?Hf1, <- ?app_assoc; reflexivity|]);
    simpl; repeat split; try assumption; congruence.
Qed.

(** X4.  Whatever the context, a frame over a timeline with scenes opens
    with a black rectangle over the whole canvas and closes with the
    vignette over the whole canvas, followed by the hook bar when the entry
    settled on is a hook scene and the time is under five seconds; between
    the two it draws at most two images and nothing else. *)
Theorem frame_layers (p : Props) (time : Q) (c : Ctx2D) :
  scenes p ≠ [] →
  let t := VideoCanvas.clamp p time in
  ∃ c' cur images,
    VideoCanvas.getTimeline p !! Z.to_nat (VideoCanvas.currentIndex p t)
    = Some cur ∧
    VideoCanvas.paint p time c
    = Some (c',
            FillRect Black (globalAlpha c) (filter c) 0 0 (width p) (height p)
            :: images ++ overlay p time c cur) ∧
    Forall (λ e, isDrawImage e = true) images ∧ (length images <= 2)%nat.
Proof.
  intros Hne t.
  assert (VideoCanvas.getTimeline p ≠ []) as Htl.
  { intros E. apply Hne. apply (f_equal length) in E.
    unfold VideoCanvas.getTimeline in E. rewrite timelineFrom_length in E.
    by destruct (scenes p). }
  pose proof (currentIndex_range p t Htl) as Hrange.
  destruct (VideoCanvas.getTimeline p
            !! Z.to_nat (VideoCanvas.currentIndex p t)) as [cur|] eqn:Hcur;
    [|apply lookup_ge_None in Hcur; lia].
  destruct (paint_shape p time c _ cur Hcur)
    as (c' & trans & Hpaint & Htr & Hlen & _); [fold t; lia|].
  exists c', cur, (baseLayer p c t cur ++ trans).
  split; [reflexivity|]. split; [by rewrite <- app_assoc|].
  unfold baseLayer, VideoCanvas.drawScene.
  destruct (VideoCanvas.readyImage p cur); simpl.
  - split; [by constructor | lia].
  - split; [assumption | lia].
Qed.

Lemma frame_layers_witness :
  let t := VideoCanvas.clamp storyboard 6.5 in
  ∃ c' cur images,
    VideoCanvas.getTimeline storyboard
    !! Z.to_nat (VideoCanvas.currentIndex storyboard t) = Some cur ∧
    VideoCanvas.paint storyboard 6.5 defaultContext
    = Some (c',
            FillRect Black (globalAlpha defaultContext)
              (filter defaultContext) 0 0 (width storyboard)
              (height storyboard)
            :: images ++ overlay storyboard 6.5 defaultContext cur) ∧
    Forall (λ e, isDrawImage e = true) images ∧ (length images <= 2)%nat.
Proof.
  apply (frame_layers storyboard 6.5 defaultContext). discriminate.
Defined.

Lemma scaled_down (a b : Q) : 0 <= a → b <= 1 → a * b <= a.
Proof. intros Ha Hb. nra. Qed.

Lemma zoom_box (W pr : Q) :
  0 <= W → 0 <= pr → pr < 1 →
  let w := W * (1.0 + pr * 0.15) in
  let x := (W - w) / 2 + 0 in
  x <= 0 ∧ W <= x + w ∧ x + w / 2 == W / 2 ∧ w <= 1.15 * W.
Proof.
  intros HW H0 H1 w x.
  assert (0 <= W * pr) by (apply Qmult_le_0_compat; assumption).
  assert (W * pr <= W) by (apply scaled_down; lra).
  assert (x == - (15 # 200) * (W * pr)) as Hx by (subst x w; field).
  assert (w == W + (15 # 100) * (W * pr)) as Hw by (subst w; field).
  repeat split.
  - rewrite Hx. lra.
  - rewrite Hx, Hw. lra.
  - subst x w. field.
  - rewrite Hw. lra.
Qed.

Lemma progress_in_scene (t s d e : Q) :
  e == s + d → s <= t → t < e → 0 <= (t - s) / d ∧ (t - s) / d < 1.
Proof.
  intros He Hs Ht. assert (0 < d) by lra. split.
  - apply Qle_shift_div_l; lra.
  - apply Qlt_shift_div_r; lra.
Qed.

(** X5.  When the entry [renderCanvas] settles on holds the clamped time
    and its image is ready, the frame draws that image first, at full
    opacity, centred and scaled by a factor from 1 up to 1.15: on a canvas
    of non-negative size the image covers the whole canvas. *)
Theorem current_image_fills_canvas (p : Props) (time : Q) (c : Ctx2D)
    (i : nat) (cur : TimelineEntry) (img : HTMLImageElement) :
  let t := VideoCanvas.clamp p time in
  0 <= width p → 0 <= height p →
  VideoCanvas.getTimeline p !! i = Some cur →
  VideoCanvas.currentIndex p t = Z.of_nat i →
  VideoCanvas.covers t cur = true →
  VideoCanvas.readyImage p cur = Some img →
  ∃ c' rest x y w h,
    VideoCanvas.paint p time c
    = Some (c',
            FillRect Black (globalAlpha c) (filter c) 0 0 (width p) (height p)
            :: DrawImage img 1 (filter c) x y w h :: rest) ∧
    x <= 0 ∧ y <= 0 ∧ width p <= x + w ∧ height p <= y + h ∧
    x + w / 2 == width p / 2 ∧ y + h / 2 == height p / 2 ∧
    w <= 1.15 * width p ∧ h <= 1.15 * height p.
Proof.
  intros t Hw Hh Hcur Hidx Hcov Himg.
  destruct (paint_shape p time c i cur Hcur Hidx)
    as (c' & trans & Hpaint & _).
  fold t in Hpaint. unfold baseLayer in Hpaint. rewrite Himg in Hpaint.
  rewrite drawScene_trace in Hpaint by lra. simpl in Hpaint.
  eexists _, _, _, _, _, _. split; [exact Hpaint|].
  apply covers_iff in Hcov as [Hs He].
  assert (end_ cur == start cur + duration cur) as Hend.
  { pose proof (timelineFrom_end VideoCanvas.sceneDuration 0 (scenes p))
      as Hall.
    rewrite Forall_forall in Hall.
    rewrite (Hall cur); [reflexivity|].
    apply list_elem_of_lookup. by exists i. }
  destruct (progress_in_scene t _ _ _ Hend Hs He) as [H0 H1].
  set (pr := (t - start cur) / duration cur) in *.
  destruct (zoom_box (width p) pr Hw H0 H1) as (Hx1 & Hx2 & Hx3 & Hx4).
  destruct (zoom_box (height p) pr Hh H0 H1) as (Hy1 & Hy2 & Hy3 & Hy4).
  repeat split; assumption.
Qed.

Lemma current_image_fills_canvas_witness :
  ∃ c' rest x y w h,
    VideoCanvas.paint storyboard 6.5 defaultContext
    = Some (c',
            FillRect Black (globalAlpha defaultContext)
              (filter defaultContext) 0 0 (width storyboard)
              (height storyboard)
            :: DrawImage (sampleImage "b") 1 (filter defaultContext) x y w h
            :: rest) ∧
    x <= 0 ∧ y <= 0 ∧ width storyboard <= x + w ∧
    height storyboard <= y + h ∧
    x + w / 2 == width storyboard / 2 ∧ y + h / 2 == height storyboard / 2 ∧
    w <= 1.15 * width storyboard ∧ h <= 1.15 * height storyboard.
Proof.
  apply (current_image_fills_canvas storyboard 6.5 defaultContext 1
           secondEntry (sampleImage "b")).
  - simpl. lra.
  - simpl. lra.
  - reflexivity.
  - reflexivity.
  - reflexivity.
  - reflexivity.
Defined.

(** ** Invariants of the reachable refs *)

Lemma preserving_unchanged {A : Type} (I : Refs → Prop) (m : M A) :
  (∀ env s, refsOf (m env s) = s) → preserving I m.
Proof. intros H env s Hs. by rewrite H. Qed.

Lemma preserving_modify (I : Refs → Prop) (f : Refs → Refs) :
  (∀ s, I s → I (f s)) → preserving I (modify f).
Proof. intros H env s Hs. by apply H. Qed.

Lemma preserving_tryCatch (I : Refs → Prop) (m h : M unit) :
  preserving I m → preserving I h → preserving I (tryCatch m h).
Proof.
  intros Hm Hh env s Hs. specialize (Hm env s Hs). unfold tryCatch.
  destruct (m env s) as [[[a|] s1] t1]; unfold refsOf in *; simpl in *;
    [exact Hm|].
  apply (Hh env s1 Hm).
Qed.

Lemma preserving_forEach {A : Type} (I : Refs → Prop) (l : list A)
    (f : A → M unit) :
  (∀ x, preserving I (f x)) → preserving I (forEach l f).
Proof.
  intros Hf. induction l as [|x l IH]; simpl.
  - by apply preserving_unchanged.
  - apply preserving_bind; [apply Hf | intros _; exact IH].
Qed.

(** Discharge [preserving] along the structure of a handler; [leaf] closes
    the steps that touch the part of the refs the invariant reads. *)
Ltac pres leaf :=
  repeat first
    [ leaf
    | apply preserving_unchanged; reflexivity
    | apply preserving_modify; intros ? ?; assumption
    | apply preserving_forEach; intros ?
    | apply preserving_tryCatch
    | apply preserving_bind; [|intros ?]
    | match goal with
      | |- preserving _ (when ?b _) => destruct b; unfold when
      | |- preserving _ (if ?b then _ else _) => destruct b
      | |- preserving _ (match ?x with _ => _ end) => destruct x
      end ].

Lemma paint_clean (p : Props) (time : Q) (c c' : Ctx2D) (evs : list Event) :
  cleanContext c → VideoCanvas.paint p time c = Some (c', evs) →
  cleanContext c'.
Proof.
  intros (Ha & Hf & Hs) Hpaint.
  destruct (VideoCanvas.getTimeline p) as [|e0 tl] eqn:Htl.
  - unfold VideoCanvas.paint in Hpaint. rewrite Htl in Hpaint.
    simpl in Hpaint. injection Hpaint as <- _. by repeat split.
  - assert (VideoCanvas.getTimeline p ≠ []) as Hne by (by rewrite Htl).
    pose proof (currentIndex_range p (VideoCanvas.clamp p time) Hne)
      as Hrange.
    destruct (VideoCanvas.getTimeline p
              !! Z.to_nat (VideoCanvas.currentIndex p
                             (VideoCanvas.clamp p time)))
      as [cur|] eqn:Hcur; [|apply lookup_ge_None in Hcur; lia].
    destruct (paint_shape p time c _ cur Hcur)
      as (c2 & trans & Hrun & _ & _ & Ha2 & Hf2 & Hs2); [lia|].
    rewrite Hrun in Hpaint. injection Hpaint as <- _.
    unfold cleanContext, frameAlpha in *.
    rewrite Ha2, Hf2, Hs2.
    destruct (VideoCanvas.readyImage p cur); by repeat split.
Qed.

Lemma renderCanvas_keeps_ready (p : Props) (time : Q) :
  preserving canvasReady (VideoCanvas.renderCanvas p time).
Proof.
  intros env s (c & Hc & Hclean). unfold VideoCanvas.renderCanvas.
  rewrite bind_get, Hc.
  destruct (VideoCanvas.paint p time c) as [[c' evs]|] eqn:Hpaint;
    [|by exists c].
  rewrite bind_emitAll. unfold modify, after, refsOf. simpl.
  exists c'. split; [reflexivity|]. by eapply paint_clean.
Qed.

Lemma handlers_keep_canvas_ready (p : Props) (call : Call) :
  preserving canvasReady (handler p call).
Proof.
  destruct call as [| | | | |[| |]| |]; simpl;
    unfold VideoCanvas.play, VideoCanvas.pause, VideoCanvas.record,
      VideoCanvas.handleStop, VideoCanvas.drawFrame, VideoCanvas.preRoll,
      VideoCanvas.postRoll, VideoCanvas.ondataavailable, VideoCanvas.onstop,
      VideoCanvas.handleStop, VideoCanvas.scheduleAudio,
      VideoCanvas.pushSource;
    pres ltac:(apply renderCanvas_keeps_ready).
Qed.

Lemma reachable_canvas_ready (s : Refs) : reachable s → canvasReady s.
Proof.
  induction 1 as [|p call env s _ IH].
  - exists defaultContext. by repeat split.
  - by apply handlers_keep_canvas_ready.
Qed.

Lemma isDrawImage_opaqueFill (l : list Event) :
  Forall (λ e, isDrawImage e = true) l → Forall opaqueFill l.
Proof.
  intros H. eapply Forall_impl; [exact H|].
  intros [] He; try discriminate He; exact I.
Qed.

Lemma paint_opaque (p : Props) (time : Q) (c : Ctx2D) :
  cleanContext c →
  ∃ c' rest,
    VideoCanvas.paint p time c
    = Some (c', FillRect Black 1 None 0 0 (width p) (height p) :: rest) ∧
    Forall opaqueFill rest.
Proof.
  intros (Ha & Hf & Hs).
  destruct (VideoCanvas.getTimeline p) as [|e0 tl] eqn:Htl.
  - unfold VideoCanvas.paint. rewrite Htl. simpl.
    unfold VideoCanvas.fillRect. simpl. rewrite Ha, Hf.
    eexists _, _. split; [reflexivity | constructor].
  - assert (VideoCanvas.getTimeline p ≠ []) as Hne by (by rewrite Htl).
    pose proof (currentIndex_range p (VideoCanvas.clamp p time) Hne)
      as Hrange.
    destruct (VideoCanvas.getTimeline p
              !! Z.to_nat (VideoCanvas.currentIndex p
                             (VideoCanvas.clamp p time)))
      as [cur|] eqn:Hcur; [|apply lookup_ge_None in Hcur; lia].
    destruct (paint_shape p time c _ cur Hcur)
      as (c2 & trans & Hrun & Htr & _); [lia|].
    rewrite Hrun, Ha, Hf. eexists _, _. split; [reflexivity|].
    apply Forall_app. split; [|apply Forall_app; split].
    + apply isDrawImage_opaqueFill. unfold baseLayer, VideoCanvas.drawScene.
      destruct (VideoCanvas.readyImage p cur); repeat constructor.
    + by apply isDrawImage_opaqueFill.
    + unfold overlay, frameAlpha. rewrite Ha, Hf.
      destruct (VideoCanvas.readyImage p cur);
        destruct (default false _ && _); repeat constructor.
Qed.

(** X6.  In every state the handlers reach from the mounted component, a
    call of [renderCanvas] returns and repaints the whole frame: its first
    event is the black rectangle over the whole canvas, filled opaque and
    unfiltered, and every rectangle after it, vignette and hook bar, is
    opaque and unfiltered as well.  The opacity and the blur of a transition
    never leak into them, nor into the next frame. *)
Theorem frames_are_repainted_opaque (p : Props) (time : Q) (env : Env)
    (s : Refs) :
  reachable s →
  let r := VideoCanvas.renderCanvas p time env s in
  returns r = true ∧
  (∃ rest,
     traceOf r = FillRect Black 1 None 0 0 (width p) (height p) :: rest ∧
     Forall opaqueFill rest) ∧
  canvasReady (refsOf r).
Proof.
  intros Hreach. cbv zeta.
  pose proof (reachable_canvas_ready s Hreach) as Hready.
  split; [|split].
  - destruct Hready as (c & Hc & Hclean).
    unfold VideoCanvas.renderCanvas. rewrite bind_get, Hc.
    destruct (paint_opaque p time c Hclean) as (c' & rest & -> & _).
    rewrite bind_emitAll. reflexivity.
  - destruct Hready as (c & Hc & Hclean).
    unfold VideoCanvas.renderCanvas. rewrite bind_get, Hc.
    destruct (paint_opaque p time c Hclean) as (c' & rest & -> & Hrest).
    rewrite bind_emitAll. unfold modify, after, traceOf. simpl.
    rewrite app_nil_r. by exists rest.
  - by apply renderCanvas_keeps_ready.
Qed.

Lemma frames_are_repainted_opaque_witness :
  let r :=
    VideoCanvas.renderCanvas storyboard 6.5 (sampleEnv 0 0)
      (refsOf (VideoCanvas.play storyboard (sampleEnv 0 0) mounted)) in
  returns r = true ∧
  (∃ rest,
     traceOf r
     = FillRect Black 1 None 0 0 (width storyboard) (height storyboard)
       :: rest ∧
     Forall opaqueFill rest) ∧
  canvasReady (refsOf r).
Proof.
  apply (frames_are_repainted_opaque storyboard 6.5 (sampleEnv 0 0)).
  apply (reachable_call storyboard CallPlay (sampleEnv 0 0) mounted).
  apply reachable_mounted.
Defined.

(** ** The music bed *)

Lemma quot_is_floor (q : Q) :
  0 <= q → Z.quot (Qnum q) (Zpos (Qden q)) = Qfloor q.
Proof.
  intros H. destruct q as [n d]. unfold Qfloor. simpl.
  apply Z.quot_div_nonneg; [|lia].
  unfold Qle in H. simpl in H. lia.
Qed.

Lemma jsRem_bounds (x d : Q) :
  0 <= x → 0 < d →
  0 <= jsRem x d ∧ jsRem x d < d ∧
  ∃ k : Z, (0 <= k)%Z ∧ x == d * inject_Z k + jsRem x d.
Proof.
  intros Hx Hd. unfold jsRem.
  assert (0 <= x / d) as Hq by (apply Qle_shift_div_l; lra).
  rewrite (quot_is_floor _ Hq).
  pose proof (Qfloor_le (x / d)) as Hlo.
  pose proof (Qlt_floor (x / d)) as Hhi.
  set (k := Qfloor (x / d)) in *.
  assert (x == d * (x / d)) as Hxd by (field; lra).
  assert (inject_Z (k + 1) == inject_Z k + 1) as Hk1
    by (rewrite inject_Z_plus; reflexivity).
  rewrite Hk1 in Hhi.
  assert (d * inject_Z k <= d * (x / d)) by (apply Qmult_le_l; assumption).
  assert (d * (x / d) < d * (inject_Z k + 1))
    by (apply Qmult_lt_l; assumption).
  split; [lra|]. split; [lra|].
  exists k. split; [|ring].
  assert (0 <= k)%Z; [|assumption].
  { subst k. change 0%Z with (Qfloor 0). by apply Qfloor_resp_le. }
Qed.

(** X7.  With a music buffer of positive length and a non-negative offset
    [t0], a pass of [scheduleAudio] first pushes one looping node for the
    music, at gain 0.15, started at once and never stopped, reading from
    [t0] reduced modulo the length of the buffer: a position from 0 up to,
    not including, that length, which differs from [t0] by a whole number of
    loops. *)
Theorem music_resumes_in_the_loop (p : Props) (env : Env) (s : Refs)
    (t0 : Q) (bg : AudioBuffer) :
  audioContextRef s = true → destinationRef s = true →
  bgMusicBuffer p = Some bg → 0 < buf_duration bg → 0 <= t0 →
  ∃ node rest,
    activeSourcesRef (refsOf (VideoCanvas.scheduleAudio p t0 env s))
    = activeSourcesRef s ++ node :: rest ∧
    rest = omap (VideoCanvas.narrationSource p (currentTime env) t0)
             (VideoCanvas.getTimeline p) ∧
    node_buffer node = bg ∧ node_loop node = true ∧
    node_gain node = 0.15 ∧ node_when node = 0 ∧ node_stop node = None ∧
    0 <= node_offset node ∧ node_offset node < buf_duration bg ∧
    ∃ loops : Z,
      (0 <= loops)%Z ∧
      t0 == buf_duration bg * inject_Z loops + node_offset node.
Proof.
  intros Ha Hd Hbg Hlen Ht0. rewrite scheduleAudio_run by done.
  unfold refsOf, VideoCanvas.scheduled. simpl. rewrite Hbg.
  destruct (jsRem_bounds t0 (buf_duration bg) Ht0 Hlen) as (H0 & H1 & Hk).
  eexists _, _. split; [reflexivity|]. simpl. repeat split; assumption.
Qed.

Lemma music_resumes_in_the_loop_witness :
  ∃ node rest,
    activeSourcesRef
      (refsOf (VideoCanvas.scheduleAudio storyboard 125 (sampleEnv 0 12)
                 mounted))
    = activeSourcesRef mounted ++ node :: rest ∧
    rest = omap (VideoCanvas.narrationSource storyboard 12 125)
             (VideoCanvas.getTimeline storyboard) ∧
    node_buffer node = {| buf_label := "bg"; buf_duration := 60 |} ∧
    node_loop node = true ∧
    node_gain node = 0.15 ∧ node_when node = 0 ∧ node_stop node = None ∧
    0 <= node_offset node ∧ node_offset node < 60 ∧
    ∃ loops : Z,
      (0 <= loops)%Z ∧ 125 == 60 * inject_Z loops + node_offset node.
Proof.
  apply (music_resumes_in_the_loop storyboard (sampleEnv 0 12) mounted 125
           {| buf_label := "bg"; buf_duration := 60 |});
    try reflexivity; simpl; lra.
Defined.

(** ** Narrations do not overlap *)

(** X8.  When no duration estimate is negative, two narration nodes that a
    pass of [scheduleAudio] creates for two entries of the timeline never
    sound together: the node of the earlier entry is stopped no later than
    the node of the later entry begins. *)
Theorem narrations_never_overlap (p : Props) (now t0 : Q) (i j : nat)
    (a b : TimelineEntry) (n m : SourceNode) :
  Forall (λ sc, 0 <= durationEstimate sc) (scenes p) → 0 <= now →
  (i < j)%nat →
  VideoCanvas.getTimeline p !! i = Some a →
  VideoCanvas.getTimeline p !! j = Some b →
  VideoCanvas.narrationSource p now t0 a = Some n →
  VideoCanvas.narrationSource p now t0 b = Some m →
  ∃ stop, node_stop n = Some stop ∧ stop <= beginsAt now m.
Proof.
  intros Hpos Hnow Hij Ha Hb Hn Hm.
  destruct (timelineFrom_ordered _ _ _ _ _ _ _ Hpos Hij Ha Hb) as [Hdur Hord].
  unfold VideoCanvas.narrationSource in Hn, Hm.
  destruct (assets p !! id (scene a) ≫= audioBuffer); [|done].
  destruct (assets p !! id (scene b) ≫= audioBuffer); [|done].
  assert (∃ stop, node_stop n = Some stop ∧ stop == now + end_ a - t0
                  ∧ t0 <= end_ a) as (stop & Hs & Heq & Hle).
  { destruct (Qle_bool 0 (start a - t0)) eqn:E.
    - apply Qle_bool_iff in E. injection Hn as <-.
      eexists. simpl. split; [reflexivity|]. split; [ring | lra].
    - destruct (Qltb t0 (end_ a)) eqn:E2; [|done].
      apply Qltb_lt in E2. injection Hn as <-.
      eexists. simpl. split; [reflexivity|]. split; [ring | lra]. }
  exists stop. split; [exact Hs|]. rewrite Heq.
  destruct (Qle_bool 0 (start b - t0)) eqn:Eb.
  - apply Qle_bool_iff in Eb. injection Hm as <-.
    unfold beginsAt. simpl. rewrite Q.max_l by lra. lra.
  - apply Qle_bool_gt in Eb. lra.
Qed.

Lemma narrations_never_overlap_witness :
  ∃ stop,
    node_stop {| node_buffer := {| buf_label := "n1"; buf_duration := 3.5 |};
                 node_loop := false; node_gain := 1; node_when := 12 + (0 - 0);
                 node_offset := 0; node_stop := Some (12 + (0 + 4) - 0) |}
    = Some stop ∧
    stop <= beginsAt 12
              {| node_buffer := {| buf_label := "n3"; buf_duration := 9 |};
                 node_loop := false; node_gain := 1;
                 node_when := 12 + (0 + 4 + 3 - 0); node_offset := 0;
                 node_stop := Some (12 + (0 + 4 + 3 + 5) - 0) |}.
Proof.
  apply (narrations_never_overlap storyboard 12 0 0 2
           {| scene := sampleScene 1 4 None; start := 0; duration := 4;
              end_ := 0 + 4 |} thirdEntry).
  - repeat constructor; simpl; lra.
  - lra.
  - lia.
  - reflexivity.
  - reflexivity.
  - reflexivity.
  - reflexivity.
Defined.

(** ** Stopping *)

(** X9.  [handleStop] can be repeated: a second call, at any later moment,
    leaves the refs exactly as the first call left them, stops no node and
    no recorder, and makes no call but the cancellation of the frame handle,
    which the first call does not clear.  After the first call nothing
    plays and no node is active. *)
Theorem handleStop_idempotent (env env' : Env) (s : Refs) :
  let first := VideoCanvas.handleStop env s in
  let second := VideoCanvas.handleStop env' (refsOf first) in
  refsOf second = refsOf first ∧
  traceOf second
  = (if (requestRef s =? 0)%Z then []
     else [CancelAnimationFrame (requestRef s)]) ∧
  isPlayingRef (refsOf first) = false ∧
  activeSourcesRef (refsOf first) = [].
Proof.
  cbv zeta. rewrite (handleStop_run env s). cbv zeta.
  destruct (isRecordingRef s && VideoCanvas.recorderNotInactive s) eqn:Hb;
    [destruct (mediaRecorderRef s) as [r|] eqn:Hmr|];
    change (refsOf (?a, ?r, ?t)) with r;
    rewrite handleStop_run; cbv zeta;
    unfold VideoCanvas.recorderNotInactive, stopEvents, refsOf, traceOf in *;
    simpl; rewrite ?Hmr in *; rewrite ?Hb; simpl; repeat split.
Qed.

(** X10.  Once [pause] or [handleStop] has run, a frame callback that was
    still queued does nothing: [drawFrame] returns without an event and
    leaves the refs as they are, so the loop does not restart itself. *)
Theorem queued_frame_after_stop_is_inert (p : Props) (env env' : Env)
    (s : Refs) :
  let paused := refsOf (VideoCanvas.pause env s) in
  let stopped := refsOf (VideoCanvas.handleStop env s) in
  VideoCanvas.drawFrame p env' paused = (Some tt, paused, []) ∧
  VideoCanvas.drawFrame p env' stopped = (Some tt, stopped, []).
Proof.
  cbv zeta. split.
  - rewrite pause_run. unfold refsOf. simpl.
    unfold VideoCanvas.drawFrame. rewrite bind_get, bind_ask. reflexivity.
  - assert (isPlayingRef (refsOf (VideoCanvas.handleStop env s)) = false)
      as Hp.
    { rewrite handleStop_run. cbv zeta.
      destruct (isRecordingRef s && VideoCanvas.recorderNotInactive s);
        [destruct (mediaRecorderRef s)|]; reflexivity. }
    unfold VideoCanvas.drawFrame. rewrite bind_get, bind_ask.
    cbv beta. by rewrite Hp.
Qed.

(** ** Ticks *)

Lemma paint_only_paints (p : Props) (time : Q) (c c' : Ctx2D)
    (evs : list Event) :
  VideoCanvas.paint p time c = Some (c', evs) →
  Forall (λ e, isPaint e = true) evs.
Proof.
  intros Hpaint.
  destruct (VideoCanvas.getTimeline p) as [|e0 tl] eqn:Htl.
  - unfold VideoCanvas.paint in Hpaint. rewrite Htl in Hpaint.
    simpl in Hpaint. injection Hpaint as _ <-. by repeat constructor.
  - assert (VideoCanvas.getTimeline p ≠ []) as Hne by (by rewrite Htl).
    pose proof (currentIndex_range p (VideoCanvas.clamp p time) Hne)
      as Hrange.
    destruct (VideoCanvas.getTimeline p
              !! Z.to_nat (VideoCanvas.currentIndex p
                             (VideoCanvas.clamp p time)))
      as [cur|] eqn:Hcur; [|apply lookup_ge_None in Hcur; lia].
    destruct (paint_shape p time c _ cur Hcur)
      as (c2 & trans & Hrun & Htr & _); [lia|].
    rewrite Hrun in Hpaint. injection Hpaint as _ <-.
    constructor; [reflexivity|].
    apply Forall_app. split; [|apply Forall_app; split].
    + unfold baseLayer, VideoCanvas.drawScene.
      destruct (VideoCanvas.readyImage p cur); repeat constructor.
    + eapply Forall_impl; [exact Htr|]. intros [] He; by try discriminate He.
    + unfold overlay. destruct (default false _ && _); repeat constructor.
Qed.

Lemma renderCanvas_frame (p : Props) (time : Q) (env : Env) (s : Refs) :
  ∃ s' evs,
    VideoCanvas.renderCanvas p time env s = (Some tt, s', evs) ∧
    (s' = s ∨ ∃ c', s' = set_canvas c' s) ∧
    Forall (λ e, isPaint e = true) evs.
Proof.
  unfold VideoCanvas.renderCanvas. rewrite bind_get.
  destruct (canvasRef s) as [[c|]|];
    try (eexists _, _; split; [reflexivity|]; split; [by left|constructor]).
  destruct (VideoCanvas.paint p time c) as [[c' evs]|] eqn:Hpaint;
    [|by destruct (paint_total p time c) as [? H]; rewrite Hpaint in H].
  rewrite bind_emitAll.
  eexists _, _. split; [reflexivity|]. split; [right; by exists c'|].
  rewrite app_nil_r. by eapply paint_only_paints.
Qed.

Lemma paints_filtered_out (f : Event → bool) (evs : list Event) :
  (∀ e, isPaint e = true → f e = false) →
  Forall (λ e, isPaint e = true) evs → List.filter f evs = [].
Proof.
  intros Hf Hall. apply filter_all_false.
  eapply Forall_impl; [exact Hall | exact Hf].
Qed.

Lemma totalDuration_empty (p : Props) :
  scenes p = [] → VideoCanvas.totalDuration p = 0.
Proof. intros H. by destruct (empty_timeline p H). Qed.

Lemma tick_index (p : Props) (t : Q) :
  scenes p ≠ [] →
  (let timeline := VideoCanvas.getTimeline p in
   let currentIdx := findIndex (VideoCanvas.covers t) timeline in
   if (currentIdx =? -1)%Z && (0 <? length timeline)%nat
   then (Z.of_nat (length timeline) - 1)%Z else currentIdx)
  = VideoCanvas.currentIndex p t
  ∧ (0 <= VideoCanvas.currentIndex p t < Z.of_nat (length (scenes p)))%Z.
Proof.
  intros Hne. cbv zeta.
  assert (length (VideoCanvas.getTimeline p) = length (scenes p)) as Hlen
    by apply timelineFrom_length.
  assert (VideoCanvas.getTimeline p ≠ []) as Htl.
  { intros E. rewrite E in Hlen. by destruct (scenes p). }
  split.
  - unfold VideoCanvas.currentIndex.
    assert ((0 <? length (VideoCanvas.getTimeline p))%nat = true) as ->.
    { apply Nat.ltb_lt. destruct (VideoCanvas.getTimeline p); simpl; [done|].
      lia. }
    by rewrite andb_true_r.
  - rewrite <- Hlen. by apply currentIndex_range.
Qed.

(** X11.  A tick while playing, at an elapsed time from 0 up to, not
    including, the total duration, returns and makes these calls in this
    order: one [onProgress] with the elapsed time, the total duration and
    the index of the entry that the same tick renders, which is a valid
    index of the scenes; the frame of [renderCanvas] at the elapsed time;
    one request for the next frame.  It calls no [onPlaybackEnd], stays
    playing and stores the new frame handle. *)
Theorem playing_tick_reports_progress (p : Props) (env : Env) (s : Refs) :
  let elapsed := (dateNow env - startTimeRef s) / 1000 in
  let idx := VideoCanvas.currentIndex p (VideoCanvas.clamp p elapsed) in
  isPlayingRef s = true → 0 <= elapsed → elapsed < VideoCanvas.totalDuration p →
  let r := VideoCanvas.drawFrame p env s in
  returns r = true ∧
  traceOf r
  = OnProgress elapsed (VideoCanvas.totalDuration p) idx
    :: traceOf (VideoCanvas.renderCanvas p elapsed env s)
    ++ [RequestAnimationFrame] ∧
  (0 <= idx < Z.of_nat (length (scenes p)))%Z ∧
  List.filter isOnPlaybackEnd (traceOf r) = [] ∧
  isPlayingRef (refsOf r) = true ∧ requestRef (refsOf r) = frameHandle env.
Proof.
  intros elapsed idx Hplay H0 Htot r.
  assert (scenes p ≠ []) as Hne.
  { intros E. rewrite (totalDuration_empty p E) in Htot. lra. }
  destruct (tick_index p (VideoCanvas.clamp p elapsed) Hne) as [Hidx Hrange].
  subst r. unfold VideoCanvas.drawFrame. rewrite bind_get, bind_ask.
  cbv beta. rewrite Hplay. cbn [negb]. fold elapsed.
  assert (Qle_bool (VideoCanvas.totalDuration p) elapsed = false) as ->
    by (by apply Qle_bool_gt).
  unfold VideoCanvas.clamp in Hidx. rewrite Hidx. fold idx.
  rewrite bind_emit.
  destruct (renderCanvas_frame p elapsed env s)
    as (s' & evs & Hrun & Hs' & Hevs).
  rewrite (bind_returned _ _ _ _ _ _ _ Hrun), requestFrame_run, Hrun.
  unfold after, returns, traceOf, refsOf. simpl.
  assert (isPlayingRef s' = true) as Hp'
    by (destruct Hs' as [-> | [c' ->]]; exact Hplay).
  repeat split; try assumption; try lia.
  rewrite List.filter_app. simpl. rewrite app_nil_r.
  apply paints_filtered_out; [|exact Hevs]. by intros [].
Qed.

Lemma playing_tick_reports_progress_witness :
  let s := refsOf (VideoCanvas.play storyboard (sampleEnv 1000 0) mounted) in
  let env := sampleEnv 7500 6.5 in
  let elapsed := (dateNow env - startTimeRef s) / 1000 in
  let idx :=
    VideoCanvas.currentIndex storyboard
      (VideoCanvas.clamp storyboard elapsed) in
  let r := VideoCanvas.drawFrame storyboard env s in
  returns r = true ∧
  traceOf r
  = OnProgress elapsed (VideoCanvas.totalDuration storyboard) idx
    :: traceOf (VideoCanvas.renderCanvas storyboard elapsed env s)
    ++ [RequestAnimationFrame] ∧
  (0 <= idx < Z.of_nat (length (scenes storyboard)))%Z ∧
  List.filter isOnPlaybackEnd (traceOf r) = [] ∧
  isPlayingRef (refsOf r) = true ∧ requestRef (refsOf r) = frameHandle env.
Proof.
  apply (playing_tick_reports_progress storyboard (sampleEnv 7500 6.5)
           (refsOf (VideoCanvas.play storyboard (sampleEnv 1000 0) mounted))).
  - reflexivity.
  - vm_compute. discriminate.
  - vm_compute. reflexivity.
Defined.

(** ** The end of a recording *)

Lemma handleStop_recording (env : Env) (s : Refs) (r : MediaRecorder) :
  isRecordingRef s = true → mediaRecorderRef s = Some r →
  rec_state r ≠ inactive →
  VideoCanvas.handleStop env s
  = (Some tt,
     set_isRecording false
       (set_mediaRecorder
          {| rec_state := inactive; rec_mimeType := rec_mimeType r |}
          (set_activeSources [] (set_isPlaying false s))),
     stopEvents s ++ [RecorderStop]).
Proof.
  intros Hrec Hr Hstate. rewrite handleStop_run. cbv zeta.
  unfold VideoCanvas.recorderNotInactive. rewrite Hrec, Hr.
  by destruct (rec_state r).
Qed.

(** X12.  A tick while playing and recording, at or past the total
    duration, paints the final frame, sets the one-second post-roll timer
    and returns: it calls no [onPlaybackEnd], stops no recorder, requests
    no frame.  When the timer fires with the recorder still active, the
    recorder is stopped once, [onPlaybackEnd] is called once, last, and the
    controller is left neither playing nor recording, its recorder
    inactive and no node active. *)
Theorem recording_ends_after_post_roll (p : Props) (env env' : Env)
    (s : Refs) (rec : MediaRecorder) :
  isPlayingRef s = true → isRecordingRef s = true →
  mediaRecorderRef s = Some rec → rec_state rec ≠ inactive →
  VideoCanvas.totalDuration p <= (dateNow env - startTimeRef s) / 1000 →
  let tick := VideoCanvas.drawFrame p env s in
  let ended := VideoCanvas.postRoll env' (refsOf tick) in
  returns tick = true ∧
  traceOf tick
  = traceOf (VideoCanvas.renderCanvas p (VideoCanvas.totalDuration p - 0.001)
               env s)
    ++ [SetTimeout PostRoll 1000] ∧
  List.filter isOnPlaybackEnd (traceOf tick) = [] ∧
  List.filter isRecorderStop (traceOf tick) = [] ∧
  returns ended = true ∧
  traceOf ended = stopEvents s ++ [RecorderStop; OnPlaybackEnd] ∧
  isPlayingRef (refsOf ended) = false ∧
  isRecordingRef (refsOf ended) = false ∧
  activeSourcesRef (refsOf ended) = [] ∧
  mediaRecorderRef (refsOf ended)
  = Some {| rec_state := inactive; rec_mimeType := rec_mimeType rec |}.
Proof.
  intros Hplay Hrec Hmr Hstate Hend. cbv zeta.
  unfold VideoCanvas.drawFrame. rewrite bind_get, bind_ask. cbv beta.
  rewrite Hplay. cbn [negb].
  apply Qle_bool_iff in Hend. rewrite Hend.
  destruct (renderCanvas_frame p (VideoCanvas.totalDuration p - 0.001) env s)
    as (s' & evs & Hrun & Hs' & Hevs).
  rewrite (bind_returned _ _ _ _ _ _ _ Hrun), bind_get, Hrun. cbv beta.
  assert (isRecordingRef s' = true ∧ mediaRecorderRef s' = Some rec ∧
          stopEvents s' = stopEvents s) as (Hrec' & Hmr' & Hstop').
  { destruct Hs' as [-> | [c' ->]]; by repeat split. }
  rewrite Hrec'. unfold emit, after.
  change (refsOf (?a, ?r, ?t)) with r.
  unfold VideoCanvas.postRoll.
  rewrite (bind_returned _ _ _ _ _ _ _
             (handleStop_recording env' s' rec Hrec' Hmr' Hstate)).
  unfold VideoCanvas.onPlaybackEnd, emit, after, returns, traceOf, refsOf.
  simpl. rewrite Hstop'.
  repeat split.
  - rewrite List.filter_app. simpl. rewrite app_nil_r.
    apply paints_filtered_out; [|exact Hevs]. by intros [].
  - rewrite List.filter_app. simpl. rewrite app_nil_r.
    apply paints_filtered_out; [|exact Hevs]. by intros [].
  - by rewrite <- app_assoc.
Qed.

Lemma recording_ends_after_post_roll_witness :
  let env := sampleEnv 12900 12.9 in
  let tick := VideoCanvas.drawFrame storyboard env exporting in
  let ended := VideoCanvas.postRoll (sampleEnv 13900 13.9) (refsOf tick) in
  returns tick = true ∧
  traceOf tick
  = traceOf (VideoCanvas.renderCanvas storyboard
               (VideoCanvas.totalDuration storyboard - 0.001) env exporting)
    ++ [SetTimeout PostRoll 1000] ∧
  List.filter isOnPlaybackEnd (traceOf tick) = [] ∧
  List.filter isRecorderStop (traceOf tick) = [] ∧
  returns ended = true ∧
  traceOf ended = stopEvents exporting ++ [RecorderStop; OnPlaybackEnd] ∧
  isPlayingRef (refsOf ended) = false ∧
  isRecordingRef (refsOf ended) = false ∧
  activeSourcesRef (refsOf ended) = [] ∧
  mediaRecorderRef (refsOf ended)
  = Some {| rec_state := inactive;
            rec_mimeType :=
              rec_mimeType
                {| rec_state := recording;
                   rec_mimeType := Some "video/webm;codecs=vp9"%string |} |}.
Proof.
  apply (recording_ends_after_post_roll storyboard (sampleEnv 12900 12.9)
           (sampleEnv 13900 13.9) exporting
           {| rec_state := recording;
              rec_mimeType := Some "video/webm;codecs=vp9"%string |}).
  - reflexivity.
  - reflexivity.
  - reflexivity.
  - discriminate.
  - vm_compute. discriminate.
Defined.

(** ** More invariants of the reachable refs *)

Lemma handlers_keep_audio_ready (p : Props) (call : Call) :
  preserving audioReady (handler p call).
Proof.
  destruct call as [| | | | |[| |]| |]; simpl;
    unfold VideoCanvas.play, VideoCanvas.pause, VideoCanvas.record,
      VideoCanvas.handleStop, VideoCanvas.drawFrame, VideoCanvas.preRoll,
      VideoCanvas.postRoll, VideoCanvas.ondataavailable, VideoCanvas.onstop,
      VideoCanvas.handleStop, VideoCanvas.scheduleAudio,
      VideoCanvas.pushSource, VideoCanvas.renderCanvas;
    pres ltac:(fail).
Qed.

Lemma reachable_audio_ready (s : Refs) : reachable s → audioReady s.
Proof.
  induction 1 as [|p call env s _ IH]; [by split|].
  by apply handlers_keep_audio_ready.
Qed.

Lemma newBlob_size_positive (chunks : list Blob) (type : option string) :
  Forall (λ b, (0 < blob_size b)%Z) chunks →
  (Z.of_nat (length chunks) <= blob_size (VideoCanvas.newBlob chunks type))%Z.
Proof.
  unfold VideoCanvas.newBlob. cbn [blob_size].
  induction 1 as [|b l Hb _ IH]; [reflexivity|].
  rewrite fmap_cons. cbn [foldr length]. lia.
Qed.

(** ** Starting a recording *)

(** The run of an accepted [record], at its three ends: the constructor of
    the recorder throws, [recorder.start()] throws, or neither does. *)
Lemma record_accepted_run (p : Props) (env : Env) (s : Refs) :
  reachable s →
  ¬ VideoCanvas.totalDuration p == 0 → VideoCanvas.validateAssets p = true →
  ∃ s1 t1 c' frame,
    VideoCanvas.handleStop env s = (Some tt, s1, t1) ∧
    Forall (λ e, isPaint e = true) frame ∧
    let resume :=
      if audioContextRef s && audioSuspended env then [AudioResume] else [] in
    let mime := VideoCanvas.getSupportedMimeType env in
    let s2 := set_chunks [] s1 in
    let stored :=
      set_isRecording true
        (set_mediaRecorder {| rec_state := inactive; rec_mimeType := mime |}
           s2) in
    VideoCanvas.record p env s
    = if recorderFails env then
        (Some tt, s2, t1 ++ resume ++ [OnPlaybackEnd])
      else if startFails env then
        (Some tt, stored, t1 ++ resume ++ [OnPlaybackEnd])
      else
        (Some tt,
         set_canvas c'
           (set_mediaRecorder
              {| rec_state := recording; rec_mimeType := mime |} stored),
         t1 ++ resume
         ++ RecorderStart mime
            :: FillRect Black 1 None 0 0 (width p) (height p)
            :: frame ++ [SetTimeout PreRoll 800]).
Proof.
  intros Hreach Htot Hvalid.
  destruct (handleStop_stored env s (reachable_stored s Hreach))
    as (s1 & t1 & Hstop & _ & _ & _ & _ & Hcv & Hac & Hdest & _ & _).
  destruct (reachable_canvas_ready s Hreach) as (c & Hc & Hclean).
  destruct (reachable_audio_ready s Hreach) as [Ha Hd].
  destruct (paint_opaque p 0 c Hclean) as (c' & frame & Hpaint & _).
  pose proof (paint_only_paints _ _ _ _ _ Hpaint) as Hframe.
  exists s1, t1, c', frame. split; [exact Hstop|].
  split; [by inversion Hframe|]. cbv zeta.
  unfold VideoCanvas.record.
  rewrite (bind_returned _ _ _ _ _ _ _ Hstop).
  assert (Qeq_bool (VideoCanvas.totalDuration p) 0 = false) as ->.
  { apply not_true_iff_false. intros E. by apply Qeq_bool_iff in E. }
  rewrite Hvalid. cbn [negb].
  rewrite (bind_returned _ _ _ _ _ _ _ (resumeIfSuspended_run env s1)).
  rewrite bind_modify, bind_get, bind_ask. cbv beta.
  change (canvasRef (set_chunks [] s1)) with (canvasRef s1).
  change (destinationRef (set_chunks [] s1)) with (destinationRef s1).
  rewrite Hcv, Hc, Hdest, Hd, Hac.
  assert (bool_decide (is_Some (Some (Some c))) = true) as ->
    by (apply bool_decide_eq_true; eauto).
  cbn [negb orb]. unfold tryCatch.
  destruct (recorderFails env).
  - rewrite bind_throw.
    unfold VideoCanvas.onPlaybackEnd, emit, after. simpl.
    by rewrite <- ?app_assoc.
  - rewrite bind_ret. cbv zeta. rewrite !bind_modify.
    destruct (startFails env).
    + rewrite bind_throw.
      unfold VideoCanvas.onPlaybackEnd, emit, after. simpl.
      by rewrite <- ?app_assoc.
    + rewrite bind_ret, bind_emit, bind_modify.
      set (s3 := set_mediaRecorder _ (set_isRecording true _)).
      assert (VideoCanvas.renderCanvas p 0 env s3
              = (Some tt, set_canvas c' s3,
                 FillRect Black 1 None 0 0 (width p) (height p) :: frame))
        as Hrender.
      { unfold VideoCanvas.renderCanvas. rewrite bind_get.
        change (canvasRef s3) with (canvasRef s1). rewrite Hcv, Hc.
        rewrite Hpaint, bind_emitAll. unfold modify, after. simpl.
        by rewrite app_nil_r. }
      rewrite (bind_returned _ _ _ _ _ _ _ Hrender).
      unfold emit, after. simpl.
      by rewrite ?app_nil_r, <- ?app_assoc.
Qed.

(** X14.  In a state the handlers reach from the mounted component, with a
    timeline of non-zero total duration whose every scene has a loaded
    image, [record] returns, raises no alert, schedules no audio, does not
    start playing yet and leaves the list of chunks empty.  It ends in one
    of three ways.  When creating the encoder throws, it starts nothing and
    paints nothing, calls [onPlaybackEnd] once, and the recording flag is as
    the stop routine left it.  When [recorder.start()] throws, it likewise
    starts nothing, paints nothing, sets no timer and calls [onPlaybackEnd]
    once, but the recorder is already stored, inactive, and the recording
    flag is left up.  Otherwise it starts one recorder, with the first
    supported MIME type, paints frame 0 right after, black rectangle first,
    and sets the 800 ms pre-roll timer last, without calling
    [onPlaybackEnd]; the recording flag is up over the running recorder. *)
Theorem record_starts (p : Props) (env : Env) (s : Refs) :
  reachable s →
  ¬ VideoCanvas.totalDuration p == 0 → VideoCanvas.validateAssets p = true →
  let r := VideoCanvas.record p env s in
  let mime := VideoCanvas.getSupportedMimeType env in
  returns r = true ∧
  List.filter isAlert (traceOf r) = [] ∧
  isPlayingRef (refsOf r) = false ∧ activeSourcesRef (refsOf r) = [] ∧
  chunksRef (refsOf r) = [] ∧
  if recorderFails env then
    List.filter isRecorderStart (traceOf r) = [] ∧
    List.filter isReschedule (traceOf r) = [] ∧
    List.filter isPaint (traceOf r) = [] ∧
    List.filter isOnPlaybackEnd (traceOf r) = [OnPlaybackEnd] ∧
    isRecordingRef (refsOf r) = flagAfterStop s
  else if startFails env then
    List.filter isRecorderStart (traceOf r) = [] ∧
    List.filter isReschedule (traceOf r) = [] ∧
    List.filter isPaint (traceOf r) = [] ∧
    List.filter isOnPlaybackEnd (traceOf r) = [OnPlaybackEnd] ∧
    isRecordingRef (refsOf r) = true ∧
    mediaRecorderRef (refsOf r)
    = Some {| rec_state := inactive; rec_mimeType := mime |}
  else
    (∃ before frame,
       traceOf r
       = before
         ++ RecorderStart mime
         :: FillRect Black 1 None 0 0 (width p) (height p)
         :: frame ++ [SetTimeout PreRoll 800] ∧
       List.filter isRecorderStart before = [] ∧
       Forall (λ e, isPaint e = true) frame) ∧
    List.filter isReschedule (traceOf r) = [SetTimeout PreRoll 800] ∧
    List.filter isOnPlaybackEnd (traceOf r) = [] ∧
    isRecordingRef (refsOf r) = true ∧
    mediaRecorderRef (refsOf r)
    = Some {| rec_state := recording; rec_mimeType := mime |}.
Proof.
  intros Hreach Htot Hvalid. cbv zeta.
  destruct (record_accepted_run p env s Hreach Htot Hvalid)
    as (s1 & t1 & c' & frame & Hstop & Hframe & Hrun).
  cbv zeta in Hrun.
  destruct (handleStop_stored env s (reachable_stored s Hreach))
    as (s1' & t1' & Hstop' & Hplay & Hsrc & Hrec & _ & _ & _ & _ & _ & Ht1).
  rewrite Hstop in Hstop'. injection Hstop' as <- <-.
  set (resume := if audioContextRef s && audioSuspended env
                 then [AudioResume] else []) in *.
  assert (∀ f, (∀ e, f e = true → isStopping e = false) →
               List.filter f t1 = []) as Hstopped.
  { intros f Hf. apply filter_all_false. rewrite Ht1.
    apply Forall_app. split.
    - eapply Forall_impl; [apply stopEvents_stopping|]. intros e He.
      destruct (f e) eqn:Hfe; [|done]. apply Hf in Hfe. congruence.
    - destruct (isRecordingRef s && VideoCanvas.recorderNotInactive s);
        [|constructor].
      constructor; [|constructor].
      destruct (f RecorderStop) eqn:Hfe; [|done]. by apply Hf in Hfe. }
  assert (∀ f, f AudioResume = false → List.filter f resume = [])
    as Hresumed.
  { intros f Hres. subst resume. destruct (_ && _); simpl; by rewrite ?Hres. }
  assert (∀ f, (∀ e, isPaint e = true → f e = false) →
               List.filter f frame = []) as Hpainted
    by (intros f Hf; by apply paints_filtered_out).
  rewrite Hrun.
  destruct (recorderFails env); [|destruct (startFails env)];
    unfold returns, traceOf, refsOf; cbn [fst snd].
  - rewrite !List.filter_app.
    rewrite !Hstopped, !Hresumed by (by intros [] || done).
    by repeat split.
  - rewrite !List.filter_app.
    rewrite !Hstopped, !Hresumed by (by intros [] || done).
    by repeat split.
  - simpl. repeat split; try assumption.
    + rewrite !List.filter_app. simpl. rewrite List.filter_app.
      rewrite Hstopped, Hresumed, Hpainted by (by intros [] || done).
      reflexivity.
    + exists (t1 ++ resume), frame. split; [by rewrite <- app_assoc|].
      split; [|exact Hframe]. rewrite List.filter_app.
      by rewrite Hstopped, Hresumed by (by intros [] || done).
    + rewrite !List.filter_app. simpl. rewrite List.filter_app.
      rewrite Hstopped, Hresumed, Hpainted by (by intros [] || done).
      reflexivity.
    + rewrite !List.filter_app. simpl. rewrite List.filter_app.
      rewrite Hstopped, Hresumed, Hpainted by (by intros [] || done).
      reflexivity.
Qed.

Lemma record_starts_witness :
  (let r := VideoCanvas.record storyboard (sampleEnv 0 0) mounted in
   returns r = true ∧
   List.filter isAlert (traceOf r) = [] ∧
   List.filter isReschedule (traceOf r) = [SetTimeout PreRoll 800] ∧
   isRecordingRef (refsOf r) = true ∧
   mediaRecorderRef (refsOf r)
   = Some {| rec_state := recording;
             rec_mimeType := Some "video/webm;codecs=vp9"%string |}) ∧
  (let r := VideoCanvas.record storyboard (startFailing 300 0.3) armed in
   List.filter isRecorderStart (traceOf r) = [] ∧
   List.filter isReschedule (traceOf r) = [] ∧
   List.filter isOnPlaybackEnd (traceOf r) = [OnPlaybackEnd] ∧
   isRecordingRef (refsOf r) = true ∧
   mediaRecorderRef (refsOf r)
   = Some {| rec_state := inactive;
             rec_mimeType := Some "video/webm;codecs=vp9"%string |}).
Proof.
  assert (¬ VideoCanvas.totalDuration storyboard == 0) as Hd
    by (intros H; vm_compute in H; discriminate).
  split.
  - destruct (record_starts storyboard (sampleEnv 0 0) mounted
                reachable_mounted Hd eq_refl)
      as (Hret & Halert & _ & _ & _ & _ & Hre & _ & Hrec & Hmr).
    repeat split; assumption.
  - assert (reachable armed) as Hreach
      by apply (reachable_call storyboard CallRecord), reachable_mounted.
    destruct (record_starts storyboard (startFailing 300 0.3) armed
                Hreach Hd eq_refl)
      as (_ & _ & _ & _ & _ & Hst & Hre & _ & Hend & Hrec & Hmr).
    repeat split; assumption.
Defined.

(** ** The chunks of a recording *)

Lemma handler_keeps_chunks (p : Props) (c : Call) (l : list Blob) :
  isRecordCall c = false → dataOf c = None →
  preserving (λ s, chunksRef s = l) (handler p c).
Proof.
  intros Hrec Hdata.
  destruct c as [| | | | |[| |]|d|]; try discriminate Hrec; simpl;
    unfold VideoCanvas.play, VideoCanvas.pause,
      VideoCanvas.handleStop, VideoCanvas.drawFrame, VideoCanvas.preRoll,
      VideoCanvas.postRoll, VideoCanvas.onstop,
      VideoCanvas.handleStop, VideoCanvas.scheduleAudio,
      VideoCanvas.pushSource, VideoCanvas.renderCanvas;
    try (pres ltac:(fail)).
  simpl in Hdata. unfold VideoCanvas.ondataavailable.
  destruct (0 <? blob_size d)%Z; [done|]. by apply preserving_unchanged.
Qed.

Lemma handler_chunks (p : Props) (c : Call) (env : Env) (s : Refs) :
  isRecordCall c = false →
  chunksRef (refsOf (handler p c env s))
  = chunksRef s ++ option_list (dataOf c).
Proof.
  intros Hrec. destruct (dataOf c) as [d|] eqn:Hdata.
  - destruct c; try discriminate Hdata. simpl in *.
    unfold VideoCanvas.ondataavailable.
    destruct (0 <? blob_size data)%Z; [|done]. by injection Hdata as ->.
  - simpl. rewrite app_nil_r.
    by apply (handler_keeps_chunks p c (chunksRef s) Hrec Hdata env s).
Qed.

Lemma runCalls_chunks (ms : list Moment) (s : Refs) :
  Forall (λ m, isRecordCall (at_call m) = false) ms →
  chunksRef (runCalls ms s) = chunksRef s ++ omap (dataOf ∘ at_call) ms.
Proof.
  intros Hms. revert s.
  induction Hms as [|m ms Hm _ IH]; intros s; simpl.
  - by rewrite app_nil_r.
  - rewrite IH, handler_chunks by done.
    destruct (dataOf (at_call m)); simpl; by rewrite <- ?app_assoc.
Qed.

Lemma kept_positive (ms : list Moment) :
  Forall (λ b, (0 < blob_size b)%Z) (omap (dataOf ∘ at_call) ms).
Proof.
  induction ms as [|m ms IH]; simpl; [constructor|].
  destruct (dataOf (at_call m)) as [d|] eqn:Hd; simpl; [|exact IH].
  constructor; [|exact IH].
  destruct (at_call m); try discriminate Hd. simpl in Hd.
  destruct (0 <? blob_size data)%Z eqn:E; [|done].
  injection Hd as <-. by apply Z.ltb_lt.
Qed.

Lemma kept_none (ms : list Moment) :
  omap (dataOf ∘ at_call) ms = [] ↔
  Forall (λ m, dataOf (at_call m) = None) ms.
Proof.
  induction ms as [|m ms IH]; simpl; [by split|].
  destruct (dataOf (at_call m)) as [d|] eqn:Hd; simpl.
  - split; [done|]. intros H. inversion H. congruence.
  - rewrite IH. split.
    + intros H. by constructor.
    + intros H. by inversion H.
Qed.

(** X13.  After an accepted [record] from a reachable state, and any calls
    other than [record], the chunks kept are exactly the blobs of the data
    events that held data, in the order of their arrival.  The blob that
    [onstop] then offers for download has their sizes added up, at least one
    byte for each: the download is empty exactly when no data event with a
    non-empty blob arrived since [record] emptied the list. *)
Theorem download_empty_iff_no_chunk (p : Props) (env env' : Env) (s : Refs)
    (ms : list Moment) (mt : string) :
  reachable s →
  ¬ VideoCanvas.totalDuration p == 0 → VideoCanvas.validateAssets p = true →
  Forall (λ m, isRecordCall (at_call m) = false) ms →
  let s2 := runCalls ms (refsOf (VideoCanvas.record p env s)) in
  let kept := omap (dataOf ∘ at_call) ms in
  chunksRef s2 = kept ∧
  ∃ ext blob,
    traceOf (VideoCanvas.onstop (Some mt) env' s2)
    = [DownloadClick (dateNow env') ext blob] ∧
    blob_size blob = foldr Z.add 0%Z (blob_size <$> kept) ∧
    (Z.of_nat (length kept) <= blob_size blob)%Z ∧
    (blob_size blob = 0%Z ↔ Forall (λ m, dataOf (at_call m) = None) ms).
Proof.
  intros Hreach Htot Hvalid Hms. cbv zeta.
  assert (chunksRef (refsOf (VideoCanvas.record p env s)) = []) as Hempty.
  { destruct (record_accepted_run p env s Hreach Htot Hvalid)
      as (s1 & t1 & c' & frame & _ & _ & Hrun).
    cbv zeta in Hrun. rewrite Hrun.
    by destruct (recorderFails env); [|destruct (startFails env)]. }
  pose proof (runCalls_chunks ms (refsOf (VideoCanvas.record p env s)) Hms)
    as Hchunks.
  rewrite Hempty in Hchunks. simpl in Hchunks.
  split; [exact Hchunks|].
  rewrite onstop_always_downloads. unfold traceOf. cbn [snd].
  eexists _, _. split; [reflexivity|]. rewrite Hchunks.
  pose proof (newBlob_size_positive _ (Some mt) (kept_positive ms)) as Hsize.
  split; [reflexivity|]. split; [exact Hsize|].
  rewrite <- kept_none. split.
  - intros H0. rewrite H0 in Hsize.
    destruct (omap _ ms); [done|]. cbn [length] in Hsize. lia.
  - intros ->. reflexivity.
Qed.

Lemma download_empty_iff_no_chunk_witness :
  let first := {| blob_size := 3; blob_type := None |} in
  let ms :=
    [ {| at_props := storyboard; at_call := DataAvailable first;
         at_env := sampleEnv 900 0.9 |};
      {| at_props := storyboard; at_call := TimerFired PreRoll;
         at_env := sampleEnv 1000 1 |};
      {| at_props := storyboard;
         at_call := DataAvailable {| blob_size := 0; blob_type := None |};
         at_env := sampleEnv 1900 1.9 |};
      {| at_props := storyboard; at_call := CallStopRecording;
         at_env := sampleEnv 2000 2 |} ] in
  let s2 := runCalls ms armed in
  chunksRef s2 = [first] ∧
  ∃ ext blob,
    traceOf (VideoCanvas.onstop (Some "video/mp4"%string) (sampleEnv 2001 2)
               s2)
    = [DownloadClick 2001 ext blob] ∧
    blob_size blob = (3 + 0)%Z ∧
    (1 <= blob_size blob)%Z ∧
    (blob_size blob = 0%Z ↔ Forall (λ m, dataOf (at_call m) = None) ms).
Proof.
  assert (¬ VideoCanvas.totalDuration storyboard == 0) as Hd
    by (intros H; vm_compute in H; discriminate).
  intros first ms s2.
  apply (download_empty_iff_no_chunk storyboard (sampleEnv 0 0)
           (sampleEnv 2001 2) mounted ms "video/mp4" reachable_mounted Hd
           eq_refl).
  by repeat constructor.
Defined.

(** ** An idle controller is silent *)

Lemma established_bind {A B : Type} (J : Refs → Prop) (m : M A)
    (f : A → M B) (env : Env) (s : Refs) :
  J (refsOf (m env s)) → (∀ a, preserving J (f a)) →
  J (refsOf (bind m f env s)).
Proof.
  intros Hm Hf. unfold bind.
  destruct (m env s) as [[[a|] s1] t1]; unfold refsOf in *; simpl in *;
    [|exact Hm].
  specialize (Hf a env s1 Hm). unfold refsOf in Hf.
  by destruct (f a env s1) as [[? ?] ?].
Qed.

Lemma handleStop_silent (env : Env) (s : Refs) :
  activeSourcesRef (refsOf (VideoCanvas.handleStop env s)) = [] ∧
  isPlayingRef (refsOf (VideoCanvas.handleStop env s)) = false.
Proof.
  rewrite handleStop_run. cbv zeta.
  destruct (_ && _); [destruct (mediaRecorderRef s)|]; by split.
Qed.

Lemma handleStop_keeps_idle : preserving idleSilent VideoCanvas.handleStop.
Proof. intros env s _ _. apply handleStop_silent. Qed.

Lemma preRoll_run (p : Props) (env : Env) (s : Refs) :
  VideoCanvas.preRoll p env s
  = (Some tt,
     set_request (frameHandle env)
       (set_activeSources
          (activeSourcesRef s ++ pushedBy p env s 0)
          (set_pauseTime 0
             (set_startTime (dateNow env) (set_isPlaying true s)))),
     [RequestAnimationFrame]).
Proof.
  unfold VideoCanvas.preRoll. do 4 step.
  rewrite (bind_returned _ _ _ _ _ _ _ (scheduleAudio_any p _ env _)).
  rewrite requestFrame_run. unfold after. simpl. reflexivity.
Qed.

Lemma handlers_keep_idle_silent (p : Props) (call : Call) :
  preserving idleSilent (handler p call).
Proof.
  destruct call as [| | | | |[| |]| |]; simpl.
  - intros env s Hs. destruct (isPlayingRef s) eqn:Hp.
    + by rewrite play_while_playing.
    + rewrite play_run_any by done. intros H. discriminate H.
  - intros env s _ _. by rewrite pause_run.
  - intros env s _ _. unfold VideoCanvas.record.
    apply (established_bind (λ s, activeSourcesRef s = []));
      [apply handleStop_silent|].
    intros _.
    unfold VideoCanvas.alert, VideoCanvas.onPlaybackEnd,
      VideoCanvas.resumeIfSuspended, VideoCanvas.renderCanvas.
    pres ltac:(fail).
  - apply handleStop_keeps_idle.
  - unfold VideoCanvas.drawFrame, VideoCanvas.renderCanvas,
      VideoCanvas.requestFrame, VideoCanvas.onPlaybackEnd.
    pres ltac:(apply handleStop_keeps_idle).
  - intros env s _. rewrite preRoll_run. intros H. discriminate H.
  - unfold VideoCanvas.postRoll, VideoCanvas.onPlaybackEnd.
    pres ltac:(apply handleStop_keeps_idle).
  - by apply preserving_unchanged.
  - unfold VideoCanvas.ondataavailable. pres ltac:(fail).
  - unfold VideoCanvas.onstop. pres ltac:(fail).
Qed.

(** X15.  In every state the handlers reach from the mounted component, a
    controller that is not playing holds no active audio node: whatever
    [play] or the pre-roll scheduled has been stopped and dropped by the
    time the playing flag is down. *)
Theorem idle_player_has_no_audio (s : Refs) :
  reachable s → isPlayingRef s = false → activeSourcesRef s = [].
Proof.
  induction 1 as [|p call env s _ IH]; [done|].
  by apply handlers_keep_idle_silent.
Qed.

Lemma idle_player_has_no_audio_witness :
  activeSourcesRef
    (refsOf (VideoCanvas.pause (sampleEnv 2000 2)
               (refsOf (VideoCanvas.play storyboard (sampleEnv 0 0)
                          mounted))))
  = [].
Proof.
  apply idle_player_has_no_audio; [|reflexivity].
  apply (reachable_call storyboard CallPause).
  apply (reachable_call storyboard CallPlay).
  apply reachable_mounted.
Defined.

(** X16.  [play] from a reachable idle state, then [pause]: the nodes active
    in between are exactly those of one pass of [scheduleAudio] at the
    stored offset; [pause] stops and disconnects each of them, in order,
    cancels the frame that [play] requested, and leaves an offset that has
    advanced by the wall-clock time between the two calls. *)
Theorem play_then_pause (p : Props) (env1 env2 : Env) (s : Refs) :
  reachable s → isPlayingRef s = false →
  let r1 := VideoCanvas.play p env1 s in
  let r2 := VideoCanvas.pause env2 (refsOf r1) in
  let nodes := VideoCanvas.scheduled p (currentTime env1) (pauseTimeRef s) in
  activeSourcesRef (refsOf r1) = nodes ∧
  traceOf r2
  = stopsOf nodes
    ++ (if (frameHandle env1 =? 0)%Z then []
        else [CancelAnimationFrame (frameHandle env1)]) ∧
  pauseTimeRef (refsOf r2)
  == pauseTimeRef s + (dateNow env2 - dateNow env1) / 1000 ∧
  isPlayingRef (refsOf r2) = false ∧ activeSourcesRef (refsOf r2) = [].
Proof.
  intros Hreach Hidle. cbv zeta.
  assert (activeSourcesRef s = []) as Hnone.
  { revert Hidle. induction Hreach as [|p' call env s _ IH]; [done|].
    by apply handlers_keep_idle_silent. }
  destruct (reachable_audio_ready s Hreach) as [Ha Hd].
  rewrite (play_run p env1 s Hidle Ha Hd), Hnone.
  change (refsOf (?a, ?r, ?t)) with r.
  rewrite pause_run. unfold traceOf, refsOf, stopsOf. simpl.
  repeat split. field.
Qed.

Lemma play_then_pause_witness :
  pauseTimeRef
    (refsOf (VideoCanvas.pause (sampleEnv 2500 2.5)
               (refsOf (VideoCanvas.play storyboard (sampleEnv 1000 1)
                          mounted))))
  == 0 + (2500 - 1000) / 1000.
Proof.
  apply (play_then_pause storyboard (sampleEnv 1000 1) (sampleEnv 2500 2.5)
           mounted reachable_mounted eq_refl).
Defined.

(** X17.  Stopping a recording does not cancel its pre-roll.  From a
    reachable state whose recording flag is up over a recorder that is not
    inactive, [stopRecording] stops the recorder once and lowers the flag;
    when the 800 ms timer of [record] fires afterwards, the pre-roll still
    raises the playing flag, restarts the clock at offset zero, schedules
    the audio from the start and requests a frame, although nothing is
    recording any more. *)
Theorem stop_does_not_cancel_pre_roll (p : Props) (env1 env2 : Env)
    (s : Refs) (rec : MediaRecorder) :
  reachable s → isRecordingRef s = true →
  mediaRecorderRef s = Some rec → rec_state rec ≠ inactive →
  let r1 := VideoCanvas.handleStop env1 s in
  let r2 := VideoCanvas.preRoll p env2 (refsOf r1) in
  List.filter isRecorderStop (traceOf r1) = [RecorderStop] ∧
  isRecordingRef (refsOf r1) = false ∧
  returns r2 = true ∧ traceOf r2 = [RequestAnimationFrame] ∧
  isRecordingRef (refsOf r2) = false ∧ isPlayingRef (refsOf r2) = true ∧
  startTimeRef (refsOf r2) = dateNow env2 ∧ pauseTimeRef (refsOf r2) = 0 ∧
  activeSourcesRef (refsOf r2) = VideoCanvas.scheduled p (currentTime env2) 0.
Proof.
  intros Hreach Hrec Hr Hstate. cbv zeta.
  destruct (reachable_audio_ready s Hreach) as [Ha Hd].
  rewrite (handleStop_recording env1 s rec Hrec Hr Hstate).
  change (refsOf (?a, ?r, ?t)) with r.
  change (traceOf (?a, ?r, ?t)) with t.
  rewrite preRoll_run.
  unfold returns, traceOf, refsOf, pushedBy. simpl. rewrite Ha, Hd. simpl.
  repeat split.
  rewrite List.filter_app. simpl.
  by rewrite stopEvents_filter.
Qed.

Lemma stop_does_not_cancel_pre_roll_witness :
  let r1 := VideoCanvas.handleStop (sampleEnv 300 0.3) armed in
  let r2 := VideoCanvas.preRoll storyboard (sampleEnv 800 0.8) (refsOf r1) in
  List.filter isRecorderStop (traceOf r1) = [RecorderStop] ∧
  isRecordingRef (refsOf r2) = false ∧ isPlayingRef (refsOf r2) = true.
Proof.
  assert (reachable armed) as Hreach
    by apply (reachable_call storyboard CallRecord), reachable_mounted.
  destruct (stop_does_not_cancel_pre_roll storyboard (sampleEnv 300 0.3)
              (sampleEnv 800 0.8) armed
              {| rec_state := recording;
                 rec_mimeType := Some "video/webm;codecs=vp9"%string |}
              Hreach eq_refl eq_refl)
    as (H0 & _ & _ & _ & H1 & H2 & _); [discriminate|].
  by repeat split.
Defined.

(** ** Widening a scene to its narration (App.tsx) *)

Lemma widen_timeline (sceneId : Z) (b : AudioBuffer) (c c' : Q)
    (ss : list ScriptScene) (i : nat) (e : TimelineEntry) :
  c <= c' →
  timelineFrom VideoCanvas.sceneDuration c ss !! i = Some e →
  ∃ e',
    timelineFrom VideoCanvas.sceneDuration c' (App.widen sceneId b ss) !! i
    = Some e' ∧
    id (scene e') = id (scene e) ∧
    transitionType (scene e') = transitionType (scene e) ∧
    start e <= start e' ∧ duration e <= duration e' ∧ end_ e <= end_ e' ∧
    (id (scene e) ≠ sceneId → duration e' = duration e) ∧
    (id (scene e) = sceneId →
     duration e' = Qmax (duration e) (App.narrationDuration b)) ∧
    end_ e' = start e' + duration e'.
Proof.
  revert c c' i. induction ss as [|sc ss IH]; intros c c' i Hc; [done|].
  assert (VideoCanvas.sceneDuration sc
          <= VideoCanvas.sceneDuration
               (if (id sc =? sceneId)%Z
                then {| id := id sc; visualDescription := visualDescription sc;
                        narration := narration sc;
                        durationEstimate :=
                          Qmax (durationEstimate sc)
                            (App.narrationDuration b);
                        transitionType := transitionType sc;
                        isHook := isHook sc |}
                else sc)) as Hdur.
  { destruct (id sc =? sceneId)%Z; unfold VideoCanvas.sceneDuration; simpl;
      [apply Q.le_max_l | lra]. }
  destruct i as [|i].
  - intros [= <-]. eexists. split; [reflexivity|]. simpl.
    destruct (id sc =? sceneId)%Z eqn:E; simpl;
      unfold VideoCanvas.sceneDuration in *; simpl in *;
      repeat split; try lra; try done.
    + intros Hne. apply Z.eqb_eq in E. done.
    + intros He. apply Z.eqb_neq in E. done.
  - intros He. simpl in He.
    apply (IH _ (c' + VideoCanvas.sceneDuration
                        (if (id sc =? sceneId)%Z
                         then {| id := id sc;
                                 visualDescription := visualDescription sc;
                                 narration := narration sc;
                                 durationEstimate :=
                                   Qmax (durationEstimate sc)
                                     (App.narrationDuration b);
                                 transitionType := transitionType sc;
                                 isHook := isHook sc |}
                         else sc))) in He; [exact He | lra].
Qed.

Lemma widen_sum (sceneId : Z) (b : AudioBuffer) (ss : list ScriptScene) :
  sumDurations durationEstimate ss
  <= sumDurations durationEstimate (App.widen sceneId b ss).
Proof.
  induction ss as [|sc ss IH]; unfold sumDurations in *; simpl; [lra|].
  destruct (id sc =? sceneId)%Z; simpl.
  - pose proof (Q.le_max_l (durationEstimate sc) (App.narrationDuration b)).
    lra.
  - lra.
Qed.

(** X18.  Widening a scene to its narration, as [processScene] and
    [handleRegenerateAudio] do, never shortens anything: every entry of the
    timeline keeps its index, its scene id and its transition style, starts
    and ends no earlier and lasts no less than before; only the entries of
    the widened id change duration, to the larger of the old duration and
    the narration plus 0.2 s; and the total duration does not decrease. *)
Theorem widening_never_shortens (p : Props) (sceneId : Z) (b : AudioBuffer)
    (i : nat) (e : TimelineEntry) :
  let p' := App.withScenes (App.widen sceneId b (scenes p)) p in
  VideoCanvas.getTimeline p !! i = Some e →
  (∃ e',
     VideoCanvas.getTimeline p' !! i = Some e' ∧
     id (scene e') = id (scene e) ∧
     transitionType (scene e') = transitionType (scene e) ∧
     start e <= start e' ∧ duration e <= duration e' ∧ end_ e <= end_ e' ∧
     (id (scene e) ≠ sceneId → duration e' = duration e) ∧
     (id (scene e) = sceneId →
      duration e' = Qmax (duration e) (App.narrationDuration b))) ∧
  VideoCanvas.totalDuration p <= VideoCanvas.totalDuration p'.
Proof.
  intros p' He. split.
  - destruct (widen_timeline sceneId b 0 0 (scenes p) i e (Qle_refl 0) He)
      as (e' & H1 & H2 & H3 & H4 & H5 & H6 & H7 & H8 & _).
    exists e'. by repeat split.
  - rewrite !totalDuration_sum. apply widen_sum.
Qed.

Lemma widening_never_shortens_witness :
  ∃ e',
    VideoCanvas.getTimeline
      (App.withScenes
         (App.widen 3 {| buf_label := "n3"; buf_duration := 9 |}
            (scenes storyboard)) storyboard) !! 2%nat = Some e' ∧
    duration e' = Qmax (duration thirdEntry) (9 + 0.2).
Proof.
  destruct (widening_never_shortens storyboard 3
              {| buf_label := "n3"; buf_duration := 9 |} 2 thirdEntry
              eq_refl)
    as [(e' & H1 & _ & _ & _ & _ & _ & _ & H2) _].
  exists e'. split; [exact H1 | exact (H2 eq_refl)].
Defined.

(** X19.  Once a scene has been widened to the narration its asset holds,
    the stop that [scheduleAudio] pins on the narration node no longer cuts
    it: for any offset before the end of the entry a node is created, and
    between its begin and its stop there is room for what is left of the
    buffer and 0.2 s more. *)
Theorem widened_narration_plays_in_full (p : Props) (sceneId : Z)
    (b : AudioBuffer) (now t0 : Q) (i : nat) (e' : TimelineEntry) :
  let p' := App.withScenes (App.widen sceneId b (scenes p)) p in
  0 <= now →
  assets p !! sceneId ≫= audioBuffer = Some b →
  VideoCanvas.getTimeline p' !! i = Some e' → id (scene e') = sceneId →
  t0 < end_ e' →
  ∃ n stop,
    VideoCanvas.narrationSource p' now t0 e' = Some n ∧
    node_buffer n = b ∧ node_stop n = Some stop ∧
    buf_duration b - node_offset n + 0.2 <= stop - beginsAt now n.
Proof.
  intros p' Hnow Hb He' Hid Hend.
  assert (∃ sc, scenes p !! i = Some sc) as [sc Hsc].
  { apply lookup_lt_is_Some.
    apply lookup_lt_Some in He'.
    unfold VideoCanvas.getTimeline in He'.
    rewrite timelineFrom_length in He'. simpl in He'.
    unfold App.widen in He'. by rewrite length_fmap in He'. }
  destruct (timelineFrom_lookup VideoCanvas.sceneDuration 0 (scenes p) i sc
              Hsc) as (e & He & Hscene).
  destruct (widen_timeline sceneId b 0 0 (scenes p) i e (Qle_refl 0) He)
    as (e2 & H1 & H2 & _ & _ & _ & _ & _ & Hwide & Hsum).
  assert (e2 = e') as -> by (unfold VideoCanvas.getTimeline in He';
                              simpl in He'; congruence).
  rewrite Hwide in Hsum by congruence.
  assert (App.narrationDuration b <= end_ e' - start e') as Hroom.
  { rewrite Hsum.
    pose proof (Q.le_max_r (duration e) (App.narrationDuration b)). lra. }
  unfold App.narrationDuration in Hroom.
  unfold VideoCanvas.narrationSource.
  change (assets p') with (assets p). rewrite Hid, Hb.
  destruct (Qle_bool 0 (start e' - t0)) eqn:Hdelay.
  - apply Qle_bool_iff in Hdelay. eexists _, _.
    split; [reflexivity|]. cbn [node_buffer node_stop node_offset].
    split; [reflexivity|]. split; [reflexivity|].
    unfold beginsAt. cbn [node_when]. rewrite Q.max_l by lra. lra.
  - apply Qle_bool_gt in Hdelay.
    assert (Qltb t0 (end_ e') = true) as -> by (by apply Qltb_lt).
    eexists _, _.
    split; [reflexivity|]. cbn [node_buffer node_stop node_offset].
    split; [reflexivity|]. split; [reflexivity|].
    unfold beginsAt. cbn [node_when]. rewrite Q.max_r by lra. lra.
Qed.

Lemma widened_narration_plays_in_full_witness :
  ∃ n stop,
    VideoCanvas.narrationSource widenedStoryboard 12 8 widenedEntry = Some n ∧
    node_buffer n = {| buf_label := "n3"; buf_duration := 9 |} ∧
    node_stop n = Some stop ∧
    9 - node_offset n + 0.2 <= stop - beginsAt 12 n.
Proof.
  apply (widened_narration_plays_in_full storyboard 3
           {| buf_label := "n3"; buf_duration := 9 |} 12 8 2 widenedEntry).
  - lra.
  - reflexivity.
  - reflexivity.
  - reflexivity.
  - vm_compute. reflexivity.
Defined.

(** ** The container of the download *)

(** X20.  [getSupportedMimeType] answers the first type of its list that the
    host supports.  The download that [onstop] triggers for a recorder made
    with that type is named [.mp4] exactly when none of the three WebM
    types is supported, and [.webm] otherwise.  When the host supports none
    of the four types there is no type at all: [onstop] throws and
    downloads nothing. *)
Theorem download_container (env env' : Env) (s : Refs) :
  let r := VideoCanvas.onstop (VideoCanvas.getSupportedMimeType env) env' s in
  let webm :=
    isTypeSupported env "video/webm;codecs=vp9"
    || isTypeSupported env "video/webm;codecs=vp8"
    || isTypeSupported env "video/webm" in
  match VideoCanvas.getSupportedMimeType env with
  | Some m =>
      isTypeSupported env m = true ∧
      (∃ before after,
         VideoCanvas.mimeTypes = before ++ m :: after ∧
         Forall (λ m', isTypeSupported env m' = false) before) ∧
      traceOf r
      = [DownloadClick (dateNow env') (if webm then "webm" else "mp4")
           (VideoCanvas.newBlob (chunksRef s) (Some m))]
  | None =>
      Forall (λ m', isTypeSupported env m' = false) VideoCanvas.mimeTypes ∧
      returns r = false ∧ traceOf r = []
  end.
Proof.
  unfold VideoCanvas.getSupportedMimeType, VideoCanvas.mimeTypes.
  cbv zeta. cbn [List.find].
  destruct (isTypeSupported env "video/webm;codecs=vp9") eqn:E9.
  { split; [exact E9|]. split; [|reflexivity].
    exists [], ["video/webm;codecs=vp8"; "video/webm"; "video/mp4"]%string.
    by split. }
  destruct (isTypeSupported env "video/webm;codecs=vp8") eqn:E8.
  { split; [exact E8|]. split; [|reflexivity].
    exists ["video/webm;codecs=vp9"%string], ["video/webm"; "video/mp4"]%string.
    split; [reflexivity|]. by repeat constructor. }
  destruct (isTypeSupported env "video/webm") eqn:Ew.
  { split; [exact Ew|]. split; [|reflexivity].
    exists ["video/webm;codecs=vp9"; "video/webm;codecs=vp8"]%string,
      ["video/mp4"%string].
    split; [reflexivity|]. by repeat constructor. }
  destruct (isTypeSupported env "video/mp4") eqn:E4.
  { split; [exact E4|]. split; [|reflexivity].
    exists ["video/webm;codecs=vp9"; "video/webm;codecs=vp8";
            "video/webm"]%string, [].
    split; [reflexivity|]. by repeat constructor. }
  split; [by repeat constructor|]. by split.
Qed.

(** ** Retrying a request (geminiService.ts) *)

Lemma backoff_succ (j : nat) :
  1.5 ^ Z.of_nat (S j) == 1.5 * 1.5 ^ Z.of_nat j.
Proof.
  rewrite Nat2Z.inj_succ, <- Z.add_1_l, Qpower_plus by done. reflexivity.
Qed.

(** X21.  [withRetry] calls the operation once more than it waits, and waits
    at most [retries] times.  Its result is the outcome of the last call;
    every call before the last was rejected with a transient error; and a
    rejection is passed on only when it is not transient or when no retry
    is left. *)
Theorem withRetry_attempts {T : Type}
    (operation : nat → GeminiService.Outcome T) (attempt retries : nat)
    (delayMs : Q) :
  let r := GeminiService.withRetry operation attempt retries delayMs in
  let k := length r.2 in
  (k <= retries)%nat ∧
  r.1 = operation (attempt + k)%nat ∧
  (∀ j, (j < k)%nat →
        ∃ e, operation (attempt + j)%nat = GeminiService.Rejected e ∧
             GeminiService.isTransientError e = true) ∧
  match r.1 with
  | GeminiService.Resolved _ => True
  | GeminiService.Rejected e =>
      GeminiService.isTransientError e = false ∨ k = retries
  end.
Proof.
  cbv zeta. revert attempt delayMs.
  induction retries as [|n IH]; intros attempt delayMs; simpl.
  - destruct (operation attempt) as [v|e] eqn:Hop; simpl;
      rewrite Nat.add_0_r, Hop; repeat split; auto; intros j Hj; lia.
  - destruct (operation attempt) as [v|e] eqn:Hop; simpl.
    + rewrite Nat.add_0_r, Hop. repeat split; [lia|]. intros j Hj. lia.
    + destruct (GeminiService.isTransientError e) eqn:Htr; simpl.
      * destruct (IH (S attempt) (delayMs * 1.5)) as (Hk & Hlast & Hpre & Hrej).
        split; [lia|]. split.
        { rewrite Hlast. f_equal. lia. }
        split.
        { intros [|j] Hj.
          - rewrite Nat.add_0_r. eauto.
          - destruct (Hpre j) as (e' & He' & Ht'); [lia|].
            exists e'. split; [|exact Ht'].
            rewrite <- He'. f_equal. lia. }
        destruct (GeminiService.withRetry operation (S attempt) n
                    (delayMs * 1.5)).1; [done|].
        destruct Hrej as [?| ->]; auto.
      * rewrite Nat.add_0_r, Hop. repeat split; [lia| |by left].
        intros j Hj. lia.
Qed.

(** X22.  The delays of [withRetry] grow by half at every retry: the wait
    before retry number [j], counted from zero, is the first delay times 1.5
    to the power [j], and all the waits add up to twice the first delay
    times (1.5 to the number of waits, minus one). *)
Theorem withRetry_backoff {T : Type}
    (operation : nat → GeminiService.Outcome T) (attempt retries : nat)
    (delayMs : Q) :
  let waits := (GeminiService.withRetry operation attempt retries delayMs).2 in
  (∀ j d, waits !! j = Some d → d == delayMs * 1.5 ^ Z.of_nat j) ∧
  foldr Qplus 0 waits
  == 2 * delayMs * (1.5 ^ Z.of_nat (length waits) - 1).
Proof.
  cbv zeta. revert attempt delayMs.
  induction retries as [|n IH]; intros attempt delayMs; simpl.
  - destruct (operation attempt); simpl; (split; [done|]); ring.
  - destruct (operation attempt) as [v|e]; simpl.
    + split; [done|]. ring.
    + destruct (GeminiService.isTransientError e); simpl.
      * destruct (IH (S attempt) (delayMs * 1.5)) as [Hj Hsum].
        split.
        { intros [|j] d; simpl.
          - intros [= <-]. ring.
          - intros Hd. rewrite (Hj j d Hd).
            change (Qpower_positive 1.5 (Pos.of_succ_nat j))
              with (1.5 ^ Z.of_nat (S j)).
            rewrite backoff_succ. ring. }
        rewrite Hsum.
        change (Qpower_positive 1.5 (Pos.of_succ_nat ?x))
          with (1.5 ^ Z.of_nat (S x)).
        rewrite backoff_succ. ring.
      * split; [done|]. ring.
Qed.

(** ** Decoding a narration (geminiService.ts) *)

Lemma int16_range (lo hi : Byte.byte) :
  (-32768 <= GeminiService.int16 lo hi < 32768)%Z.
Proof.
  unfold GeminiService.int16. cbv zeta.
  pose proof (Byte.to_N_bounded lo). pose proof (Byte.to_N_bounded hi).
  destruct (_ <? _)%Z eqn:E; [apply Z.ltb_lt in E | apply Z.ltb_ge in E]; lia.
Qed.

Lemma sample_range (x : Z) :
  (-32768 <= x < 32768)%Z →
  -1 <= inject_Z x / 32768.0 ∧ inject_Z x / 32768.0 < 1.
Proof.
  intros Hx.
  assert (inject_Z x / 32768.0 == inject_Z x * (1 # 32768)) as -> by field.
  unfold Qle, Qlt, Qmult, inject_Z. simpl. lia.
Qed.

Lemma dataLen_half (len : nat) :
  ((if (len mod 2 =? 0)%nat then len else (len - 1)%nat) / 2 = len / 2)%nat.
Proof.
  destruct (len mod 2 =? 0)%nat eqn:E; [done|].
  apply Nat.eqb_neq in E.
  pose proof (Nat.div_mod_eq len 2). pose proof (Nat.mod_upper_bound len 2).
  assert (len mod 2 = 1)%nat as H1 by lia.
  assert (len - 1 = 2 * (len / 2))%nat as -> by lia.
  rewrite Nat.mul_comm. by rewrite Nat.div_mul.
Qed.

(** X23.  [decodeAudioData] fails exactly on fewer than two bytes.
    Otherwise it gives a buffer at 24000 Hz with one sample for every two
    bytes, the sample number [i] being the signed 16-bit value of bytes
    [2i] and [2i+1], low byte first, divided by 32768; every sample lies in
    the interval from -1, included, to 1, excluded, and the duration is
    positive: the number of samples over 24000. *)
Theorem decodeAudioData_samples (bytes : list Byte.byte) :
  match GeminiService.decodeAudioData bytes with
  | None => (length bytes < 2)%nat
  | Some b =>
      (2 <= length bytes)%nat ∧ GeminiService.sampleRate b = 24000%Z ∧
      length (GeminiService.channelData b) = (length bytes / 2)%nat ∧
      Forall (λ x, -1 <= x ∧ x < 1) (GeminiService.channelData b) ∧
      (∀ i, (i < length bytes / 2)%nat →
            GeminiService.channelData b !! i
            = Some (inject_Z (GeminiService.int16 (nth (2 * i) bytes Byte.x00)
                                (nth (2 * i + 1) bytes Byte.x00))
                    / 32768.0)) ∧
      0 < GeminiService.duration b ∧
      GeminiService.duration b == inject_Z (Z.of_nat (length bytes / 2)) / 24000
  end.
Proof.
  unfold GeminiService.decodeAudioData. cbv zeta.
  rewrite length_fmap, length_seq, dataLen_half.
  pose proof (Nat.div_mod_eq (length bytes) 2) as Hdm.
  pose proof (Nat.mod_upper_bound (length bytes) 2) as Hm.
  destruct (length bytes / 2 =? 0)%nat eqn:E.
  - apply Nat.eqb_eq in E. lia.
  - apply Nat.eqb_neq in E.
    split; [lia|]. split; [reflexivity|].
    cbn [GeminiService.channelData GeminiService.sampleRate]. unfold GeminiService.duration. cbn [GeminiService.channelData GeminiService.sampleRate].
    rewrite !length_fmap, length_seq.
    split; [reflexivity|]. split.
    { apply Forall_fmap, Forall_fmap, Forall_forall. intros i _. simpl.
      apply sample_range, int16_range. }
    split.
    { intros i Hi. rewrite !list_lookup_fmap.
      rewrite lookup_seq_lt by done. reflexivity. }
    split; [|reflexivity].
    apply Qlt_shift_div_l; [reflexivity|]. rewrite Qmult_0_l.
    change 0 with (inject_Z 0). rewrite <- Zlt_Qlt. lia.
Qed.

(** X24.  A byte left over after the last pair is ignored: appending one
    byte to an input of even length does not change the decoded buffer. *)
Theorem decodeAudioData_odd_byte (bytes : list Byte.byte) (x : Byte.byte) :
  Nat.even (length bytes) = true →
  GeminiService.decodeAudioData (bytes ++ [x])
  = GeminiService.decodeAudioData bytes.
Proof.
  intros Heven. apply Nat.even_spec in Heven. destruct Heven as [k Hk].
  unfold GeminiService.decodeAudioData. cbv zeta.
  rewrite !length_fmap, !length_seq, !dataLen_half, length_app.
  change (length [x]) with 1%nat.
  assert ((length bytes + 1) / 2 = length bytes / 2)%nat as ->.
  { rewrite Hk. rewrite (Nat.mul_comm 2 k), Nat.div_add_l by done.
    rewrite Nat.div_mul by done. simpl. lia. }
  destruct (_ =? 0)%nat; [done|]. do 3 f_equal.
  apply list_fmap_ext. intros i j Hj.
  apply lookup_seq in Hj as [-> Hlt]. simpl.
  assert (length bytes / 2 = k)%nat as Hk2
    by (rewrite Hk, Nat.mul_comm; by apply Nat.div_mul).
  rewrite !app_nth1 by lia. reflexivity.
Qed.

Lemma decodeAudioData_odd_byte_witness :
  GeminiService.decodeAudioData ([Byte.x01; Byte.x80] ++ [Byte.xff])
  = GeminiService.decodeAudioData [Byte.x01; Byte.x80].
Proof.
  apply (decodeAudioData_odd_byte [Byte.x01; Byte.x80] Byte.xff).
  reflexivity.
Defined.
